(** * srclient: a caching client for a schema registry

    A shallow embedding of the Go package [srclient] (the client itself and
    the [TokenProvider] interface of [token.go]) together with the
    properties its specification states about it.

    The client is sequential Go code around three kinds of calls that leave
    the package: the HTTP transport ([http.Client.Do]), the token provider
    ([TokenProvider.ObtainToken]) and pure library functions (JSON
    encoding, URL escaping, base64, Avro codec compilation).  These are the
    fields of the class [Runtime]; everything else is translated function
    by function. *)

From Stdlib Require Import ZArith Ascii String DecimalString.
From Stdlib Require DecimalZ DecimalPos.
From stdpp Require Import gmap strings list.

Open Scope Z_scope.

(** ** Errors and results *)

(** [type Error struct { Code int; Message string; str *bytes.Buffer }] *)
Record Error := { Code : Z; Message : string; str : string }.

(** Go's [error] interface, by the three ways an error reaches a caller of
    this package: the [Error] value made by [createError], a message made
    with [fmt.Errorf], and errors made by a library or by the token
    provider. *)
Inductive error : Type :=
| RegistryError (e : Error)
| Errorf (msg : string)
| Foreign (msg : string).

(** Go's [(T, error)] pair with the convention that the value is only
    looked at when the error is [nil]. *)
Inductive result (A : Type) : Type :=
| Ok (a : A)
| Err (e : error).
Arguments Ok {A} a.
Arguments Err {A} e.

(** How a call ends in a sequential run: it returns, it blocks for ever
    (on a lock or a semaphore that nobody is left to release), or it
    panics. *)
Inductive Outcome (A : Type) : Type :=
| Returns (a : A)
| Blocks
| Panics.
Arguments Returns {A} a.
Arguments Blocks {A}.
Arguments Panics {A}.

Definition is_Ok {A} (r : result A) : bool :=
  match r with Ok _ => true | Err _ => false end.

(** ** Runs

    A piece of Go code over a state [S]: from a state it ends in one of
    the three ways above and leaves a state. *)

Definition Run (S A : Type) : Type := S -> Outcome A * S.

Definition ret {S A} (a : A) : Run S A := fun st => (Returns a, st).

Definition bind {S A B} (m : Run S A) (k : A -> Run S B) : Run S B := fun st =>
  match m st with
  | (Returns a, st') => k a st'
  | (Blocks, st') => (Blocks, st')
  | (Panics, st') => (Panics, st')
  end.

Definition block {S A} : Run S A := fun st => (Blocks, st).
Definition panic {S A} : Run S A := fun st => (Panics, st).

(** [if err != nil { return nil, err }] *)
Definition tryGo {S A B} (m : Run S (result A)) (k : A -> Run S (result B))
    : Run S (result B) :=
  bind m (fun r =>
    match r with
    | Ok a => k a
    | Err e => ret (Err e)
    end).

Declare Scope go_scope.
Notation "'try!' x ← m ; k" := (tryGo m (fun x => k))
  (at level 20, x name, m at level 100, k at level 200, only parsing) : go_scope.
Notation "'do!' x ← m ; k" := (bind m (fun x => k))
  (at level 20, x name, m at level 100, k at level 200, only parsing) : go_scope.
Notation "m ;; k" := (bind m (fun _ => k))
  (at level 100, k at level 200, only parsing, right associativity) : go_scope.
Open Scope go_scope.

(** [m], [n] times over, with what each run returned. *)
Fixpoint repeatGo {S A} (n : nat) (m : Run S A) : Run S (list A) :=
  match n with
  | O => ret []
  | S n => do! a ← m; do! rest ← repeatGo n m; ret (a :: rest)
  end.

(** ** Schema types and compatibility levels *)

Definition SchemaType := string.
Definition Protobuf : SchemaType := "PROTOBUF".
Definition Avro : SchemaType := "AVRO".
Definition Json : SchemaType := "JSON".

(** [func (s SchemaType) String() string] *)
Definition SchemaType_String (s : SchemaType) : string :=
  if decide (s = Avro) then "" else s.

Definition CompatibilityLevel := string.

(** ** Wire structures

    Go's [int] is read as [Z]: the client compares, prints and stores ids
    and versions and does no arithmetic on them. *)

Record Reference := { Name : string; Subject : string; Version : Z }.

Record schemaRequest := {
  req_Schema : string;
  req_SchemaType : string;
  req_References : list Reference }.

Record schemaResponse := {
  resp_Subject : string;
  resp_Version : Z;
  resp_Schema : string;
  resp_SchemaType : option SchemaType;
  resp_ID : Z;
  resp_References : list Reference }.

(** [strconv.Itoa], also what [fmt.Sprintf] prints for [%d]. *)
Definition Itoa (n : Z) : string := NilZero.string_of_int (Z.to_int n).

(** What [fmt.Sprintf] prints for [%t]. *)
Definition FormatBool (b : bool) : string := if b then "true" else "false".

(** The path constants, each with [fmt.Sprintf] applied to its verbs. *)
Definition schemaByID (id : Z) : string := "/schemas/ids/" +:+ Itoa id.
Definition subjectBySubject (subject : string) : string := "/subjects/" +:+ subject.
Definition subjectVersions (subject : string) : string :=
  "/subjects/" +:+ subject +:+ "/versions".
Definition subjectByVersion (subject version : string) : string :=
  "/subjects/" +:+ subject +:+ "/versions/" +:+ version.
Definition subjects : string := "/subjects".
Definition config : string := "/config".
Definition configBySubject (subject : string) : string := "/config/" +:+ subject.
Definition contentType : string := "application/vnd.schemaregistry.v1+json".

(** [func cacheKey(subject string, version string) string] *)
Definition cacheKey (subject version : string) : string :=
  subject +:+ "-" +:+ version.

(** ** HTTP messages *)

(** [http.Header]: canonical key to the list of its values. *)
Abbreviation Header := (gmap string (list string)).

Definition Header_Set (k v : string) (h : Header) : Header := <[k := [v]]> h.
Definition Header_Add (k v : string) (h : Header) : Header :=
  <[k := default [] (h !! k) ++ [v]]> h.

(** A response body as the reader the client drains: the bytes it yields
    and the error, if any, that ends the stream early. *)
Record ReadCloser := { bytes : string; fault : option error }.

(** [ioutil.ReadAll] *)
Definition ReadAll (b : ReadCloser) : result string :=
  match fault b with
  | Some e => Err e
  | None => Ok (bytes b)
  end.

Record Response := { Status : string; StatusCode : Z; Body : ReadCloser }.

(** [*http.Request], once built, over the type of its context. *)
Record Request (C : Type) := {
  Ctx : C;
  Method : string;
  URL : string;
  Hdr : Header;
  Payload : option string }.
Arguments Ctx {C} _.
Arguments Method {C} _.
Arguments URL {C} _.
Arguments Hdr {C} _.
Arguments Payload {C} _.

(** ** Regular expressions, as far as the client uses them *)

Inductive regexp : Type :=
| Lit (c : ascii)
| Cat (r1 r2 : regexp)
| Opt (r : regexp).

(** Leftmost-first matching at the head of [s]: [k] receives what is left
    after the match; a greedy [?] tries its operand before skipping it. *)
Fixpoint matchHere {A} (r : regexp) (s : string) (k : string -> option A) : option A :=
  match r with
  | Lit c =>
      match s with
      | String c' s' => if decide (c = c') then k s' else None
      | EmptyString => None
      end
  | Cat r1 r2 => matchHere r1 s (fun s' => matchHere r2 s' k)
  | Opt r1 =>
      match matchHere r1 s k with
      | Some a => Some a
      | None => k s
      end
  end.

(** Length of the match of [r] that starts at the head of [s]. *)
Definition matchLen (r : regexp) (s : string) : option nat :=
  matchHere r s (fun rest => Some (String.length s - String.length rest)%nat).

(** [Regexp.ReplaceAllString] for a pattern whose matches are not
    empty: scan from the left, put [repl] for every match and resume
    after it.  [skip] counts the bytes of the current match that are
    still to be dropped. *)
Fixpoint replaceFrom (r : regexp) (repl : string) (skip : nat) (s : string) : string :=
  match s with
  | EmptyString => EmptyString
  | String c s' =>
      match skip with
      | S n => replaceFrom r repl n s'
      | O =>
          match matchLen r s with
          | Some (S n) => repl +:+ replaceFrom r repl n s'
          | _ => String c (replaceFrom r repl O s')
          end
      end
  end.

Definition ReplaceAllString (r : regexp) (src repl : string) : string :=
  replaceFrom r repl O src.

Definition CR : ascii := ascii_of_nat 13.
Definition LF : ascii := ascii_of_nat 10.

(** [regexp.MustCompile(`\r?\n`)] *)
Definition compiledRegex : regexp := Cat (Opt (Lit CR)) (Lit LF).

(** ** The text the specification asks for

    In the specification's words: every [\r\n] or [\n] of the schema
    text replaced by a single space. *)
Fixpoint replaceLineBreaks (text : string) : string :=
  match text with
  | EmptyString => EmptyString
  | String c rest =>
      if decide (c = LF) then String " " (replaceLineBreaks rest)
      else
        match rest with
        | String c' rest' =>
            if decide (c = CR /\ c' = LF)
            then String " " (replaceLineBreaks rest')
            else String c (replaceLineBreaks rest)
        | EmptyString => String c EmptyString
        end
  end.

(** The bytes of a text. *)
Fixpoint bytesOf (text : string) : list ascii :=
  match text with
  | EmptyString => []
  | String c rest => c :: bytesOf rest
  end.

(** ** What the package takes from outside *)

Class Runtime := {
  (** the state of everything outside the process: the registry, the
      network, the token issuer, the clock *)
  World : Type;
  (** [context.Context] values, and whether one is done (cancelled or
      past its deadline) in a world *)
  Context : Type;
  Done : Context -> World -> bool;
  (** the values that implement the interface [TokenProvider] *)
  Provider : Type;
  (** [*goavro.Codec] and [*jsonschema.Schema] *)
  Codec : Type;
  JsonSchema : Type;
  (** [TokenProvider.ObtainToken] *)
  ObtainToken : Provider -> Context -> World -> result string * World;
  (** the error of [http.NewRequestWithContext] for a context, a method
      and a URL, [None] when the request can be built *)
  NewRequestError : Context -> string -> string -> option error;
  (** [http.Client.Do], for a client with the given timeout *)
  Do : Z -> Request Context -> World -> result Response * World;
  (** [base64.StdEncoding.EncodeToString] *)
  base64 : string -> string;
  (** [url.QueryEscape] *)
  QueryEscape : string -> string;
  (** [goavro.NewCodec] *)
  NewCodec : string -> result Codec;
  (** [json.Marshal] at the two request types; marshalling a struct of
      strings, integers and slices of such structs has no error case *)
  Marshal_schemaRequest : schemaRequest -> string;
  Marshal_configChangeRequest : CompatibilityLevel -> string;
  (** [json.Unmarshal] into the address of a pointer to a struct: the
      JSON literal [null] sets the pointer to [nil], here [None] *)
  Unmarshal_schemaResponse : string -> result (option schemaResponse);
  Unmarshal_configResponse : string -> result (option CompatibilityLevel);
  Unmarshal_configChangeResponse : string -> result (option CompatibilityLevel);
  (** [json.Unmarshal] into a slice and into a pointer to a struct *)
  Unmarshal_ints : string -> result (list Z);
  Unmarshal_strings : string -> result (list string);
  Unmarshal_isCompatibleResponse : string -> result bool;
  (** [json.NewDecoder(io.TeeReader(body, buf)).Decode(&err)] for an
      [Error]: the decoded [error_code] and [message], if the body
      decodes, and what the decoder has read into [buf] *)
  Decode_Error : ReadCloser -> option (Z * string);
  Decode_read : ReadCloser -> string }.

Section Client.
Context `{RT : Runtime}.

(** [http.NewRequestWithContext] *)
Definition NewRequestWithContext (ctx : Context) (method url : string)
    (payload : option string) : result (Request Context) :=
  match NewRequestError ctx method url with
  | Some e => Err e
  | None => Ok {| Ctx := ctx; Method := method; URL := url; Hdr := ∅; Payload := payload |}
  end.

(** [Request.SetBasicAuth] *)
Definition SetBasicAuth (username password : string) (req : Request Context) : Request Context :=
  {| Ctx := Ctx req; Method := Method req; URL := URL req;
     Hdr := Header_Set "Authorization" ("Basic " +:+ base64 (username +:+ ":" +:+ password)) (Hdr req);
     Payload := Payload req |}.

Definition withHeader (f : Header -> Header) (req : Request Context) : Request Context :=
  {| Ctx := Ctx req; Method := Method req; URL := URL req;
     Hdr := f (Hdr req); Payload := Payload req |}.

(** ** The client *)

Record Schema := {
  s_id : Z;
  s_schema : string;
  s_schemaType : option SchemaType;
  s_version : Z;
  s_references : list Reference;
  s_codec : option Codec;
  s_jsonSchema : option JsonSchema }.

(** [type credentials struct]; a [nil] provider is [None]. *)
Record credentials := {
  username : string;
  password : string;
  bearerToken : option Provider }.

(** [semaphore.Weighted]: its capacity and what is held. *)
Record Weighted := { size : Z; cur : Z }.

(** [sync.RWMutex], by the number of read locks held.  Between two
    calls of a sequential run no write lock is held. *)
Record RWMutex := { readers : nat }.

(** [type SchemaRegistryClient struct].  All six mutexes but [credsLock]
    are taken and released in pairs on every path of every function, so
    that in a sequential run they are free whenever they are taken;
    they are left out.  [credsLock] is kept: [httpRequest] has a path
    that returns with the read lock held. *)
Record SchemaRegistryClient := {
  schemaRegistryURL : string;
  credsLock : RWMutex;
  creds : option credentials;
  httpClient_Timeout : Z;
  cachingEnabled : bool;
  cacheLatest : bool;
  codecCreationEnabled : bool;
  idSchemaCache : gmap Z Schema;
  subjectSchemaCache : gmap string Schema;
  sem : Weighted }.

Definition with_credsLock (l : RWMutex) (c : SchemaRegistryClient) :=
  {| schemaRegistryURL := schemaRegistryURL c; credsLock := l; creds := creds c;
     httpClient_Timeout := httpClient_Timeout c; cachingEnabled := cachingEnabled c;
     cacheLatest := cacheLatest c; codecCreationEnabled := codecCreationEnabled c;
     idSchemaCache := idSchemaCache c; subjectSchemaCache := subjectSchemaCache c;
     sem := sem c |}.

Definition with_creds (cr : option credentials) (c : SchemaRegistryClient) :=
  {| schemaRegistryURL := schemaRegistryURL c; credsLock := credsLock c; creds := cr;
     httpClient_Timeout := httpClient_Timeout c; cachingEnabled := cachingEnabled c;
     cacheLatest := cacheLatest c; codecCreationEnabled := codecCreationEnabled c;
     idSchemaCache := idSchemaCache c; subjectSchemaCache := subjectSchemaCache c;
     sem := sem c |}.

Definition with_Timeout (t : Z) (c : SchemaRegistryClient) :=
  {| schemaRegistryURL := schemaRegistryURL c; credsLock := credsLock c; creds := creds c;
     httpClient_Timeout := t; cachingEnabled := cachingEnabled c;
     cacheLatest := cacheLatest c; codecCreationEnabled := codecCreationEnabled c;
     idSchemaCache := idSchemaCache c; subjectSchemaCache := subjectSchemaCache c;
     sem := sem c |}.

Definition with_cachingEnabled (b : bool) (c : SchemaRegistryClient) :=
  {| schemaRegistryURL := schemaRegistryURL c; credsLock := credsLock c; creds := creds c;
     httpClient_Timeout := httpClient_Timeout c; cachingEnabled := b;
     cacheLatest := cacheLatest c; codecCreationEnabled := codecCreationEnabled c;
     idSchemaCache := idSchemaCache c; subjectSchemaCache := subjectSchemaCache c;
     sem := sem c |}.

Definition with_cacheLatest (b : bool) (c : SchemaRegistryClient) :=
  {| schemaRegistryURL := schemaRegistryURL c; credsLock := credsLock c; creds := creds c;
     httpClient_Timeout := httpClient_Timeout c; cachingEnabled := cachingEnabled c;
     cacheLatest := b; codecCreationEnabled := codecCreationEnabled c;
     idSchemaCache := idSchemaCache c; subjectSchemaCache := subjectSchemaCache c;
     sem := sem c |}.

Definition with_codecCreationEnabled (b : bool) (c : SchemaRegistryClient) :=
  {| schemaRegistryURL := schemaRegistryURL c; credsLock := credsLock c; creds := creds c;
     httpClient_Timeout := httpClient_Timeout c; cachingEnabled := cachingEnabled c;
     cacheLatest := cacheLatest c; codecCreationEnabled := b;
     idSchemaCache := idSchemaCache c; subjectSchemaCache := subjectSchemaCache c;
     sem := sem c |}.

Definition with_idSchemaCache (m : gmap Z Schema) (c : SchemaRegistryClient) :=
  {| schemaRegistryURL := schemaRegistryURL c; credsLock := credsLock c; creds := creds c;
     httpClient_Timeout := httpClient_Timeout c; cachingEnabled := cachingEnabled c;
     cacheLatest := cacheLatest c; codecCreationEnabled := codecCreationEnabled c;
     idSchemaCache := m; subjectSchemaCache := subjectSchemaCache c;
     sem := sem c |}.

Definition with_subjectSchemaCache (m : gmap string Schema) (c : SchemaRegistryClient) :=
  {| schemaRegistryURL := schemaRegistryURL c; credsLock := credsLock c; creds := creds c;
     httpClient_Timeout := httpClient_Timeout c; cachingEnabled := cachingEnabled c;
     cacheLatest := cacheLatest c; codecCreationEnabled := codecCreationEnabled c;
     idSchemaCache := idSchemaCache c; subjectSchemaCache := m;
     sem := sem c |}.

Definition with_sem (w : Weighted) (c : SchemaRegistryClient) :=
  {| schemaRegistryURL := schemaRegistryURL c; credsLock := credsLock c; creds := creds c;
     httpClient_Timeout := httpClient_Timeout c; cachingEnabled := cachingEnabled c;
     cacheLatest := cacheLatest c; codecCreationEnabled := codecCreationEnabled c;
     idSchemaCache := idSchemaCache c; subjectSchemaCache := subjectSchemaCache c;
     sem := w |}.

(** [CreateSchemaRegistryClientWithOptions]; of the [*http.Client] only
    the timeout is the client's to change. *)
Definition CreateSchemaRegistryClientWithOptions (schemaRegistryURL : string)
    (timeout : Z) (semaphoreWeight : Z) : SchemaRegistryClient :=
  {| schemaRegistryURL := schemaRegistryURL;
     credsLock := {| readers := 0 |};
     creds := None;
     httpClient_Timeout := timeout;
     cachingEnabled := true;
     cacheLatest := false;
     codecCreationEnabled := false;
     idSchemaCache := ∅;
     subjectSchemaCache := ∅;
     sem := {| size := semaphoreWeight; cur := 0 |} |}.

(** [time.Second], in nanoseconds. *)
Definition Second : Z := 1000000000.

(** [CreateSchemaRegistryClient] *)
Definition CreateSchemaRegistryClient (schemaRegistryURL : string) : SchemaRegistryClient :=
  CreateSchemaRegistryClientWithOptions schemaRegistryURL (5 * Second) 16.

(** ** Sequential runs of the client

    A run threads the client, the outside world and, as a record of what
    left the process, the requests handed to [http.Client.Do] with what
    came back, oldest first. *)

Record Exchange := { sent : Request Context; got : result Response }.

Record State := {
  client : SchemaRegistryClient;
  world : World;
  wire : list Exchange }.

Definition Go (A : Type) : Type := Run State A.

Definition getClient : Go SchemaRegistryClient := fun st => (Returns (client st), st).

Definition setClient (f : SchemaRegistryClient -> SchemaRegistryClient) : Go unit :=
  fun st => (Returns tt, {| client := f (client st); world := world st; wire := wire st |}).

(** *** Locks and the concurrency gate *)

Definition credsLock_RLock : Go unit :=
  setClient (fun c => with_credsLock {| readers := S (readers (credsLock c)) |} c).

Definition credsLock_RUnlock : Go unit :=
  do! c ← getClient;
  match readers (credsLock c) with
  | S n => setClient (with_credsLock {| readers := n |})
  | O => panic
  end.

(** [Lock] waits until no read lock is held. *)
Definition credsLock_Lock : Go unit :=
  do! c ← getClient;
  match readers (credsLock c) with
  | O => ret tt
  | S _ => block
  end.

Definition credsLock_Unlock : Go unit := ret tt.

(** [client.sem.Acquire(context.Background(), n)]: the background
    context is never done, so the call returns only with the units. *)
Definition sem_Acquire (n : Z) : Go unit :=
  do! c ← getClient;
  if decide (n <= size (sem c) - cur (sem c))
  then setClient (with_sem {| size := size (sem c); cur := cur (sem c) + n |})
  else block.

(** [client.sem.Release(n)] *)
Definition sem_Release (n : Z) : Go unit :=
  do! c ← getClient;
  if decide (0 <= cur (sem c) - n)
  then setClient (with_sem {| size := size (sem c); cur := cur (sem c) - n |})
  else panic.

(** *** The dispatcher *)

Definition httpClient_Do (req : Request Context) : Go (result Response) :=
  fun st =>
    let '(r, w) := Do (httpClient_Timeout (client st)) req (world st) in
    (Returns r, {| client := client st; world := w;
                   wire := wire st ++ [{| sent := req; got := r |}] |}).

Definition bearerToken_ObtainToken (p : Provider) (ctx : Context) : Go (result string) :=
  fun st =>
    let '(r, w) := ObtainToken p ctx (world st) in
    (Returns r, {| client := client st; world := w; wire := wire st |}).

(** [func createError(resp *http.Response) error] *)
Definition createError (resp : Response) : error :=
  match Decode_Error (Body resp) with
  | None => Errorf (Status resp)
  | Some (code, message) =>
      RegistryError {| Code := code; Message := message; str := Decode_read (Body resp) |}
  end.

(** [func (client *SchemaRegistryClient) httpRequest] *)
Definition httpRequest (ctx : Context) (method uri : string) (payload : option string)
    : Go (result string) :=
  do! c ← getClient;
  let url := schemaRegistryURL c +:+ uri in
  try! req ← ret (NewRequestWithContext ctx method url payload);
  credsLock_RLock;;
  do! c ← getClient;
  try! req ←
    match creds c with
    | Some cr =>
        if bool_decide (0 < String.length (username cr))%nat
           && bool_decide (0 < String.length (password cr))%nat
        then ret (Ok (SetBasicAuth (username cr) (password cr) req))
        else
          match bearerToken cr with
          | Some provider =>
              try! token ← bearerToken_ObtainToken provider ctx;
              ret (Ok (withHeader (Header_Add "Authorization" ("Bearer " +:+ token)) req))
          | None => ret (Ok req)
          end
    | None => ret (Ok req)
    end;
  credsLock_RUnlock;;
  let req := withHeader (Header_Set "Content-Type" contentType) req in
  sem_Acquire 1;;
  do! r ← (try! resp ← httpClient_Do req;
       if bool_decide (StatusCode resp < 200) || bool_decide (StatusCode resp > 299)
       then ret (Err (createError resp))
       else ret (ReadAll (Body resp)));
  sem_Release 1;;
  ret r.

(** *** Flags *)

Definition getCachingEnabled : Go bool := do! c ← getClient; ret (cachingEnabled c).
Definition getCacheLatest : Go bool := do! c ← getClient; ret (cacheLatest c).
Definition getCodecCreationEnabled : Go bool := do! c ← getClient; ret (codecCreationEnabled c).

(** [func (client *SchemaRegistryClient) CachingEnabled(value bool)] *)
Definition CachingEnabled (value : bool) : Go unit := setClient (with_cachingEnabled value).

(** [func (client *SchemaRegistryClient) CacheLatest(value bool)] *)
Definition CacheLatest (value : bool) : Go unit := setClient (with_cacheLatest value).

(** [func (client *SchemaRegistryClient) CodecCreationEnabled(value bool)] *)
Definition CodecCreationEnabled (value : bool) : Go unit :=
  setClient (with_codecCreationEnabled value).

(** [func (client *SchemaRegistryClient) SetTimeout(timeout time.Duration)] *)
Definition SetTimeout (timeout : Z) : Go unit := setClient (with_Timeout timeout).

(** [func (client *SchemaRegistryClient) ResetCache()] *)
Definition ResetCache : Go unit :=
  setClient (with_idSchemaCache ∅);;
  setClient (with_subjectSchemaCache ∅).

(** *** Credentials *)

(** [func (client *SchemaRegistryClient) SetCredentials] *)
Definition SetCredentials (username password : string) : Go unit :=
  credsLock_Lock;;
  (if bool_decide (0 < String.length username)%nat
      && bool_decide (0 < String.length password)%nat
   then setClient (with_creds (Some {| username := username; password := password;
                                       bearerToken := None |}))
   else ret tt);;
  credsLock_Unlock.

(** [func (client *SchemaRegistryClient) SetBearerToken] *)
Definition SetBearerToken (token : option Provider) : Go unit :=
  credsLock_Lock;;
  match token with
  | Some _ =>
      setClient (with_creds (Some {| username := ""; password := ""; bearerToken := token |}))
  | None => ret tt
  end;;
  credsLock_Unlock.

(** *** Schemas by id *)

(** The codec a fetched schema is given: compiled when codec creation is
    on, [nil] otherwise. *)
Definition codecFor (enabled : bool) (text : string) : result (option Codec) :=
  if enabled
  then match NewCodec text with
       | Ok codec => Ok (Some codec)
       | Err e => Err e
       end
  else Ok None.

(** [func (client *SchemaRegistryClient) GetSchema] *)
Definition GetSchema (ctx : Context) (schemaID : Z) : Go (result Schema) :=
  do! enabled ← getCachingEnabled;
  do! c ← getClient;
  match (if enabled then idSchemaCache c !! schemaID else None) with
  | Some cachedSchema => ret (Ok cachedSchema)
  | None =>
      try! resp ← httpRequest ctx "GET" (schemaByID schemaID) None;
      try! decoded ← ret (Unmarshal_schemaResponse resp);
      match decoded with
      | None => panic
      | Some schemaResp =>
          do! withCodec ← getCodecCreationEnabled;
          try! codec ← ret (codecFor withCodec (resp_Schema schemaResp));
          let schema :=
            {| s_id := schemaID;
               s_schema := resp_Schema schemaResp;
               s_schemaType := resp_SchemaType schemaResp;
               s_version := resp_Version schemaResp;
               s_references := resp_References schemaResp;
               s_codec := codec;
               s_jsonSchema := None |} in
          do! enabled ← getCachingEnabled;
          (if enabled
           then setClient (fun c => with_idSchemaCache (<[schemaID := schema]> (idSchemaCache c)) c)
           else ret tt);;
          ret (Ok schema)
      end
  end.

(** *** Schemas by subject and version *)

(** The test [version != "latest" || (version == "latest" && client.getCacheLatest())] *)
Definition cacheable (version : string) (latest : bool) : bool :=
  negb (bool_decide (version = "latest")) || (bool_decide (version = "latest") && latest).

(** [func (client *SchemaRegistryClient) getVersion] *)
Definition getVersion (ctx : Context) (subject version : string) : Go (result Schema) :=
  do! enabled ← getCachingEnabled;
  do! c ← getClient;
  match (if enabled && cacheable version (cacheLatest c)
         then subjectSchemaCache c !! cacheKey subject version else None) with
  | Some cachedResult => ret (Ok cachedResult)
  | None =>
      try! resp ← httpRequest ctx "GET" (subjectByVersion (QueryEscape subject) version) None;
      try! decoded ← ret (Unmarshal_schemaResponse resp);
      match decoded with
      | None => panic
      | Some schemaResp =>
          do! withCodec ← getCodecCreationEnabled;
          try! codec ← ret (codecFor withCodec (resp_Schema schemaResp));
          let schema :=
            {| s_id := resp_ID schemaResp;
               s_schema := resp_Schema schemaResp;
               s_schemaType := resp_SchemaType schemaResp;
               s_version := resp_Version schemaResp;
               s_references := resp_References schemaResp;
               s_codec := codec;
               s_jsonSchema := None |} in
          do! enabled ← getCachingEnabled;
          (if enabled
           then
             do! latest ← getCacheLatest;
             (if cacheable version latest
              then setClient (fun c => with_subjectSchemaCache
                     (<[cacheKey subject version := schema]> (subjectSchemaCache c)) c)
              else ret tt);;
             setClient (fun c => with_idSchemaCache (<[s_id schema := schema]> (idSchemaCache c)) c)
           else ret tt);;
          ret (Ok schema)
      end
  end.

(** [func (client *SchemaRegistryClient) GetLatestSchema] *)
Definition GetLatestSchema (ctx : Context) (subject : string) : Go (result Schema) :=
  getVersion ctx subject "latest".

(** [func (client *SchemaRegistryClient) GetSchemaByVersion] *)
Definition GetSchemaByVersion (ctx : Context) (subject : string) (version : Z)
    : Go (result Schema) :=
  getVersion ctx subject (Itoa version).

(** [func (client *SchemaRegistryClient) GetSchemaVersions] *)
Definition GetSchemaVersions (ctx : Context) (subject : string) : Go (result (list Z)) :=
  try! resp ← httpRequest ctx "GET" (subjectVersions (QueryEscape subject)) None;
  ret (Unmarshal_ints resp).

(** *** Compatibility levels and subjects *)

(** [func (client *SchemaRegistryClient) ChangeSubjectCompatibilityLevel] *)
Definition ChangeSubjectCompatibilityLevel (ctx : Context) (subject : string)
    (compatibility : CompatibilityLevel) : Go (result CompatibilityLevel) :=
  let payload := Marshal_configChangeRequest compatibility in
  try! resp ← httpRequest ctx "PUT" (configBySubject (QueryEscape subject)) (Some payload);
  try! decoded ← ret (Unmarshal_configChangeResponse resp);
  match decoded with
  | None => panic
  | Some level => ret (Ok level)
  end.

(** [func (client *SchemaRegistryClient) GetGlobalCompatibilityLevel] *)
Definition GetGlobalCompatibilityLevel (ctx : Context) : Go (result CompatibilityLevel) :=
  try! resp ← httpRequest ctx "GET" config None;
  try! decoded ← ret (Unmarshal_configResponse resp);
  match decoded with
  | None => panic
  | Some level => ret (Ok level)
  end.

(** [func (client *SchemaRegistryClient) GetCompatibilityLevel] *)
Definition GetCompatibilityLevel (ctx : Context) (subject : string) (defaultToGlobal : bool)
    : Go (result CompatibilityLevel) :=
  try! resp ← httpRequest ctx "GET"
    (configBySubject (QueryEscape subject) +:+ "?defaultToGlobal=" +:+ FormatBool defaultToGlobal)
    None;
  try! decoded ← ret (Unmarshal_configResponse resp);
  match decoded with
  | None => panic
  | Some level => ret (Ok level)
  end.

(** [func (client *SchemaRegistryClient) GetSubjects] *)
Definition GetSubjects (ctx : Context) : Go (result (list string)) :=
  try! resp ← httpRequest ctx "GET" subjects None;
  ret (Unmarshal_strings resp).

(** [func (client *SchemaRegistryClient) GetSubjectsIncludingDeleted] *)
Definition GetSubjectsIncludingDeleted (ctx : Context) : Go (result (list string)) :=
  try! resp ← httpRequest ctx "GET" (subjects +:+ "?deleted=true") None;
  ret (Unmarshal_strings resp).

(** *** Registering and looking up *)

(** The [switch schemaType] that opens [CreateSchema] and [LookupSchema],
    with the schema text it leaves in [schema]. *)
Definition switchSchemaType (schemaType : SchemaType) (schema : string) : result string :=
  if bool_decide (schemaType = Avro) || bool_decide (schemaType = Json)
  then Ok (ReplaceAllString compiledRegex schema " ")
  else if bool_decide (schemaType = Protobuf)
  then Ok schema
  else Err (Errorf "invalid schema type. valid values are Avro, Json, or Protobuf").

(** The two cache writes that close [CreateSchema] and [LookupSchema]. *)
Definition updateCaches (subject : string) (schema : Schema) : Go unit :=
  do! enabled ← getCachingEnabled;
  if enabled
  then
    setClient (fun c => with_subjectSchemaCache
      (<[cacheKey subject (Itoa (s_version schema)) := schema]> (subjectSchemaCache c)) c);;
    setClient (fun c => with_idSchemaCache (<[s_id schema := schema]> (idSchemaCache c)) c)
  else ret tt.

(** [func (client *SchemaRegistryClient) CreateSchema].  A [nil] slice of
    references and the empty one the code puts for it are the same list. *)
Definition CreateSchema (ctx : Context) (subject schema : string) (schemaType : SchemaType)
    (references : list Reference) : Go (result Schema) :=
  try! schema ← ret (switchSchemaType schemaType schema);
  let schemaReq := {| req_Schema := schema; req_SchemaType := SchemaType_String schemaType;
                      req_References := references |} in
  let payload := Marshal_schemaRequest schemaReq in
  try! resp ← httpRequest ctx "POST" (subjectVersions (QueryEscape subject)) (Some payload);
  try! decoded ← ret (Unmarshal_schemaResponse resp);
  match decoded with
  | None => panic
  | Some schemaResp =>
      try! newSchema ← GetSchema ctx (resp_ID schemaResp);
      updateCaches subject newSchema;;
      ret (Ok newSchema)
  end.

(** [func (client *SchemaRegistryClient) LookupSchema] *)
Definition LookupSchema (ctx : Context) (subject schema : string) (schemaType : SchemaType)
    (references : list Reference) : Go (result Schema) :=
  try! schema ← ret (switchSchemaType schemaType schema);
  let schemaReq := {| req_Schema := schema; req_SchemaType := SchemaType_String schemaType;
                      req_References := references |} in
  let payload := Marshal_schemaRequest schemaReq in
  try! resp ← httpRequest ctx "POST" (subjectBySubject (QueryEscape subject)) (Some payload);
  try! decoded ← ret (Unmarshal_schemaResponse resp);
  match decoded with
  | None => panic
  | Some schemaResp =>
      do! withCodec ← getCodecCreationEnabled;
      try! codec ← ret (codecFor (withCodec && bool_decide (schemaType = Avro))
                                 (resp_Schema schemaResp));
      let gotSchema :=
        {| s_id := resp_ID schemaResp;
           s_schema := resp_Schema schemaResp;
           s_schemaType := resp_SchemaType schemaResp;
           s_version := resp_Version schemaResp;
           s_references := resp_References schemaResp;
           s_codec := codec;
           s_jsonSchema := None |} in
      updateCaches subject gotSchema;;
      ret (Ok gotSchema)
  end.

(** [func (client *SchemaRegistryClient) IsSchemaCompatible] *)
Definition IsSchemaCompatible (ctx : Context) (subject schema version : string)
    (schemaType : SchemaType) (references : list Reference) : Go (result bool) :=
  let schemaReq := {| req_Schema := schema; req_SchemaType := SchemaType_String schemaType;
                      req_References := references |} in
  let payload := Marshal_schemaRequest schemaReq in
  let url := "/compatibility/subjects/" +:+ subject +:+ "/versions/" +:+ version in
  try! resp ← httpRequest ctx "POST" url (Some payload);
  ret (Unmarshal_isCompatibleResponse resp).

(** *** Deleting *)

(** The [error] of a result, [None] for [nil]. *)
Definition errorOf {A} (r : result A) : option error :=
  match r with
  | Ok _ => None
  | Err e => Some e
  end.

(** [func (client *SchemaRegistryClient) DeleteSubject] *)
Definition DeleteSubject (ctx : Context) (subject : string) (permanent : bool)
    : Go (option error) :=
  let uri := "/subjects/" +:+ subject in
  do! r ← httpRequest ctx "DELETE" uri None;
  let err := errorOf r in
  if bool_decide (err ≠ None) || negb permanent
  then ret err
  else
    let uri := uri +:+ "?permanent=true" in
    do! r ← httpRequest ctx "DELETE" uri None;
    ret (errorOf r).

(** [func (client *SchemaRegistryClient) DeleteSubjectByVersion] *)
Definition DeleteSubjectByVersion (ctx : Context) (subject : string) (version : Z)
    (permanent : bool) : Go (option error) :=
  let uri := subjectByVersion subject (Itoa version) in
  do! r ← httpRequest ctx "DELETE" uri None;
  let err := errorOf r in
  if bool_decide (err ≠ None) || negb permanent
  then ret err
  else
    let uri := uri +:+ "?permanent=true" in
    do! r ← httpRequest ctx "DELETE" uri None;
    ret (errorOf r).

(** ** The interface, as data

    One constructor for each method of [ISchemaRegistryClient] and for
    [CacheLatest], so that a caller's run of the client is a list. *)

Inductive Call : Type :=
| CallGetGlobalCompatibilityLevel (ctx : Context)
| CallGetCompatibilityLevel (ctx : Context) (subject : string) (defaultToGlobal : bool)
| CallGetSubjects (ctx : Context)
| CallGetSubjectsIncludingDeleted (ctx : Context)
| CallGetSchema (ctx : Context) (schemaID : Z)
| CallGetLatestSchema (ctx : Context) (subject : string)
| CallGetSchemaVersions (ctx : Context) (subject : string)
| CallGetSchemaByVersion (ctx : Context) (subject : string) (version : Z)
| CallCreateSchema (ctx : Context) (subject schema : string) (schemaType : SchemaType)
    (references : list Reference)
| CallLookupSchema (ctx : Context) (subject schema : string) (schemaType : SchemaType)
    (references : list Reference)
| CallChangeSubjectCompatibilityLevel (ctx : Context) (subject : string)
    (compatibility : CompatibilityLevel)
| CallDeleteSubject (ctx : Context) (subject : string) (permanent : bool)
| CallDeleteSubjectByVersion (ctx : Context) (subject : string) (version : Z) (permanent : bool)
| CallSetCredentials (username password : string)
| CallSetBearerToken (token : option Provider)
| CallSetTimeout (timeout : Z)
| CallCachingEnabled (value : bool)
| CallCacheLatest (value : bool)
| CallResetCache
| CallCodecCreationEnabled (value : bool)
| CallIsSchemaCompatible (ctx : Context) (subject schema version : string)
    (schemaType : SchemaType) (references : list Reference).

(** A call of the interface, with the error it returns ([None] for [nil]
    and for the methods that return nothing). *)
Definition perform (op : Call) : Go (option error) :=
  match op with
  | CallGetGlobalCompatibilityLevel ctx =>
      do! r ← GetGlobalCompatibilityLevel ctx; ret (errorOf r)
  | CallGetCompatibilityLevel ctx subject d =>
      do! r ← GetCompatibilityLevel ctx subject d; ret (errorOf r)
  | CallGetSubjects ctx => do! r ← GetSubjects ctx; ret (errorOf r)
  | CallGetSubjectsIncludingDeleted ctx =>
      do! r ← GetSubjectsIncludingDeleted ctx; ret (errorOf r)
  | CallGetSchema ctx schemaID => do! r ← GetSchema ctx schemaID; ret (errorOf r)
  | CallGetLatestSchema ctx subject => do! r ← GetLatestSchema ctx subject; ret (errorOf r)
  | CallGetSchemaVersions ctx subject => do! r ← GetSchemaVersions ctx subject; ret (errorOf r)
  | CallGetSchemaByVersion ctx subject version =>
      do! r ← GetSchemaByVersion ctx subject version; ret (errorOf r)
  | CallCreateSchema ctx subject schema t refs =>
      do! r ← CreateSchema ctx subject schema t refs; ret (errorOf r)
  | CallLookupSchema ctx subject schema t refs =>
      do! r ← LookupSchema ctx subject schema t refs; ret (errorOf r)
  | CallChangeSubjectCompatibilityLevel ctx subject l =>
      do! r ← ChangeSubjectCompatibilityLevel ctx subject l; ret (errorOf r)
  | CallDeleteSubject ctx subject p => DeleteSubject ctx subject p
  | CallDeleteSubjectByVersion ctx subject v p => DeleteSubjectByVersion ctx subject v p
  | CallSetCredentials u p => SetCredentials u p;; ret None
  | CallSetBearerToken token => SetBearerToken token;; ret None
  | CallSetTimeout timeout => SetTimeout timeout;; ret None
  | CallCachingEnabled value => CachingEnabled value;; ret None
  | CallCacheLatest value => CacheLatest value;; ret None
  | CallResetCache => ResetCache;; ret None
  | CallCodecCreationEnabled value => CodecCreationEnabled value;; ret None
  | CallIsSchemaCompatible ctx subject schema v t refs =>
      do! r ← IsSchemaCompatible ctx subject schema v t refs; ret (errorOf r)
  end.

(** The calls of a list, one after the other. *)
Fixpoint calls (ops : list Call) : Go unit :=
  match ops with
  | [] => ret tt
  | op :: rest => perform op;; calls rest
  end.

(** ** The dispatcher in closed form

    What [httpRequest] does, read off its text: the three stages below
    and how they combine. *)

(** The [Authorization] header the credentials slot gives a request. *)
Definition resolveAuth (cr : option credentials) (ctx : Context) (req : Request Context)
    (w : World) : result (Request Context) * World :=
  match cr with
  | Some cr =>
      if bool_decide (0 < String.length (username cr))%nat
         && bool_decide (0 < String.length (password cr))%nat
      then (Ok (SetBasicAuth (username cr) (password cr) req), w)
      else
        match bearerToken cr with
        | Some provider =>
            match ObtainToken provider ctx w with
            | (Ok token, w') =>
                (Ok (withHeader (Header_Add "Authorization" ("Bearer " +:+ token)) req), w')
            | (Err e, w') => (Err e, w')
            end
        | None => (Ok req, w)
        end
  | None => (Ok req, w)
  end.

(** What the caller gets for what [Do] gave. *)
Definition conclude (r : result Response) : result string :=
  match r with
  | Err e => Err e
  | Ok resp =>
      if bool_decide (StatusCode resp < 200) || bool_decide (StatusCode resp > 299)
      then Err (createError resp)
      else ReadAll (Body resp)
  end.

Definition httpRequest_closed (ctx : Context) (method uri : string) (payload : option string)
    (st : State) : Outcome (result string) * State :=
  let c := client st in
  match NewRequestWithContext ctx method (schemaRegistryURL c +:+ uri) payload with
  | Err e => (Returns (Err e), st)
  | Ok req =>
      match resolveAuth (creds c) ctx req (world st) with
      | (Err e, w) =>
          (Returns (Err e),
           {| client := with_credsLock {| readers := S (readers (credsLock c)) |} c;
              world := w; wire := wire st |})
      | (Ok req, w) =>
          let req := withHeader (Header_Set "Content-Type" contentType) req in
          if decide (1 <= size (sem c) - cur (sem c))
          then
            let '(r, w') := Do (httpClient_Timeout c) req w in
            let x := {| sent := req; got := r |} in
            if decide (0 <= cur (sem c))
            then (Returns (conclude r), {| client := c; world := w'; wire := wire st ++ [x] |})
            else (Panics,
                  {| client := with_sem {| size := size (sem c); cur := cur (sem c) + 1 |} c;
                     world := w'; wire := wire st ++ [x] |})
          else (Blocks, {| client := c; world := w; wire := wire st |})
      end
  end.

End Client.

(** ** Notions the properties are stated with *)

Section Notions.
Context `{RT : Runtime}.

(** Two clients that differ at most in the credentials slot. *)
Definition agreeOffCredentials (c c' : SchemaRegistryClient) : Prop :=
  schemaRegistryURL c' = schemaRegistryURL c /\
  credsLock c' = credsLock c /\
  httpClient_Timeout c' = httpClient_Timeout c /\
  cachingEnabled c' = cachingEnabled c /\
  cacheLatest c' = cacheLatest c /\
  codecCreationEnabled c' = codecCreationEnabled c /\
  idSchemaCache c' = idSchemaCache c /\
  subjectSchemaCache c' = subjectSchemaCache c /\
  sem c' = sem c.

(** [m] takes every state to one related to it by [R], however it ends. *)
Definition preserves {A} (R : State -> State -> Prop) (m : Go A) : Prop :=
  forall st, R st (snd (m st)).

(** The calls that write the credentials slot. *)
Definition touchesCredentials (op : Call) : bool :=
  match op with
  | CallSetCredentials _ _ | CallSetBearerToken _ => true
  | _ => false
  end.

(** The values of the [Authorization] header of the request of an
    exchange. *)
Definition authorization (x : Exchange) : list string :=
  default [] (Hdr (sent x) !! "Authorization").

Definition bearerOnly (x : Exchange) : Prop :=
  exists token, authorization x = ["Bearer " +:+ token].

Definition basicOnly (username password : string) (x : Exchange) : Prop :=
  authorization x = ["Basic " +:+ base64 (username +:+ ":" +:+ password)].

Definition noBasic (x : Exchange) : Prop :=
  forall v, v ∈ authorization x -> String.prefix "Basic " v = false.

Definition noBearer (x : Exchange) : Prop :=
  forall v, v ∈ authorization x -> String.prefix "Bearer " v = false.

(** The credentials slot holds a pair: user name and password, no provider. *)
Definition holdsBasic (cr : credentials) : bool :=
  bool_decide (0 < String.length (username cr))%nat
  && bool_decide (0 < String.length (password cr))%nat.

(** The [Authorization] header the slot stands for. *)
Definition authorizedBy (cr : option credentials) (x : Exchange) : Prop :=
  match cr with
  | Some cr =>
      if holdsBasic cr then basicOnly (username cr) (password cr) x
      else match bearerToken cr with
           | Some _ => bearerOnly x
           | None => authorization x = []
           end
  | None => authorization x = []
  end.

(** [st'] comes after [st] under unchanged credentials: the wire has
    grown, by exchanges authorized as the slot says. *)
Definition continues (st st' : State) : Prop :=
  creds (client st') = creds (client st) /\
  exists new, wire st' = wire st ++ new /\
              Forall (authorizedBy (creds (client st))) new.

(** At most one form of credentials in the slot. *)
Definition oneForm (cr : option credentials) : Prop :=
  match cr with
  | Some cr =>
      (holdsBasic cr = true /\ bearerToken cr = None) \/
      (username cr = "" /\ password cr = "" /\ bearerToken cr <> None)
  | None => True
  end.

(** A status outside 2xx. *)
Definition badStatus (resp : Response) : Prop :=
  StatusCode resp < 200 \/ StatusCode resp > 299.

(** [m] sends nothing and leaves the gate as it is. *)
Definition quiet {A} (m : Go A) : Prop :=
  forall st, wire (snd (m st)) = wire st /\ sem (client (snd (m st))) = sem (client st).

(** [m] hands a registry error on: from a state whose gate holds no
    negative count, a response outside 2xx is the last thing on the
    wire, and [m] returns with the error [createError] makes of it
    ([err] reads the error off what [m] returns). *)
Definition propagates {A} (err : A -> option error) (m : Go A) : Prop :=
  forall st, 0 <= cur (sem (client st)) ->
    (forall a, fst (m st) = Returns a -> 0 <= cur (sem (client (snd (m st))))) /\
    exists new, wire (snd (m st)) = wire st ++ new /\
      forall i x resp, new !! i = Some x -> got x = Ok resp -> badStatus resp ->
        S i = length new /\
        exists a, fst (m st) = Returns a /\ err a = Some (createError resp).

(** The gate has a unit to give, and holds no negative count. *)
Definition gateFree (c : SchemaRegistryClient) : Prop :=
  0 <= cur (sem c) /\ 1 <= size (sem c) - cur (sem c).

(** The token provider, when the slot holds one that is used, answers
    with a token in every world. *)
Definition tokenAnswers (c : SchemaRegistryClient) (ctx : Context) : Prop :=
  match creds c with
  | Some cr =>
      if holdsBasic cr then True
      else match bearerToken cr with
           | Some provider => forall w, is_Ok (fst (ObtainToken provider ctx w)) = true
           | None => True
           end
  | None => True
  end.

(** Nothing keeps a request of [c] for [uri] from the transport: it can
    be built, it can be authorized, and the gate lets it through. *)
Definition sends (c : SchemaRegistryClient) (ctx : Context) (method uri : string) : Prop :=
  NewRequestError ctx method (schemaRegistryURL c +:+ uri) = None /\
  tokenAnswers c ctx /\
  gateFree c.

(** The request of [x] is the one [httpRequest] builds from its arguments. *)
Definition carries (x : Exchange) (c : SchemaRegistryClient) (ctx : Context)
    (method uri : string) (payload : option string) : Prop :=
  Ctx (sent x) = ctx /\
  Method (sent x) = method /\
  URL (sent x) = schemaRegistryURL c +:+ uri /\
  Payload (sent x) = payload.

(** From [st] to [st'] exactly one request has been sent, a GET on [uri]. *)
Definition fetchedOnce (st st' : State) (ctx : Context) (uri : string) : Prop :=
  exists x, wire st' = wire st ++ [x] /\ carries x (client st) ctx "GET" uri None.

(** A client with what it has cached forgotten: two clients with the
    same image differ at most in their caches. *)
Definition forgetCaches (c : SchemaRegistryClient) : SchemaRegistryClient :=
  with_idSchemaCache ∅ (with_subjectSchemaCache ∅ c).

(** What a delete on [uri] does, seen from outside: a first DELETE on
    [uri]; when [permanent] is set and the first has no error, a second
    one on [uri?permanent=true], whose error is the call's; otherwise
    nothing more, and the first's error is the call's. *)
Definition deletes (run : Outcome (option error) * State) (st : State) (ctx : Context)
    (uri : string) (permanent : bool) : Prop :=
  exists x1, carries x1 (client st) ctx "DELETE" uri None /\
    if permanent && is_Ok (conclude (got x1))
    then exists x2,
           carries x2 (client st) ctx "DELETE" (uri +:+ "?permanent=true") None /\
           wire (snd run) = wire st ++ [x1; x2] /\
           fst run = Returns (errorOf (conclude (got x2)))
    else wire (snd run) = wire st ++ [x1] /\
         fst run = Returns (errorOf (conclude (got x1))).

(** The schema text that goes out for a type: the text itself for
    Protobuf, the text with its line breaks replaced otherwise. *)
Definition textToSend (schemaType : SchemaType) (text : string) : string :=
  if bool_decide (schemaType = Protobuf) then text else replaceLineBreaks text.

(** The body of the POST that registers or looks up [text]. *)
Definition schemaPayload (schemaType : SchemaType) (text : string)
    (references : list Reference) : option string :=
  Some (Marshal_schemaRequest
          {| req_Schema := textToSend schemaType text;
             req_SchemaType := SchemaType_String schemaType;
             req_References := references |}).

(** The error of the [default] branch of the type switch. *)
Definition invalidSchemaType : error :=
  Errorf "invalid schema type. valid values are Avro, Json, or Protobuf".

End Notions.

(** ** A runtime to run the client against

    A scripted registry: the world is the list of replies the transport
    hands out, in order; a context is its being cancelled; a token
    provider is the answer it gives.  Transport and provider give up on
    a cancelled context. *)

Module Demo.

Definition quoted (s : string) : string :=
  String (ascii_of_nat 34) (s +:+ String (ascii_of_nat 34) EmptyString).

(** The body [{"error_code":42201,"message":"Invalid schema"}]. *)
Definition invalidSchemaBody : string :=
  "{" +:+ quoted "error_code" +:+ ":42201," +:+ quoted "message" +:+ ":"
      +:+ quoted "Invalid schema" +:+ "}".

(** The body [{"subject":"LongList","version":1,"id":7,"schema":"long"}]. *)
Definition longListBody : string :=
  "{" +:+ quoted "subject" +:+ ":" +:+ quoted "LongList" +:+ ","
      +:+ quoted "version" +:+ ":1," +:+ quoted "id" +:+ ":7,"
      +:+ quoted "schema" +:+ ":" +:+ quoted "long" +:+ "}".

Definition longList : schemaResponse :=
  {| resp_Subject := "LongList"; resp_Version := 1; resp_Schema := "long";
     resp_SchemaType := None; resp_ID := 7; resp_References := [] |}.

Definition syntaxError {A} : result A := Err (Foreign "invalid character").
Definition canceled : error := Foreign "context canceled".

Definition ok (body : string) : result Response :=
  Ok {| Status := "200 OK"; StatusCode := 200;
        Body := {| bytes := body; fault := None |} |}.

Definition unprocessable (body : string) : result Response :=
  Ok {| Status := "422 Unprocessable Entity"; StatusCode := 422;
        Body := {| bytes := body; fault := None |} |}.

#[export] Instance runtime : Runtime := {|
  World := list (result Response);
  Context := bool;
  Done := fun ctx _ => ctx;
  Provider := result string;
  Codec := string;
  JsonSchema := string;
  ObtainToken := fun p ctx w => (if ctx then Err canceled else p, w);
  NewRequestError := fun _ _ _ => None;
  Do := fun _ req w =>
    if Ctx req then (Err canceled, w)
    else match w with
         | r :: w' => (r, w')
         | [] => (Err (Foreign "connection refused"), [])
         end;
  base64 := fun s => s;
  QueryEscape := fun s => s;
  NewCodec := fun text => Ok text;
  Marshal_schemaRequest := fun r => req_Schema r;
  Marshal_configChangeRequest := fun l => l;
  Unmarshal_schemaResponse := fun body =>
    if bool_decide (body = "null") then Ok None
    else if bool_decide (body = longListBody) then Ok (Some longList)
    else syntaxError;
  Unmarshal_configResponse := fun body =>
    if bool_decide (body = "null") then Ok None else syntaxError;
  Unmarshal_configChangeResponse := fun body =>
    if bool_decide (body = "null") then Ok None else syntaxError;
  Unmarshal_ints := fun body =>
    if bool_decide (body = "[]") then Ok [] else syntaxError;
  Unmarshal_strings := fun body =>
    if bool_decide (body = "[]") then Ok [] else syntaxError;
  Unmarshal_isCompatibleResponse := fun body =>
    if bool_decide (body = "{}") then Ok false else syntaxError;
  Decode_Error := fun body =>
    if bool_decide (bytes body = invalidSchemaBody) then Some (42201, "Invalid schema")
    else None;
  Decode_read := bytes |}.

Definition background : Context := false.

Definition start (c : SchemaRegistryClient) (replies : list (result Response)) : State :=
  {| client := c; world := replies; wire := [] |}.

Definition fresh : SchemaRegistryClient := CreateSchemaRegistryClient "http://registry".

(** A client with a gate of one unit, held by another call in flight. *)
Definition busy : SchemaRegistryClient :=
  with_sem {| size := 1; cur := 1 |}
    (CreateSchemaRegistryClientWithOptions "http://registry" (5 * Second) 1).

(** The schema the registry's [longListBody] decodes to, fetched by id 7. *)
Definition longListSchema : Schema :=
  {| s_id := 7; s_schema := "long"; s_schemaType := None; s_version := 1;
     s_references := []; s_codec := None; s_jsonSchema := None |}.

(** The registry has one answer ready, the LongList schema. *)
Definition served : State := start fresh [ok longListBody].

(** The same with two answers ready. *)
Definition servedTwice : State := start fresh [ok longListBody; ok longListBody].

(** Caching switched off, two answers ready. *)
Definition uncached : State :=
  start (with_cachingEnabled false fresh) [ok longListBody; ok longListBody].

(** Caching of the latest version switched on, one answer ready. *)
Definition latestCached : State := start (with_cacheLatest true fresh) [ok longListBody].

(** Calls that fill both caches, and a registry that answers them and
    two more. *)
Definition warmUp : list Call :=
  [CallGetSchema background 7; CallGetSchemaByVersion background "LongList" 1].
Definition servedFour : State :=
  start fresh [ok longListBody; ok longListBody; ok longListBody; ok longListBody].

(** The registry turns the next request down with a 422. *)
Definition rejected : State := start fresh [unprocessable invalidSchemaBody].

(** The registry answers two requests with an empty object. *)
Definition agreeable : State := start fresh [ok "{}"; ok "{}"].

(** The gate's only unit is taken and the registry would answer. *)
Definition waiting : State := start busy [ok "[]"].

(** A client made with a gate of no units at all, and a registry that
    would answer. *)
Definition gateless : State :=
  start (CreateSchemaRegistryClientWithOptions "http://registry" (5 * Second) 0) [ok "[]"].

(** A provider that has no token to give, set on a new client. *)
Definition refused : State :=
  start (with_creds (Some {| username := ""; password := "";
                             bearerToken := Some (Err (Foreign "no token")) |}) fresh)
        [ok "[]"].

(** A context that is cancelled already. *)
Definition cancelled : Context := true.

(** A schema text of two lines, the first ended by CR LF, the second by LF. *)
Definition twoLines : string :=
  "{" +:+ String CR (String LF ("}" +:+ String LF EmptyString)).

End Demo.

(** * The rest of the package *)

Section Entity.
Context `{RT : Runtime}.

(** [jsonschema.CompileString], the one library function of the package
    that [Runtime] does not hold. *)
Variable CompileString : string -> string -> result JsonSchema.

(** [func NewSchema]; the schema type is stored by address, so it is
    never [nil]. *)
Definition NewSchema (id : Z) (schema : string) (schemaType : SchemaType) (version : Z)
    (references : list Reference) (codec : option Codec) (jsonSchema : option JsonSchema)
    : result Schema :=
  if bool_decide (schema = "")
  then Err (Errorf "schema cannot be nil")
  else Ok {| s_id := id;
             s_schema := schema;
             s_schemaType := Some schemaType;
             s_version := version;
             s_references := references;
             s_codec := codec;
             s_jsonSchema := jsonSchema |}.

(** The accessors [ID], [Schema], [SchemaType], [Version], [References]. *)
Definition Schema_ID (schema : Schema) : Z := s_id schema.
Definition Schema_Schema (schema : Schema) : string := s_schema schema.

Definition with_codec (codec : option Codec) (schema : Schema) : Schema :=
  {| s_id := s_id schema; s_schema := s_schema schema; s_schemaType := s_schemaType schema;
     s_version := s_version schema; s_references := s_references schema;
     s_codec := codec; s_jsonSchema := s_jsonSchema schema |}.


(** [func (schema *Schema) Codec() *goavro.Codec]: what it returns and
    the object it leaves. *)
Definition Schema_Codec (schema : Schema) : option Codec * Schema :=
  match s_codec schema with
  | None =>
      match NewCodec (Schema_Schema schema) with
      | Ok codec => (Some codec, with_codec (Some codec) schema)
      | Err _ => (None, schema)
      end
  | Some codec => (Some codec, schema)
  end.


(** [func (e Error) Error() string] *)
Definition Error_Error (e : Error) : string := str e.

(** [func (s CompatibilityLevel) String() string] *)
Definition CompatibilityLevel_String (s : CompatibilityLevel) : string := s.

End Entity.

(** ** Further notions *)

(** No byte of [s] is a dash. *)
Fixpoint dashFree (s : string) : bool :=
  match s with
  | EmptyString => true
  | String c s' => negb (Ascii.eqb c "-") && dashFree s'
  end.

Section MoreNotions.
Context `{RT : Runtime}.

(** The six calls that set a field of the client. *)
Definition configures (op : Call) : bool :=
  match op with
  | CallSetCredentials _ _ | CallSetBearerToken _ | CallSetTimeout _
  | CallCachingEnabled _ | CallCacheLatest _ | CallCodecCreationEnabled _ => true
  | _ => false
  end.

Definition resets (op : Call) : bool :=
  match op with
  | CallResetCache => true
  | _ => false
  end.

(** The fourteen calls that talk to the registry. *)
Definition talks (op : Call) : bool := negb (configures op) && negb (resets op).

(** The cache writes of [GetSchema] and of [getVersion], as they stand in
    the two functions. *)
Definition storeById (schemaID : Z) (schema : Schema) : Go unit :=
  do! enabled ← getCachingEnabled;
  if enabled
  then setClient (fun c => with_idSchemaCache (<[schemaID := schema]> (idSchemaCache c)) c)
  else ret tt.

Definition storeByVersion (subject version : string) (schema : Schema) : Go unit :=
  do! enabled ← getCachingEnabled;
  if enabled
  then
    do! latest ← getCacheLatest;
    (if cacheable version latest
     then setClient (fun c => with_subjectSchemaCache
            (<[cacheKey subject version := schema]> (subjectSchemaCache c)) c)
     else ret tt);;
    setClient (fun c => with_idSchemaCache (<[s_id schema := schema]> (idSchemaCache c)) c)
  else ret tt.

(** The settings of a client: all it holds but its caches, its lock and
    its gate. *)
Definition sameSettings (c c' : SchemaRegistryClient) : Prop :=
  schemaRegistryURL c' = schemaRegistryURL c /\
  creds c' = creds c /\
  httpClient_Timeout c' = httpClient_Timeout c /\
  cachingEnabled c' = cachingEnabled c /\
  cacheLatest c' = cacheLatest c /\
  codecCreationEnabled c' = codecCreationEnabled c.

Definition keepsSettings (st st' : State) : Prop := sameSettings (client st) (client st').

(** Nothing cached in [st] is missing from [st']. *)
Definition keepsEntries (st st' : State) : Prop :=
  (forall id, is_Some (idSchemaCache (client st) !! id) ->
              is_Some (idSchemaCache (client st') !! id)) /\
  (forall key, is_Some (subjectSchemaCache (client st) !! key) ->
               is_Some (subjectSchemaCache (client st') !! key)).

(** With caching off in [st], it is off in [st'] and both caches are
    what they were. *)
Definition bypassesCaches (st st' : State) : Prop :=
  cachingEnabled (client st) = false ->
  cachingEnabled (client st') = false /\
  idSchemaCache (client st') = idSchemaCache (client st) /\
  subjectSchemaCache (client st') = subjectSchemaCache (client st).

(** With no negative count in the gate of [st], the gate of [st'] is
    that of [st]. *)
Definition keepsGate (st st' : State) : Prop :=
  0 <= cur (sem (client st)) -> sem (client st') = sem (client st).

(** A request as the package sends them: to the registry's URL, with one
    of the four methods it uses, and with the registry's content type
    as its only [Content-Type]. *)
Definition wellFormed (base : string) (x : Exchange) : Prop :=
  String.prefix base (URL (sent x)) = true /\
  Method (sent x) ∈ ["GET"; "POST"; "PUT"; "DELETE"] /\
  Hdr (sent x) !! "Content-Type" = Some [contentType].

(** From [st] to [st'] the registry's URL is the same and the wire has
    grown by well-formed requests. *)
Definition speaksToRegistry (st st' : State) : Prop :=
  schemaRegistryURL (client st') = schemaRegistryURL (client st) /\
  exists new, wire st' = wire st ++ new /\
              Forall (wellFormed (schemaRegistryURL (client st))) new.

(** The calls that talk to the registry and have no line that writes a
    cache: all of them but [GetSchema], the three that go through
    [getVersion]'s family, [CreateSchema] and [LookupSchema]. *)
Definition plain (op : Call) : bool :=
  match op with
  | CallGetGlobalCompatibilityLevel _ | CallGetCompatibilityLevel _ _ _
  | CallGetSubjects _ | CallGetSubjectsIncludingDeleted _ | CallGetSchemaVersions _ _
  | CallChangeSubjectCompatibilityLevel _ _ _ | CallDeleteSubject _ _ _
  | CallDeleteSubjectByVersion _ _ _ _ | CallIsSchemaCompatible _ _ _ _ _ _ => true
  | _ => false
  end.

(** The settings and both caches of [st'] are those of [st]. *)
Definition keepsCaches (st st' : State) : Prop :=
  sameSettings (client st) (client st') /\
  idSchemaCache (client st') = idSchemaCache (client st) /\
  subjectSchemaCache (client st') = subjectSchemaCache (client st).

(** ** The request a call opens with

    The arguments of the first [httpRequest] of each call, read off the
    functions' texts; [None] when a call starts with none: the setters
    and [ResetCache], a [GetSchema] or a [getVersion] that finds its
    answer cached, a [CreateSchema] or a [LookupSchema] whose type
    switch fails. *)

Definition opensVersion (c : SchemaRegistryClient) (ctx : Context) (subject version : string)
    : option (Context * string * string * option string) :=
  if cachingEnabled c && cacheable version (cacheLatest c)
     && bool_decide (is_Some (subjectSchemaCache c !! cacheKey subject version))
  then None
  else Some (ctx, "GET", subjectByVersion (QueryEscape subject) version, None).

Definition opens (op : Call) (c : SchemaRegistryClient)
    : option (Context * string * string * option string) :=
  match op with
  | CallGetGlobalCompatibilityLevel ctx => Some (ctx, "GET", config, None)
  | CallGetCompatibilityLevel ctx subject defaultToGlobal =>
      Some (ctx, "GET",
            configBySubject (QueryEscape subject) +:+ "?defaultToGlobal="
              +:+ FormatBool defaultToGlobal, None)
  | CallGetSubjects ctx => Some (ctx, "GET", subjects, None)
  | CallGetSubjectsIncludingDeleted ctx => Some (ctx, "GET", subjects +:+ "?deleted=true", None)
  | CallGetSchema ctx schemaID =>
      if cachingEnabled c && bool_decide (is_Some (idSchemaCache c !! schemaID))
      then None
      else Some (ctx, "GET", schemaByID schemaID, None)
  | CallGetLatestSchema ctx subject => opensVersion c ctx subject "latest"
  | CallGetSchemaByVersion ctx subject version => opensVersion c ctx subject (Itoa version)
  | CallGetSchemaVersions ctx subject =>
      Some (ctx, "GET", subjectVersions (QueryEscape subject), None)
  | CallCreateSchema ctx subject schema schemaType references =>
      match switchSchemaType schemaType schema with
      | Ok schema =>
          Some (ctx, "POST", subjectVersions (QueryEscape subject),
                Some (Marshal_schemaRequest
                        {| req_Schema := schema;
                           req_SchemaType := SchemaType_String schemaType;
                           req_References := references |}))
      | Err _ => None
      end
  | CallLookupSchema ctx subject schema schemaType references =>
      match switchSchemaType schemaType schema with
      | Ok schema =>
          Some (ctx, "POST", subjectBySubject (QueryEscape subject),
                Some (Marshal_schemaRequest
                        {| req_Schema := schema;
                           req_SchemaType := SchemaType_String schemaType;
                           req_References := references |}))
      | Err _ => None
      end
  | CallChangeSubjectCompatibilityLevel ctx subject compatibility =>
      Some (ctx, "PUT", configBySubject (QueryEscape subject),
            Some (Marshal_configChangeRequest compatibility))
  | CallDeleteSubject ctx subject _ => Some (ctx, "DELETE", "/subjects/" +:+ subject, None)
  | CallDeleteSubjectByVersion ctx subject version _ =>
      Some (ctx, "DELETE", subjectByVersion subject (Itoa version), None)
  | CallIsSchemaCompatible ctx subject schema version schemaType references =>
      Some (ctx, "POST", "/compatibility/subjects/" +:+ subject +:+ "/versions/" +:+ version,
            Some (Marshal_schemaRequest
                    {| req_Schema := schema;
                       req_SchemaType := SchemaType_String schemaType;
                       req_References := references |}))
  | CallSetCredentials _ _ | CallSetBearerToken _ | CallSetTimeout _ | CallCachingEnabled _
  | CallCacheLatest _ | CallResetCache | CallCodecCreationEnabled _ => None
  end.

(** The calls that decode a body into a pointer to a struct, each with
    the decoder it uses: [body] decodes to a [nil] pointer. *)
Definition decodesToNil (op : Call) (body : string) : Prop :=
  match op with
  | CallGetSchema _ _ | CallGetLatestSchema _ _ | CallGetSchemaByVersion _ _ _
  | CallCreateSchema _ _ _ _ _ | CallLookupSchema _ _ _ _ _ =>
      Unmarshal_schemaResponse body = Ok None
  | CallGetGlobalCompatibilityLevel _ | CallGetCompatibilityLevel _ _ _ =>
      Unmarshal_configResponse body = Ok None
  | CallChangeSubjectCompatibilityLevel _ _ _ => Unmarshal_configChangeResponse body = Ok None
  | _ => False
  end.

(** A run of a call that opens with a request, whose outcome is
    [first]: the run's wire extends the request's; an error of the
    request is the run's error, a blocked or crashed request blocks or
    crashes the run, and a body that satisfies [nil] crashes it. *)
Definition opened (nil : string -> Prop)
    (run : Outcome (option error) * State) (first : Outcome (result string) * State) : Prop :=
  (exists new, wire (snd run) = wire (snd first) ++ new) /\
  match fst first with
  | Returns (Ok body) => nil body -> run = (Panics, snd first)
  | Returns (Err e) => run = (Returns (Some e), snd first)
  | Blocks => run = (Blocks, snd first)
  | Panics => run = (Panics, snd first)
  end.

(** A version as the calls that take one pass it to [cacheKey]: the
    word [latest], or what [strconv.Itoa] prints for a number that is
    not negative. *)
Definition servedVersion (version : string) : Prop :=
  version = "latest" \/ exists n, 0 <= n /\ version = Itoa n.

(** A codec a schema holds is the Avro codec of its text. *)
Definition codecSound (schema : Schema) : Prop :=
  forall codec, s_codec schema = Some codec -> NewCodec (s_schema schema) = Ok codec.

(** Every schema cached under an id has that id, and every cached
    schema's codec is sound. *)
Definition cachesSound (c : SchemaRegistryClient) : Prop :=
  (forall schemaID schema, idSchemaCache c !! schemaID = Some schema ->
     s_id schema = schemaID /\ codecSound schema) /\
  (forall key schema, subjectSchemaCache c !! key = Some schema -> codecSound schema).

(** With no free unit in the gate of [st], the gate and the wire of
    [st'] are those of [st]. *)
Definition staysShut (st st' : State) : Prop :=
  size (sem (client st)) - cur (sem (client st)) < 1 ->
  sem (client st') = sem (client st) /\ wire st' = wire st.

End MoreNotions.

(** ** More of the scripted registry *)

Module Scene.

(** The client after the two calls of [Demo.warmUp]: both caches hold
    the LongList schema and the registry has two answers left. *)
Definition warmed : State := snd (calls Demo.warmUp Demo.servedFour).

(** A run without a setter, and one without [ResetCache]. *)
Definition readAndReset : list Call :=
  [CallGetSubjects Demo.background; CallGetSchema Demo.background 7; CallResetCache].
Definition switchAndDelete : list Call :=
  [CallCachingEnabled false; CallGetSchema Demo.background 7;
   CallDeleteSubject Demo.background "LongList" true].

(** A run of calls that talk to the registry. *)
Definition fetchAgain : list Call :=
  [CallGetSchema Demo.background 7; CallGetSchemaByVersion Demo.background "LongList" 1].

(** After a fetch of the latest version of LongList, and after a
    registration and a lookup of its schema. *)
Definition latestFetched : State :=
  snd (GetLatestSchema Demo.background "LongList" Demo.served).
Definition registered : State :=
  snd (CreateSchema Demo.background "LongList" "long" Avro [] Demo.servedTwice).
Definition lookedUp : State :=
  snd (LookupSchema Demo.background "LongList" "long" Avro [] Demo.served).

(** Two deletes, the first of them permanent, and a listing. *)
Definition deleteAll : list Call :=
  [CallDeleteSubjectByVersion Demo.background "LongList" 1 true;
   CallDeleteSubject Demo.background "LongList" false;
   CallGetSubjects Demo.background].

(** The registry answers the next request with the JSON [null]. *)
Definition nullAnswer : State := Demo.start Demo.fresh [Demo.ok "null"].

(** The registry's second answer is a refusal. *)
Definition halfRegistered : State :=
  Demo.start Demo.fresh [Demo.ok Demo.longListBody; Demo.unprocessable Demo.invalidSchemaBody].

(** Version 1 of the subject [LongList-] has been fetched. *)
Definition dashed : State :=
  snd (GetSchemaByVersion Demo.background "LongList-" 1 Demo.served).

(** Codec creation switched on, then the two calls of [Demo.warmUp]. *)
Definition withCodecs : list Call := CallCodecCreationEnabled true :: Demo.warmUp.

(** A new client with codec creation switched on, one answer ready, and
    the LongList schema with its codec. *)
Definition compiling : State := snd (CodecCreationEnabled true Demo.served).
Definition compiledSchema : @Schema Demo.runtime :=
  {| s_id := 7; s_schema := "long"; s_schemaType := None; s_version := 1;
     s_references := []; s_codec := Some ("long" : @Codec Demo.runtime);
     s_jsonSchema := None |}.

End Scene.

(** * Properties *)

Section Facts.
Context `{RT : Runtime}.

(** ** The dispatcher *)

Lemma with_credsLock_twice l1 l2 c :
  with_credsLock l1 (with_credsLock l2 c) = with_credsLock l1 c.
Proof. reflexivity. Qed.

Lemma with_credsLock_same c : with_credsLock {| readers := readers (credsLock c) |} c = c.
Proof. destruct c as [? [?] ? ? ? ? ? ? ? ?]; reflexivity. Qed.

Lemma with_sem_twice w1 w2 c : with_sem w1 (with_sem w2 c) = with_sem w1 c.
Proof. reflexivity. Qed.

Lemma with_sem_same c z :
  z = cur (sem c) -> with_sem {| size := size (sem c); cur := z |} c = c.
Proof. intros ->. destruct c as [? ? ? ? ? ? ? ? ? [? ?]]; reflexivity. Qed.

Local Ltac transmit_tail :=
  cbn [client world wire];
  rewrite ?with_credsLock_twice, ?with_credsLock_same;
  destruct (decide (1 <= _ - _)); [|reflexivity];
  cbn [client world wire httpClient_Timeout with_sem sem size cur];
  match goal with |- context [Do ?t ?r ?w] => destruct (Do t r w) as [[resp|e] w'] end;
  cbn [client world wire with_sem sem size cur conclude];
  try match goal with |- context [bool_decide (StatusCode ?a < 200) || _] =>
        destruct (bool_decide (StatusCode a < 200) || bool_decide (StatusCode a > 299)) end;
  cbn [client world wire with_sem sem size cur conclude];
  repeat match goal with |- context [decide (0 <= ?z)] => destruct (decide (0 <= z)) end;
  try lia;
  cbn [client world wire with_sem sem size cur conclude];
  rewrite ?with_sem_twice;
  try rewrite with_sem_same by lia;
  try reflexivity.

Lemma httpRequest_unfold ctx method uri payload st :
  httpRequest ctx method uri payload st = httpRequest_closed ctx method uri payload st.
Proof.
  unfold httpRequest, httpRequest_closed, tryGo, bind, ret, getClient.
  destruct st as [c w tr]; simpl.
  destruct (NewRequestWithContext ctx method (schemaRegistryURL c +:+ uri) payload) as [req|e];
    [|reflexivity].
  unfold resolveAuth, credsLock_RLock, credsLock_RUnlock, sem_Acquire, sem_Release,
    httpClient_Do, bearerToken_ObtainToken, setClient, getClient, bind, ret, panic, block; simpl.
  destruct (creds c) as [cr|]; simpl.
  - destruct (bool_decide (0 < String.length (username cr))%nat
              && bool_decide (0 < String.length (password cr))%nat); simpl.
    + transmit_tail.
    + destruct (bearerToken cr) as [p|]; simpl.
      * destruct (ObtainToken p ctx w) as [[token|e] w1]; simpl; [|reflexivity].
        transmit_tail.
      * transmit_tail.
  - transmit_tail.
Qed.

(** ** Frames: what every call but the two setters leaves alone *)

Section Frame.
Variable R : State -> State -> Prop.
Hypothesis R_refl : forall st, R st st.
Hypothesis R_trans : forall st1 st2 st3, R st1 st2 -> R st2 st3 -> R st1 st3.
Hypothesis R_update : forall f st,
  (forall c, creds (f c) = creds c) ->
  R st {| client := f (client st); world := world st; wire := wire st |}.
Hypothesis R_httpRequest : forall ctx method uri payload,
  preserves R (httpRequest ctx method uri payload).

Lemma preserves_ret {A} (a : A) : preserves R (ret a).
Proof. intros st; apply R_refl. Qed.

Lemma preserves_panic {A} : preserves R (@panic _ A).
Proof. intros st; apply R_refl. Qed.

Lemma preserves_getClient : preserves R getClient.
Proof. intros st; apply R_refl. Qed.

Lemma preserves_setClient f :
  (forall c, creds (f c) = creds c) -> preserves R (setClient f).
Proof. intros Hf st; apply R_update, Hf. Qed.

Lemma preserves_bind {A B} (m : Go A) (k : A -> Go B) :
  preserves R m -> (forall a, preserves R (k a)) -> preserves R (bind m k).
Proof.
  intros Hm Hk st. unfold bind.
  specialize (Hm st). destruct (m st) as [[a| |] st1]; cbn in *; trivial.
  eapply R_trans; [exact Hm | apply Hk].
Qed.

Lemma preserves_tryGo {A B} (m : Go (result A)) (k : A -> Go (result B)) :
  preserves R m -> (forall a, preserves R (k a)) -> preserves R (tryGo m k).
Proof.
  intros Hm Hk. apply preserves_bind; [exact Hm|].
  intros [a|e]; [apply Hk | apply preserves_ret].
Qed.

Ltac frame :=
  repeat first
    [ apply preserves_ret
    | apply preserves_panic
    | apply preserves_getClient
    | apply R_httpRequest
    | apply preserves_setClient; intros; reflexivity
    | apply preserves_tryGo; [|intros ?]
    | apply preserves_bind; [|intros ?]
    | match goal with
      | |- preserves _ (match ?x with _ => _ end) => destruct x
      end ].

Lemma preserves_GetSchema ctx schemaID : preserves R (GetSchema ctx schemaID).
Proof. unfold GetSchema, getCachingEnabled, getCodecCreationEnabled. frame. Qed.

Lemma preserves_getVersion ctx subject version : preserves R (getVersion ctx subject version).
Proof.
  unfold getVersion, getCachingEnabled, getCodecCreationEnabled, getCacheLatest. frame.
Qed.

Lemma preserves_updateCaches subject schema : preserves R (updateCaches subject schema).
Proof. unfold updateCaches, getCachingEnabled. frame. Qed.

Lemma preserves_perform op :
  touchesCredentials op = false -> preserves R (perform op).
Proof.
  destruct op; cbn [touchesCredentials perform]; try discriminate; intros _;
    unfold GetGlobalCompatibilityLevel, GetCompatibilityLevel, GetSubjects,
      GetSubjectsIncludingDeleted, GetLatestSchema, GetSchemaVersions, GetSchemaByVersion,
      CreateSchema, LookupSchema, ChangeSubjectCompatibilityLevel, DeleteSubject,
      DeleteSubjectByVersion, SetTimeout, CachingEnabled, CacheLatest, ResetCache,
      CodecCreationEnabled, IsSchemaCompatible, getCodecCreationEnabled;
    repeat first [ apply preserves_GetSchema | apply preserves_getVersion
                 | apply preserves_updateCaches | progress frame ].
Qed.

Lemma preserves_calls ops :
  forallb (fun op => negb (touchesCredentials op)) ops = true -> preserves R (calls ops).
Proof.
  induction ops as [|op ops IH]; cbn [forallb calls]; intros H.
  - apply preserves_ret.
  - apply andb_prop in H as [Hop Hops]. apply negb_true_iff in Hop.
    apply preserves_bind; [apply preserves_perform, Hop | intros _; apply IH, Hops].
Qed.

End Frame.

(** ** Credentials *)

(** *** Requests carry what the credentials slot says *)

Lemma NewRequest_header ctx method url payload req :
  NewRequestWithContext ctx method url payload = Ok req -> Hdr req = ∅.
Proof.
  unfold NewRequestWithContext. destruct (NewRequestError ctx method url); [discriminate|].
  intros [= <-]. reflexivity.
Qed.

Lemma resolveAuth_authorized cr ctx req w req' w' r :
  Hdr req = ∅ ->
  resolveAuth cr ctx req w = (Ok req', w') ->
  authorizedBy cr {| sent := withHeader (Header_Set "Content-Type" contentType) req';
                     got := r |}.
Proof.
  intros Hhdr. unfold resolveAuth, authorizedBy, holdsBasic.
  destruct cr as [cr|].
  - destruct (bool_decide (0 < String.length (username cr))%nat
              && bool_decide (0 < String.length (password cr))%nat).
    + intros [= <- <-]. unfold basicOnly, authorization; cbn.
      unfold Header_Set. rewrite lookup_insert_ne by discriminate.
      rewrite lookup_insert_eq. reflexivity.
    + destruct (bearerToken cr) as [provider|].
      * destruct (ObtainToken provider ctx w) as [[token|e] w1]; [|discriminate].
        intros [= <- <-]. exists token. unfold authorization; cbn.
        unfold Header_Set, Header_Add. rewrite lookup_insert_ne by discriminate.
        rewrite lookup_insert_eq, Hhdr, lookup_empty. reflexivity.
      * intros [= <- <-]. unfold authorization; cbn.
        unfold Header_Set. rewrite lookup_insert_ne by discriminate.
        rewrite Hhdr, lookup_empty. reflexivity.
  - intros [= <- <-]. unfold authorization; cbn.
    unfold Header_Set. rewrite lookup_insert_ne by discriminate.
    rewrite Hhdr, lookup_empty. reflexivity.
Qed.

Lemma continues_refl st : continues st st.
Proof. split; [reflexivity|]. exists []. rewrite app_nil_r. split; [reflexivity | constructor]. Qed.

Lemma continues_trans st1 st2 st3 :
  continues st1 st2 -> continues st2 st3 -> continues st1 st3.
Proof.
  intros [Hc1 (new1 & Hw1 & Hf1)] [Hc2 (new2 & Hw2 & Hf2)].
  split; [congruence|].
  exists (new1 ++ new2). split.
  - rewrite Hw2, Hw1, app_assoc. reflexivity.
  - rewrite Hc1 in Hf2. apply Forall_app; split; assumption.
Qed.

Lemma continues_update f st :
  (forall c, creds (f c) = creds c) ->
  continues st {| client := f (client st); world := world st; wire := wire st |}.
Proof.
  intros Hf. split; [apply Hf|]. exists []. cbn. rewrite app_nil_r.
  split; [reflexivity | constructor].
Qed.

Lemma continues_httpRequest ctx method uri payload :
  preserves continues (httpRequest ctx method uri payload).
Proof.
  intros st. rewrite httpRequest_unfold. unfold httpRequest_closed.
  destruct (NewRequestWithContext _ _ _ _) as [req|e] eqn:Hreq; [|apply continues_refl].
  apply NewRequest_header in Hreq.
  destruct (resolveAuth _ _ _ _) as [[req'|e] w] eqn:Hauth.
  - destruct (decide _).
    + destruct (Do _ _ _) as [r w'].
      assert (Hx : authorizedBy (creds (client st))
                {| sent := withHeader (Header_Set "Content-Type" contentType) req'; got := r |})
        by (eapply resolveAuth_authorized; eassumption).
      destruct (decide _); (split; [reflexivity|]); eexists; (split; [reflexivity|]);
        repeat constructor; exact Hx.
    + split; [reflexivity|]. exists []. cbn. rewrite app_nil_r.
      split; [reflexivity | constructor].
  - split; [reflexivity|]. exists []. cbn. rewrite app_nil_r.
    split; [reflexivity | constructor].
Qed.

Lemma continues_calls ops :
  forallb (fun op => negb (touchesCredentials op)) ops = true ->
  preserves continues (calls ops).
Proof.
  apply preserves_calls.
  - exact continues_refl.
  - exact continues_trans.
  - exact continues_update.
  - exact continues_httpRequest.
Qed.



Lemma SetCredentials_run st u p :
  SetCredentials u p st =
  match readers (credsLock (client st)) with
  | O =>
      (Returns tt,
       if bool_decide (0 < String.length u)%nat && bool_decide (0 < String.length p)%nat
       then {| client := with_creds (Some {| username := u; password := p;
                                              bearerToken := None |}) (client st);
               world := world st; wire := wire st |}
       else st)
  | S _ => (Blocks, st)
  end.
Proof.
  unfold SetCredentials, credsLock_Lock, credsLock_Unlock, bind, ret, getClient, setClient, block.
  destruct (readers (credsLock (client st))); [|reflexivity].
  destruct (bool_decide (0 < String.length u)%nat && bool_decide (0 < String.length p)%nat);
    reflexivity.
Qed.

Lemma SetBearerToken_run st token :
  SetBearerToken token st =
  match readers (credsLock (client st)) with
  | O =>
      (Returns tt,
       match token with
       | Some _ => {| client := with_creds (Some {| username := ""; password := "";
                                                     bearerToken := token |}) (client st);
                      world := world st; wire := wire st |}
       | None => st
       end)
  | S _ => (Blocks, st)
  end.
Proof.
  unfold SetBearerToken, credsLock_Lock, credsLock_Unlock, bind, ret, getClient, setClient, block.
  destruct (readers (credsLock (client st))); [|reflexivity].
  destruct token; reflexivity.
Qed.

Lemma nonempty_length (s : string) : s <> "" -> (0 < String.length s)%nat.
Proof. destruct s; [congruence | cbn; lia]. Qed.

Lemma bearerOnly_noBasic x : bearerOnly x -> noBasic x.
Proof.
  intros [token Hx] v Hv. rewrite Hx in Hv.
  apply list_elem_of_singleton in Hv as ->. reflexivity.
Qed.

Lemma basicOnly_noBearer u p x : basicOnly u p x -> noBearer x.
Proof.
  intros Hx v Hv. unfold basicOnly in Hx. rewrite Hx in Hv.
  apply list_elem_of_singleton in Hv as ->. reflexivity.
Qed.

Lemma perform_oneForm op st :
  oneForm (creds (client st)) -> oneForm (creds (client (snd (perform op st)))).
Proof.
  intros Hone.
  destruct (touchesCredentials op) eqn:Hop.
  - destruct op; try discriminate; cbn [perform]; unfold bind.
    + rewrite SetCredentials_run.
      destruct (readers _); [|exact Hone]. cbn.
      destruct (bool_decide _ && bool_decide _) eqn:Hb; [|exact Hone].
      cbn. left. split; [exact Hb | reflexivity].
    + rewrite SetBearerToken_run.
      destruct (readers _); [|exact Hone]. cbn.
      destruct token; [|exact Hone].
      cbn. right. repeat split; discriminate.
  - pose proof (preserves_perform continues continues_refl continues_trans continues_update
                  continues_httpRequest op Hop st) as [Hc _].
    rewrite Hc. exact Hone.
Qed.

(** A failed [ObtainToken] makes [httpRequest] return with the read lock
    of the credentials still held, and with it held the setters block. *)
Lemma token_error_keeps_read_lock ctx method uri payload st cr provider e w :
  NewRequestError ctx method (schemaRegistryURL (client st) +:+ uri) = None ->
  creds (client st) = Some cr ->
  holdsBasic cr = false ->
  bearerToken cr = Some provider ->
  ObtainToken provider ctx (world st) = (Err e, w) ->
  let st' := snd (httpRequest ctx method uri payload st) in
  fst (httpRequest ctx method uri payload st) = Returns (Err e) /\
  readers (credsLock (client st')) = S (readers (credsLock (client st))) /\
  wire st' = wire st /\
  (forall u p, fst (SetCredentials u p st') = Blocks) /\
  (forall token, fst (SetBearerToken token st') = Blocks).
Proof.
  intros Hnew Hcreds Hbasic Hbearer Htoken st'. subst st'.
  rewrite httpRequest_unfold. unfold httpRequest_closed, NewRequestWithContext, resolveAuth.
  unfold holdsBasic in Hbasic. rewrite Hnew, Hcreds, Hbasic, Hbearer, Htoken.
  cbn [fst snd client wire with_credsLock credsLock readers].
  split; [reflexivity|]. split; [reflexivity|]. split; [reflexivity|]. split.
  - intros u p. rewrite SetCredentials_run. reflexivity.
  - intros token. rewrite SetBearerToken_run. reflexivity.
Qed.

(** C5.  The most recent of the two setters decides, alone, how requests
    are authorized.  After [SetCredentials] and then [SetBearerToken]
    with a provider, every request any later calls send (none of them a
    setter) carries exactly one [Authorization] value, a bearer token,
    and no basic one; after [SetBearerToken] and then [SetCredentials]
    with a user name and a password that are not empty, every such
    request carries exactly the basic value of that pair and no bearer
    one.  And through any calls at all the slot never holds both forms
    at once. *)
Theorem most_recent_credentials_win (st : State) (user pass : string)
    (provider : Provider) (ops : list Call)
    (Hu : user <> "") (Hp : pass <> "")
    (Hops : forallb (fun op => negb (touchesCredentials op)) ops = true) :
  (forall new,
     wire (snd ((SetCredentials user pass;;
                 SetBearerToken (Some provider);;
                 calls ops) st)) = wire st ++ new ->
     Forall (fun x => bearerOnly x /\ noBasic x) new) /\
  (forall new,
     wire (snd ((SetBearerToken (Some provider);;
                 SetCredentials user pass;;
                 calls ops) st)) = wire st ++ new ->
     Forall (fun x => basicOnly user pass x /\ noBearer x) new) /\
  (forall anyops,
     oneForm (creds (client st)) -> oneForm (creds (client (snd (calls anyops st))))).
Proof.
  assert (Hbasic : bool_decide (0 < String.length user)%nat
                   && bool_decide (0 < String.length pass)%nat = true).
  { apply andb_true_intro; split; apply bool_decide_eq_true, nonempty_length; assumption. }
  split; [|split].
  - intros new. unfold bind. rewrite SetCredentials_run.
    destruct (readers (credsLock (client st))) eqn:Hfree; cbn [fst snd].
    2:{ intros Hw. rewrite <- (app_nil_r (wire st)) in Hw at 1.
        apply app_inv_head in Hw as <-. constructor. }
    rewrite Hbasic, SetBearerToken_run. cbn [client with_creds credsLock]. rewrite Hfree.
    match goal with |- context [calls ops ?s] =>
      pose proof (continues_calls ops Hops s) as [_ (new' & Hw' & Hall)];
      destruct (calls ops s) as [[[]| |] st3] end;
      cbn [snd wire client with_creds creds] in *; rewrite Hw'; intros Hw;
      apply app_inv_head in Hw as <-;
      (eapply Forall_impl; [exact Hall|]); cbn; intros x Hx;
      (split; [exact Hx | apply bearerOnly_noBasic, Hx]).
  - intros new. unfold bind. rewrite SetBearerToken_run.
    destruct (readers (credsLock (client st))) eqn:Hfree; cbn [fst snd].
    2:{ intros Hw. rewrite <- (app_nil_r (wire st)) in Hw at 1.
        apply app_inv_head in Hw as <-. constructor. }
    rewrite SetCredentials_run. cbn [client with_creds credsLock]. rewrite Hfree, Hbasic.
    match goal with |- context [calls ops ?s] =>
      pose proof (continues_calls ops Hops s) as [_ (new' & Hw' & Hall)];
      destruct (calls ops s) as [[[]| |] st3] end;
      cbn [snd wire client with_creds creds] in *; rewrite Hw'; intros Hw;
      apply app_inv_head in Hw as <-;
      (eapply Forall_impl; [exact Hall|]); unfold authorizedBy, holdsBasic;
      cbn [username password]; rewrite Hbasic; intros x Hx;
      (split; [exact Hx | eapply basicOnly_noBearer, Hx]).
  - intros anyops. revert st. induction anyops as [|op rest IH]; intros st Hone.
    + exact Hone.
    + cbn [calls]. unfold bind.
      pose proof (perform_oneForm op st Hone) as Hone'.
      destruct (perform op st) as [[a| |] st1]; cbn [snd] in *; auto.
Qed.

(** C10.  [SetCredentials] with an empty user name or an empty password,
    and [SetBearerToken] with a [nil] provider, leave the whole state as
    it was, credentials included, and return when the credentials lock
    is free; and whatever their arguments, the two setters touch no
    field of the client but the credentials slot, send nothing and leave
    the world alone. *)
Theorem setters_ignore_empty_arguments (st : State) (username password : string)
    (Hempty : username = "" \/ password = "") :
  snd (SetCredentials username password st) = st /\
  snd (SetBearerToken None st) = st /\
  (readers (credsLock (client st)) = 0%nat ->
   fst (SetCredentials username password st) = Returns tt /\
   fst (SetBearerToken None st) = Returns tt) /\
  (forall u p,
     let st' := snd (SetCredentials u p st) in
     agreeOffCredentials (client st) (client st') /\
     world st' = world st /\ wire st' = wire st) /\
  (forall token,
     let st' := snd (SetBearerToken token st) in
     agreeOffCredentials (client st) (client st') /\
     world st' = world st /\ wire st' = wire st).
Proof.
  destruct st as [c w tr].
  unfold SetCredentials, SetBearerToken, credsLock_Lock, credsLock_Unlock, agreeOffCredentials.
  unfold bind, ret, getClient, setClient, block; cbn [client world wire].
  assert (Hno : bool_decide (0 < String.length username)%nat
                && bool_decide (0 < String.length password)%nat = false).
  { destruct Hempty as [-> | ->]; [reflexivity | apply andb_false_r]. }
  rewrite Hno.
  destruct (readers (credsLock c)) as [|n]; cbn.
  - split; [reflexivity|]. split; [reflexivity|]. split; [auto|].
    split.
    + intros u p.
      destruct (bool_decide (0 < String.length u)%nat && bool_decide (0 < String.length p)%nat);
        cbn; auto 12.
    + intros [provider|]; cbn; auto 12.
  - split; [reflexivity|]. split; [reflexivity|]. split; [discriminate|].
    split.
    + intros u p; cbn; auto 12.
    + intros token; cbn; auto 12.
Qed.

(** ** Registry errors *)

Lemma quiet_ret {A} (a : A) : quiet (ret (S:=State) a).
Proof. intros st; split; reflexivity. Qed.

Lemma quiet_getClient : quiet getClient.
Proof. intros st; split; reflexivity. Qed.

Lemma quiet_setClient f : (forall c, sem (f c) = sem c) -> quiet (setClient f).
Proof. intros Hf st; split; [reflexivity | apply Hf]. Qed.

Lemma quiet_bind {A B} (m : Go A) (k : A -> Go B) :
  quiet m -> (forall a, quiet (k a)) -> quiet (bind m k).
Proof.
  intros Hm Hk st. unfold bind. destruct (Hm st) as [Hw Hs].
  destruct (m st) as [[a| |] st1]; cbn in *; auto.
  destruct (Hk a st1) as [Hw' Hs']. split; congruence.
Qed.

Lemma quiet_block {A} : quiet (@block State A).
Proof. intros st; split; reflexivity. Qed.

Ltac quiet :=
  repeat first
    [ apply quiet_ret
    | apply quiet_block
    | apply quiet_getClient
    | apply quiet_setClient; intros; reflexivity
    | apply quiet_bind; [|intros ?]
    | match goal with
      | |- quiet (match ?x with _ => _ end) => destruct x
      end ].

Lemma quiet_updateCaches subject schema : quiet (updateCaches subject schema).
Proof. unfold updateCaches, getCachingEnabled. quiet. Qed.

Lemma propagates_bind {A B} (errA : A -> option error) (errB : B -> option error)
    (m : Go A) (k : A -> Go B) :
  propagates errA m ->
  (forall a e, errA a = Some e -> forall st, exists b, k a st = (Returns b, st) /\ errB b = Some e) ->
  (forall a, errA a = None -> propagates errB (k a)) ->
  propagates errB (bind m k).
Proof.
  intros Hm Herr Hk st Hgate. unfold bind.
  destruct (Hm st Hgate) as [Hgate1 (new1 & Hw1 & Hbad1)].
  destruct (m st) as [[a| |] st1]; cbn [fst snd] in *.
  - specialize (Hgate1 a eq_refl).
    destruct (errA a) as [e|] eqn:Ha.
    + destruct (Herr a e Ha st1) as (b & -> & Hb). cbn [fst snd].
      split; [intros _ _; exact Hgate1|].
      exists new1. split; [exact Hw1|].
      intros i x resp Hi Hx Hs. destruct (Hbad1 i x resp Hi Hx Hs) as [Hlen (a' & [= <-] & Ha')].
      split; [exact Hlen|]. exists b. split; [reflexivity | congruence].
    + destruct (Hk a Ha st1 Hgate1) as [Hgate2 (new2 & Hw2 & Hbad2)].
      split; [exact Hgate2|].
      exists (new1 ++ new2). split; [rewrite Hw2, Hw1, app_assoc; reflexivity|].
      intros i x resp Hi Hx Hs.
      destruct (decide (i < length new1)%nat) as [Hlt|Hge].
      * rewrite lookup_app_l in Hi by exact Hlt.
        destruct (Hbad1 i x resp Hi Hx Hs) as [_ (a' & [= <-] & Ha')]. congruence.
      * rewrite lookup_app_r in Hi by lia.
        destruct (Hbad2 _ x resp Hi Hx Hs) as [Hlen Hres].
        split; [rewrite length_app; lia | exact Hres].
  - split; [discriminate|]. exists new1. split; [exact Hw1|].
    intros i x resp Hi Hx Hs. destruct (Hbad1 i x resp Hi Hx Hs) as [_ (a' & [=] & _)].
  - split; [discriminate|]. exists new1. split; [exact Hw1|].
    intros i x resp Hi Hx Hs. destruct (Hbad1 i x resp Hi Hx Hs) as [_ (a' & [=] & _)].
Qed.

Lemma propagates_quiet {A} (err : A -> option error) (m : Go A) :
  quiet m -> propagates err m.
Proof.
  intros Hm st Hgate. destruct (Hm st) as [Hw Hs].
  split; [intros _ _; rewrite Hs; exact Hgate|].
  exists []. rewrite app_nil_r. split; [exact Hw|].
  intros i x resp Hi. rewrite lookup_nil in Hi. discriminate.
Qed.

Lemma propagates_after {A B} (err : B -> option error) (m : Go A) (k : A -> Go B) :
  quiet m -> (forall a, propagates err (k a)) -> propagates err (bind m k).
Proof.
  intros Hm Hk.
  apply (propagates_bind (fun _ => None) err); [apply propagates_quiet, Hm | discriminate | auto].
Qed.

Lemma propagates_tryGo {A B} (m : Go (result A)) (k : A -> Go (result B)) :
  propagates errorOf m -> (forall a, propagates errorOf (k a)) ->
  propagates errorOf (tryGo m k).
Proof.
  intros Hm Hk. apply (propagates_bind errorOf errorOf); [exact Hm| |].
  - intros [a|e'] e [= <-] st. exists (Err e'). split; reflexivity.
  - intros [a|e'] [=]. apply Hk.
Qed.

Lemma propagates_errorOf {A} (m : Go (result A)) :
  propagates errorOf m -> propagates (fun e => e) (bind m (fun r => ret (errorOf r))).
Proof.
  intros Hm. apply (propagates_bind errorOf (fun e => e)); [exact Hm| |].
  - intros r e Hr st. exists (errorOf r). split; [reflexivity | exact Hr].
  - intros r _. apply propagates_quiet, quiet_ret.
Qed.

Lemma propagates_httpRequest ctx method uri payload :
  propagates errorOf (httpRequest ctx method uri payload).
Proof.
  intros st Hgate. rewrite httpRequest_unfold. unfold httpRequest_closed.
  assert (Hnil : forall o st', wire st' = wire st ->
    (forall a : result string, o = Returns a -> 0 <= cur (sem (client st'))) ->
    (forall a : result string, fst (o, st') = Returns a -> 0 <= cur (sem (client (snd (o, st'))))) /\
    exists new, wire (snd (o, st')) = wire st ++ new /\
      forall i x resp, new !! i = Some x -> got x = Ok resp -> badStatus resp ->
        S i = length new /\
        exists a, fst (o, st') = Returns a /\ errorOf a = Some (createError resp)).
  { intros o st' Hw Hg. split; [exact Hg|]. exists []. rewrite app_nil_r. split; [exact Hw|].
    intros i x resp Hi. rewrite lookup_nil in Hi. discriminate. }
  destruct (NewRequestWithContext _ _ _ _) as [req|e]; [|apply Hnil; auto].
  destruct (resolveAuth _ _ _ _) as [[req'|e] w]; [|apply Hnil; auto].
  destruct (decide (1 <= _)); [|apply Hnil; [reflexivity | discriminate]].
  destruct (Do _ _ _) as [r w'].
  destruct (decide (0 <= _)); [|lia].
  cbn [fst snd client wire]. split; [auto|].
  eexists; split; [reflexivity|].
  intros [|i] x resp Hi Hx Hs; cbn in Hi; [|discriminate].
  injection Hi as <-. cbn in Hx. subst r. split; [reflexivity|].
  eexists; split; [reflexivity|]. cbn.
  destruct Hs as [Hs|Hs].
  - rewrite (bool_decide_eq_true_2 _ Hs). reflexivity.
  - rewrite (bool_decide_eq_true_2 (StatusCode resp > 299) Hs), orb_true_r. reflexivity.
Qed.

Ltac propagate :=
  repeat first
    [ apply propagates_httpRequest
    | apply propagates_quiet; solve [quiet | apply quiet_updateCaches]
    | apply propagates_tryGo; [|intros ?]
    | apply propagates_after; [solve [quiet | apply quiet_updateCaches]|intros ?]
    | match goal with
      | |- propagates _ (match ?x with _ => _ end) => destruct x
      end ].

Lemma propagates_panic {A} (err : A -> option error) : propagates err (@panic State A).
Proof. apply propagates_quiet. intros st; split; reflexivity. Qed.

Lemma propagates_GetSchema ctx schemaID : propagates errorOf (GetSchema ctx schemaID).
Proof.
  unfold GetSchema, getCachingEnabled, getCodecCreationEnabled.
  repeat first [apply propagates_panic | progress propagate].
Qed.

Lemma propagates_getVersion ctx subject version :
  propagates errorOf (getVersion ctx subject version).
Proof.
  unfold getVersion, getCachingEnabled, getCodecCreationEnabled, getCacheLatest.
  repeat first [apply propagates_panic | progress propagate].
Qed.

Lemma propagates_delete ctx uri permanent :
  propagates (fun e => e)
    (do! r ← httpRequest ctx "DELETE" uri None;
     let err := errorOf r in
     if bool_decide (err <> None) || negb permanent
     then ret err
     else
       let uri := uri +:+ "?permanent=true" in
       do! r ← httpRequest ctx "DELETE" uri None;
       ret (errorOf r)).
Proof.
  apply (propagates_bind errorOf (fun e => e)); [apply propagates_httpRequest| |].
  - intros [a|e'] e [= <-] st. exists (Some e'). split; reflexivity.
  - intros [a|e'] [=]. cbn. destruct permanent; cbn.
    + apply propagates_errorOf, propagates_httpRequest.
    + apply propagates_quiet, quiet_ret.
Qed.

Lemma propagates_perform op : propagates (fun e => e) (perform op).
Proof.
  destruct op; cbn [perform];
    try (apply propagates_errorOf;
         unfold GetGlobalCompatibilityLevel, GetCompatibilityLevel, GetSubjects,
           GetSubjectsIncludingDeleted, GetLatestSchema, GetSchemaVersions, GetSchemaByVersion,
           CreateSchema, LookupSchema, ChangeSubjectCompatibilityLevel, IsSchemaCompatible,
           getCodecCreationEnabled;
         repeat first [ apply propagates_GetSchema | apply propagates_getVersion
                      | apply propagates_panic | progress propagate ]).
  - apply propagates_delete.
  - apply propagates_delete.
  - apply propagates_quiet. unfold SetCredentials, credsLock_Lock, credsLock_Unlock. quiet.
  - apply propagates_quiet. unfold SetBearerToken, credsLock_Lock, credsLock_Unlock. quiet.
  - apply propagates_quiet. unfold SetTimeout. quiet.
  - apply propagates_quiet. unfold CachingEnabled. quiet.
  - apply propagates_quiet. unfold CacheLatest. quiet.
  - apply propagates_quiet. unfold ResetCache. quiet.
  - apply propagates_quiet. unfold CodecCreationEnabled. quiet.
Qed.

(** C7.  Whatever the call of the interface: when a response with a
    status outside 2xx comes back, nothing more is sent, and the call
    returns with the error [createError] makes of that response; that
    error carries the [error_code] and the [message] of the body when
    the body decodes as an [Error], and is the status line of the
    response when it does not.  (The gate's count is not negative: it
    is zero between calls.) *)
Theorem registry_errors_reach_the_caller (op : Call) (st : State)
    (Hgate : 0 <= cur (sem (client st))) :
  (forall new i x resp,
     wire (snd (perform op st)) = wire st ++ new ->
     new !! i = Some x -> got x = Ok resp -> badStatus resp ->
     fst (perform op st) = Returns (Some (createError resp)) /\ S i = length new) /\
  (forall resp code message,
     Decode_Error (Body resp) = Some (code, message) ->
     exists e, createError resp = RegistryError e /\ Code e = code /\ Message e = message) /\
  (forall resp,
     Decode_Error (Body resp) = None -> createError resp = Errorf (Status resp)).
Proof.
  split; [|split].
  - intros new i x resp Hw Hi Hx Hs.
    destruct (propagates_perform op st Hgate) as [_ (new' & Hw' & Hbad)].
    rewrite Hw' in Hw. apply app_inv_head in Hw as ->.
    destruct (Hbad i x resp Hi Hx Hs) as [Hlen (a & Ha & ->)]. auto.
  - intros resp code message Hd. unfold createError. rewrite Hd. eexists; repeat split.
  - intros resp Hd. unfold createError. rewrite Hd. reflexivity.
Qed.

(** ** Sending *)

Lemma httpRequest_sends ctx method uri payload st :
  sends (client st) ctx method uri ->
  exists x w,
    httpRequest ctx method uri payload st =
      (Returns (conclude (got x)),
       {| client := client st; world := w; wire := wire st ++ [x] |}) /\
    carries x (client st) ctx method uri payload.
Proof.
  intros (Hnew & Htoken & Hgate0 & Hgate1).
  rewrite httpRequest_unfold. unfold httpRequest_closed, NewRequestWithContext.
  rewrite Hnew.
  assert (Hauth : exists req w,
    resolveAuth (creds (client st)) ctx
      {| Ctx := ctx; Method := method; URL := schemaRegistryURL (client st) +:+ uri;
         Hdr := ∅; Payload := payload |} (world st) = (Ok req, w) /\
    Ctx req = ctx /\ Method req = method /\
    URL req = schemaRegistryURL (client st) +:+ uri /\ Payload req = payload).
  { unfold resolveAuth, tokenAnswers, holdsBasic in *.
    destruct (creds (client st)) as [cr|]; [|eauto 10].
    destruct (bool_decide _ && bool_decide _); [eauto 10|].
    destruct (bearerToken cr) as [provider|]; [|eauto 10].
    specialize (Htoken (world st)).
    destruct (ObtainToken provider ctx (world st)) as [[token|e] w]; [|discriminate].
    eauto 10. }
  destruct Hauth as (req & w & -> & Hctx & Hm & Hu & Hp).
  destruct (decide _); [|lia].
  destruct (Do _ _ _) as [r w'].
  destruct (decide _); [|lia].
  exists {| sent := withHeader (Header_Set "Content-Type" contentType) req; got := r |}, w'.
  split; [reflexivity|]. repeat split; assumption.
Qed.

(** ** The cache of schemas by id *)

Lemma GetSchema_hit ctx schemaID schema st :
  cachingEnabled (client st) = true ->
  idSchemaCache (client st) !! schemaID = Some schema ->
  GetSchema ctx schemaID st = (Returns (Ok schema), st).
Proof.
  intros Hon Hhit. unfold GetSchema, getCachingEnabled, bind, getClient, ret.
  cbn. rewrite Hon, Hhit. reflexivity.
Qed.

Lemma repeat_GetSchema_hit n ctx schemaID schema st :
  cachingEnabled (client st) = true ->
  idSchemaCache (client st) !! schemaID = Some schema ->
  repeatGo n (GetSchema ctx schemaID) st = (Returns (replicate n (Ok schema)), st).
Proof.
  intros Hon Hhit. induction n as [|n IH]; [reflexivity|].
  cbn [repeatGo replicate]. unfold bind at 1.
  rewrite (GetSchema_hit ctx schemaID schema st Hon Hhit).
  unfold bind at 1. rewrite IH. reflexivity.
Qed.

Lemma GetSchema_unfold ctx schemaID st :
  GetSchema ctx schemaID st =
  match (if cachingEnabled (client st) then idSchemaCache (client st) !! schemaID else None) with
  | Some cachedSchema => (Returns (Ok cachedSchema), st)
  | None =>
      match httpRequest ctx "GET" (schemaByID schemaID) None st with
      | (Returns (Ok resp), st1) =>
          match Unmarshal_schemaResponse resp with
          | Ok (Some schemaResp) =>
              match codecFor (codecCreationEnabled (client st1)) (resp_Schema schemaResp) with
              | Ok codec =>
                  let schema :=
                    {| s_id := schemaID;
                       s_schema := resp_Schema schemaResp;
                       s_schemaType := resp_SchemaType schemaResp;
                       s_version := resp_Version schemaResp;
                       s_references := resp_References schemaResp;
                       s_codec := codec;
                       s_jsonSchema := None |} in
                  (Returns (Ok schema),
                   if cachingEnabled (client st1)
                   then {| client := with_idSchemaCache
                                       (<[schemaID := schema]> (idSchemaCache (client st1)))
                                       (client st1);
                           world := world st1; wire := wire st1 |}
                   else st1)
              | Err e => (Returns (Err e), st1)
              end
          | Ok None => (Panics, st1)
          | Err e => (Returns (Err e), st1)
          end
      | (Returns (Err e), st1) => (Returns (Err e), st1)
      | (Blocks, st1) => (Blocks, st1)
      | (Panics, st1) => (Panics, st1)
      end
  end.
Proof.
  unfold GetSchema, getCachingEnabled, getCodecCreationEnabled, tryGo, bind, getClient,
    setClient, ret, panic.
  generalize (httpRequest ctx "GET" (schemaByID schemaID) None); intros h.
  destruct (if cachingEnabled (client st) then _ else _); [reflexivity|].
  destruct (h st) as [[[resp|e]| |] st1]; try reflexivity.
  destruct (Unmarshal_schemaResponse resp) as [[schemaResp|]|e]; try reflexivity.
  destruct (codecFor _ _); [|reflexivity].
  destruct (cachingEnabled (client st1)); reflexivity.
Qed.

Lemma GetSchema_miss ctx schemaID st :
  (if cachingEnabled (client st) then idSchemaCache (client st) !! schemaID else None) = None ->
  sends (client st) ctx "GET" (schemaByID schemaID) ->
  fetchedOnce st (snd (GetSchema ctx schemaID st)) ctx (schemaByID schemaID) /\
  forall r, fst (GetSchema ctx schemaID st) = Returns r ->
    match r with
    | Ok schema =>
        client (snd (GetSchema ctx schemaID st)) =
          (if cachingEnabled (client st)
           then with_idSchemaCache (<[schemaID := schema]> (idSchemaCache (client st))) (client st)
           else client st)
    | Err _ => client (snd (GetSchema ctx schemaID st)) = client st
    end.
Proof.
  intros Hmiss Hsends.
  destruct (httpRequest_sends ctx "GET" (schemaByID schemaID) None st Hsends)
    as (x & w & Hrun & Hx).
  rewrite GetSchema_unfold, Hmiss, Hrun.
  assert (Hone : forall c, fetchedOnce st {| client := c; world := w; wire := wire st ++ [x] |}
                             ctx (schemaByID schemaID)).
  { intros c. exists x. split; [reflexivity | exact Hx]. }
  destruct (conclude (got x)) as [resp|e]; [|split; [apply Hone | intros r [= <-]; reflexivity]].
  destruct (Unmarshal_schemaResponse resp) as [[schemaResp|]|e];
    [|split; [apply Hone | discriminate]|split; [apply Hone | intros r [= <-]; reflexivity]].
  cbn [client].
  destruct (codecFor _ _) as [codec|e];
    [|split; [apply Hone | intros r [= <-]; reflexivity]].
  cbn zeta. destruct (cachingEnabled (client st));
    (split; [apply Hone | intros r [= <-]; reflexivity]).
Qed.



Lemma repeat_GetSchema_uncached n ctx schemaID st results st' :
  cachingEnabled (client st) = false ->
  sends (client st) ctx "GET" (schemaByID schemaID) ->
  repeatGo n (GetSchema ctx schemaID) st = (Returns results, st') ->
  exists new, wire st' = wire st ++ new /\ length new = n /\
    Forall (fun x => carries x (client st) ctx "GET" (schemaByID schemaID) None) new.
Proof.
  revert st results. induction n as [|n IH]; intros st results Hoff Hsends.
  - intros [= <- <-]. exists []. rewrite app_nil_r. repeat split. constructor.
  - cbn [repeatGo]. unfold bind at 1.
    assert (Hmiss : (if cachingEnabled (client st) then idSchemaCache (client st) !! schemaID
                     else None) = None) by (rewrite Hoff; reflexivity).
    destruct (GetSchema_miss ctx schemaID st Hmiss Hsends) as [(x & Hw & Hx) Hclient].
    destruct (GetSchema ctx schemaID st) as [[r| |] st1]; try discriminate.
    cbn [fst snd] in *.
    assert (Hsame : client st1 = client st).
    { specialize (Hclient r eq_refl). rewrite Hoff in Hclient. destruct r; exact Hclient. }
    unfold bind at 1.
    destruct (repeatGo n (GetSchema ctx schemaID) st1) as [[rest| |] st2] eqn:Hrest;
      try discriminate.
    intros [= <- <-].
    destruct (IH st1 rest) as (new & Hw2 & Hlen & Hall); try (rewrite Hsame; assumption).
    { exact Hrest. }
    exists (x :: new). split; [|split].
    + rewrite Hw2, Hw, <- app_assoc. reflexivity.
    + cbn. rewrite Hlen. reflexivity.
    + constructor; [exact Hx|]. rewrite Hsame in Hall. exact Hall.
Qed.

(** C1.  A client that can send (the request can be built and
    authorized, the gate has a unit):
    with caching on and no schema cached under the id, [GetSchema] sends
    exactly one request, the GET for that id, and once it has returned a
    schema, any number of further calls for the id, under any context,
    return that same schema and leave the state, wire included, as it
    is;
    with caching off, [GetSchema] sends exactly one such request
    whatever the cache holds, and [n] calls in a row that return have
    sent [n] of them. *)
Theorem GetSchema_fetches_once_then_serves_from_cache (ctx : Context) (schemaID : Z)
    (st : State) (Hsends : sends (client st) ctx "GET" (schemaByID schemaID)) :
  (cachingEnabled (client st) = true ->
   idSchemaCache (client st) !! schemaID = None ->
   fetchedOnce st (snd (GetSchema ctx schemaID st)) ctx (schemaByID schemaID) /\
   forall schema, fst (GetSchema ctx schemaID st) = Returns (Ok schema) ->
     forall ctx' n,
       repeatGo n (GetSchema ctx' schemaID) (snd (GetSchema ctx schemaID st)) =
       (Returns (replicate n (Ok schema)), snd (GetSchema ctx schemaID st))) /\
  (cachingEnabled (client st) = false ->
   fetchedOnce st (snd (GetSchema ctx schemaID st)) ctx (schemaByID schemaID) /\
   forall n results st',
     repeatGo n (GetSchema ctx schemaID) st = (Returns results, st') ->
     exists new, wire st' = wire st ++ new /\ length new = n /\
       Forall (fun x => carries x (client st) ctx "GET" (schemaByID schemaID) None) new).
Proof.
  split.
  - intros Hon Hnone.
    assert (Hmiss : (if cachingEnabled (client st) then idSchemaCache (client st) !! schemaID
                     else None) = None) by (rewrite Hon; exact Hnone).
    destruct (GetSchema_miss ctx schemaID st Hmiss Hsends) as [Honce Hclient].
    split; [exact Honce|].
    intros schema Hret ctx' n. specialize (Hclient _ Hret). lazy beta iota in Hclient.
    rewrite Hon in Hclient.
    apply repeat_GetSchema_hit.
    + rewrite Hclient. exact Hon.
    + rewrite Hclient. cbn. apply lookup_insert_eq.
  - intros Hoff.
    assert (Hmiss : (if cachingEnabled (client st) then idSchemaCache (client st) !! schemaID
                     else None) = None) by (rewrite Hoff; reflexivity).
    split; [apply (GetSchema_miss ctx schemaID st Hmiss Hsends)|].
    intros n results st' Hrun.
    eapply repeat_GetSchema_uncached; eassumption.
Qed.

(** ** The cache of schemas by subject and version *)

Lemma sends_forgetCaches c c' ctx method uri :
  forgetCaches c' = forgetCaches c -> sends c ctx method uri -> sends c' ctx method uri.
Proof.
  intros H. unfold sends, tokenAnswers, gateFree.
  pose proof (f_equal schemaRegistryURL H) as Hurl.
  pose proof (f_equal creds H) as Hcreds.
  pose proof (f_equal sem H) as Hsem.
  cbn in Hurl, Hcreds, Hsem. rewrite Hurl, Hcreds, Hsem. trivial.
Qed.

Lemma getVersion_unfold ctx subject version st :
  getVersion ctx subject version st =
  match (if cachingEnabled (client st) && cacheable version (cacheLatest (client st))
         then subjectSchemaCache (client st) !! cacheKey subject version else None) with
  | Some cachedResult => (Returns (Ok cachedResult), st)
  | None =>
      match httpRequest ctx "GET" (subjectByVersion (QueryEscape subject) version) None st with
      | (Returns (Ok resp), st1) =>
          match Unmarshal_schemaResponse resp with
          | Ok (Some schemaResp) =>
              match codecFor (codecCreationEnabled (client st1)) (resp_Schema schemaResp) with
              | Ok codec =>
                  let schema :=
                    {| s_id := resp_ID schemaResp;
                       s_schema := resp_Schema schemaResp;
                       s_schemaType := resp_SchemaType schemaResp;
                       s_version := resp_Version schemaResp;
                       s_references := resp_References schemaResp;
                       s_codec := codec;
                       s_jsonSchema := None |} in
                  let c1 := client st1 in
                  let c2 :=
                    if cacheable version (cacheLatest c1)
                    then with_subjectSchemaCache
                           (<[cacheKey subject version := schema]> (subjectSchemaCache c1)) c1
                    else c1 in
                  (Returns (Ok schema),
                   if cachingEnabled c1
                   then {| client := with_idSchemaCache
                                       (<[s_id schema := schema]> (idSchemaCache c2)) c2;
                           world := world st1; wire := wire st1 |}
                   else st1)
              | Err e => (Returns (Err e), st1)
              end
          | Ok None => (Panics, st1)
          | Err e => (Returns (Err e), st1)
          end
      | (Returns (Err e), st1) => (Returns (Err e), st1)
      | (Blocks, st1) => (Blocks, st1)
      | (Panics, st1) => (Panics, st1)
      end
  end.
Proof.
  unfold getVersion, getCachingEnabled, getCodecCreationEnabled, getCacheLatest, tryGo, bind,
    getClient, setClient, ret, panic.
  generalize (httpRequest ctx "GET" (subjectByVersion (QueryEscape subject) version) None);
    intros h.
  destruct (if cachingEnabled (client st) && _ then _ else _); [reflexivity|].
  destruct (h st) as [[[resp|e]| |] st1]; try reflexivity.
  destruct (Unmarshal_schemaResponse resp) as [[schemaResp|]|e]; try reflexivity.
  destruct (codecFor _ _); [|reflexivity].
  cbn [client world wire fst snd].
  destruct (cachingEnabled (client st1)); [|reflexivity].
  destruct (cacheable version (cacheLatest (client st1))); reflexivity.
Qed.

Lemma getVersion_hit ctx subject version schema st :
  cachingEnabled (client st) = true ->
  cacheable version (cacheLatest (client st)) = true ->
  subjectSchemaCache (client st) !! cacheKey subject version = Some schema ->
  getVersion ctx subject version st = (Returns (Ok schema), st).
Proof.
  intros Hon Hc Hhit. rewrite getVersion_unfold, Hon, Hc, Hhit. reflexivity.
Qed.

Lemma repeat_getVersion_hit n ctx subject version schema st :
  cachingEnabled (client st) = true ->
  cacheable version (cacheLatest (client st)) = true ->
  subjectSchemaCache (client st) !! cacheKey subject version = Some schema ->
  repeatGo n (getVersion ctx subject version) st = (Returns (replicate n (Ok schema)), st).
Proof.
  intros Hon Hc Hhit. induction n as [|n IH]; [reflexivity|].
  cbn [repeatGo replicate]. unfold bind at 1.
  rewrite (getVersion_hit ctx subject version schema st Hon Hc Hhit).
  unfold bind at 1. rewrite IH. reflexivity.
Qed.

Lemma getVersion_miss ctx subject version st :
  (if cachingEnabled (client st) && cacheable version (cacheLatest (client st))
   then subjectSchemaCache (client st) !! cacheKey subject version else None) = None ->
  sends (client st) ctx "GET" (subjectByVersion (QueryEscape subject) version) ->
  let run := getVersion ctx subject version st in
  fetchedOnce st (snd run) ctx (subjectByVersion (QueryEscape subject) version) /\
  forgetCaches (client (snd run)) = forgetCaches (client st) /\
  forall schema, fst run = Returns (Ok schema) ->
    cachingEnabled (client st) = true ->
    cacheable version (cacheLatest (client st)) = true ->
    subjectSchemaCache (client (snd run)) !! cacheKey subject version = Some schema.
Proof.
  intros Hmiss Hsends run. subst run.
  destruct (httpRequest_sends ctx "GET" (subjectByVersion (QueryEscape subject) version)
              None st Hsends) as (x & w & Hrun & Hx).
  rewrite getVersion_unfold, Hmiss, Hrun.
  assert (Hone : forall c, fetchedOnce st {| client := c; world := w; wire := wire st ++ [x] |}
                             ctx (subjectByVersion (QueryEscape subject) version)).
  { intros c. exists x. split; [reflexivity | exact Hx]. }
  destruct (conclude (got x)) as [resp|e];
    [|split; [apply Hone | split; [reflexivity | discriminate]]].
  destruct (Unmarshal_schemaResponse resp) as [[schemaResp|]|e];
    [|split; [apply Hone | split; [reflexivity | discriminate]]
     |split; [apply Hone | split; [reflexivity | discriminate]]].
  cbn [client].
  destruct (codecFor _ _) as [codec|e];
    [|split; [apply Hone | split; [reflexivity | discriminate]]].
  cbn zeta.
  destruct (cachingEnabled (client st)) eqn:Hon;
    [|split; [apply Hone | split; [reflexivity | discriminate]]].
  destruct (cacheable version (cacheLatest (client st))) eqn:Hc.
  - split; [apply Hone | split; [reflexivity|]].
    intros schema [= <-] _ _. cbn. apply lookup_insert_eq.
  - split; [apply Hone | split; [reflexivity | discriminate]].
Qed.

Lemma forgetCaches_flags c c' :
  forgetCaches c' = forgetCaches c ->
  cachingEnabled c' = cachingEnabled c /\ cacheLatest c' = cacheLatest c /\
  schemaRegistryURL c' = schemaRegistryURL c.
Proof.
  intros H. split; [exact (f_equal cachingEnabled H)|].
  split; [exact (f_equal cacheLatest H) | exact (f_equal schemaRegistryURL H)].
Qed.

Lemma repeat_getVersion_uncached n ctx subject version st results st' :
  cachingEnabled (client st) && cacheable version (cacheLatest (client st)) = false ->
  sends (client st) ctx "GET" (subjectByVersion (QueryEscape subject) version) ->
  repeatGo n (getVersion ctx subject version) st = (Returns results, st') ->
  exists new, wire st' = wire st ++ new /\ length new = n /\
    Forall (fun x => carries x (client st) ctx "GET"
                       (subjectByVersion (QueryEscape subject) version) None) new.
Proof.
  revert st results. induction n as [|n IH]; intros st results Hoff Hsends.
  - intros [= <- <-]. exists []. rewrite app_nil_r. repeat split. constructor.
  - cbn [repeatGo]. unfold bind at 1.
    assert (Hmiss : (if cachingEnabled (client st) && cacheable version (cacheLatest (client st))
                     then subjectSchemaCache (client st) !! cacheKey subject version
                     else None) = None) by (rewrite Hoff; reflexivity).
    destruct (getVersion_miss ctx subject version st Hmiss Hsends)
      as [(x & Hw & Hx) [Hsame _]].
    destruct (getVersion ctx subject version st) as [[r| |] st1]; try discriminate.
    cbn [fst snd] in *.
    destruct (forgetCaches_flags _ _ Hsame) as (Hf1 & Hf2 & Hurl).
    unfold bind at 1.
    destruct (repeatGo n (getVersion ctx subject version) st1) as [[rest| |] st2] eqn:Hrest;
      try discriminate.
    intros [= <- <-].
    destruct (IH st1 rest) as (new & Hw2 & Hlen & Hall).
    { rewrite Hf1, Hf2. exact Hoff. }
    { eapply sends_forgetCaches; eassumption. }
    { exact Hrest. }
    exists (x :: new). split; [|split].
    + rewrite Hw2, Hw, <- app_assoc. reflexivity.
    + cbn. rewrite Hlen. reflexivity.
    + constructor; [exact Hx|]. unfold carries in *. rewrite Hurl in Hall. exact Hall.
Qed.

(** C3.  A new client has caching on and [cacheLatest] off.  A client
    that can send, with caching on:
    while [cacheLatest] is off, [GetLatestSchema] sends one request, the
    GET for the latest version of the subject, every time: [n] calls in
    a row that return have sent [n] of them;
    once [cacheLatest] is on and nothing is cached for the subject's
    latest version, [GetLatestSchema] sends exactly one such request,
    and once it has returned a schema, any number of further calls for
    the subject return that same schema and leave the state, wire
    included, as it is. *)
Theorem GetLatestSchema_cached_only_when_asked (ctx : Context) (subject : string) (st : State)
    (Hsends : sends (client st) ctx "GET" (subjectByVersion (QueryEscape subject) "latest"))
    (Hon : cachingEnabled (client st) = true) :
  (forall url, cachingEnabled (CreateSchemaRegistryClient url) = true /\
               cacheLatest (CreateSchemaRegistryClient url) = false) /\
  (cacheLatest (client st) = false ->
   fetchedOnce st (snd (GetLatestSchema ctx subject st)) ctx
     (subjectByVersion (QueryEscape subject) "latest") /\
   forall n results st',
     repeatGo n (GetLatestSchema ctx subject) st = (Returns results, st') ->
     exists new, wire st' = wire st ++ new /\ length new = n /\
       Forall (fun x => carries x (client st) ctx "GET"
                          (subjectByVersion (QueryEscape subject) "latest") None) new) /\
  (cacheLatest (client st) = true ->
   subjectSchemaCache (client st) !! cacheKey subject "latest" = None ->
   fetchedOnce st (snd (GetLatestSchema ctx subject st)) ctx
     (subjectByVersion (QueryEscape subject) "latest") /\
   forall schema, fst (GetLatestSchema ctx subject st) = Returns (Ok schema) ->
     forall ctx' n,
       repeatGo n (GetLatestSchema ctx' subject) (snd (GetLatestSchema ctx subject st)) =
       (Returns (replicate n (Ok schema)), snd (GetLatestSchema ctx subject st))).
Proof.
  unfold GetLatestSchema. split; [intros url; split; reflexivity|]. split.
  - intros Hlatest.
    assert (Hoff : cachingEnabled (client st) && cacheable "latest" (cacheLatest (client st))
                   = false) by (rewrite Hon, Hlatest; reflexivity).
    split.
    + apply getVersion_miss; [rewrite Hoff; reflexivity | exact Hsends].
    + intros n results st' Hrun. eapply repeat_getVersion_uncached; eassumption.
  - intros Hlatest Hnone.
    assert (Hc : cacheable "latest" (cacheLatest (client st)) = true)
      by (rewrite Hlatest; reflexivity).
    assert (Hmiss : (if cachingEnabled (client st) && cacheable "latest" (cacheLatest (client st))
                     then subjectSchemaCache (client st) !! cacheKey subject "latest"
                     else None) = None) by (rewrite Hon, Hc; exact Hnone).
    destruct (getVersion_miss ctx subject "latest" st Hmiss Hsends) as (Honce & Hsame & Hhit).
    split; [exact Honce|].
    intros schema Hret ctx' n.
    destruct (forgetCaches_flags _ _ Hsame) as (Hf1 & Hf2 & _).
    apply repeat_getVersion_hit.
    + rewrite Hf1. exact Hon.
    + rewrite Hf2. exact Hc.
    + apply Hhit; assumption.
Qed.

(** ** Resetting the caches *)

Lemma ResetCache_run st :
  ResetCache st =
  (Returns tt,
   {| client := with_subjectSchemaCache ∅ (with_idSchemaCache ∅ (client st));
      world := world st; wire := wire st |}).
Proof. reflexivity. Qed.

(** C4.  Whatever calls came before and whatever they left in the two
    caches, [ResetCache] returns, leaves both maps empty and touches
    nothing else; on a client that can send, the next [GetSchema] and
    the next [GetSchemaByVersion] each send their request again, also
    when the second follows the first. *)
Theorem ResetCache_empties_both_caches (st0 : State) (ops : list Call)
    (ctx : Context) (schemaID : Z) (subject : string) (version : Z)
    (st := snd (calls ops st0))
    (Hid : sends (client st) ctx "GET" (schemaByID schemaID))
    (Hversion : sends (client st) ctx "GET"
                  (subjectByVersion (QueryEscape subject) (Itoa version))) :
  let st1 := snd (ResetCache st) in
  fst (ResetCache st) = Returns tt /\
  idSchemaCache (client st1) = ∅ /\
  subjectSchemaCache (client st1) = ∅ /\
  forgetCaches (client st1) = forgetCaches (client st) /\
  world st1 = world st /\ wire st1 = wire st /\
  fetchedOnce st1 (snd (GetSchema ctx schemaID st1)) ctx (schemaByID schemaID) /\
  fetchedOnce st1 (snd (GetSchemaByVersion ctx subject version st1)) ctx
    (subjectByVersion (QueryEscape subject) (Itoa version)) /\
  (forall r st2, GetSchema ctx schemaID st1 = (Returns r, st2) ->
     fetchedOnce st2 (snd (GetSchemaByVersion ctx subject version st2)) ctx
       (subjectByVersion (QueryEscape subject) (Itoa version))).
Proof.
  intros st1. subst st1. rewrite ResetCache_run. cbn [fst snd client world wire].
  set (c1 := with_subjectSchemaCache ∅ (with_idSchemaCache ∅ (client st))).
  set (st1 := {| client := c1; world := world st; wire := wire st |}).
  assert (Hforget : forgetCaches c1 = forgetCaches (client st)) by reflexivity.
  assert (Hid1 : sends (client st1) ctx "GET" (schemaByID schemaID))
    by (eapply sends_forgetCaches; [exact Hforget | exact Hid]).
  assert (Hversion1 : sends (client st1) ctx "GET"
            (subjectByVersion (QueryEscape subject) (Itoa version)))
    by (eapply sends_forgetCaches; [exact Hforget | exact Hversion]).
  assert (Hmiss1 : (if cachingEnabled (client st1) then idSchemaCache (client st1) !! schemaID
                    else None) = None).
  { cbn. destruct (cachingEnabled (client st)); [apply lookup_empty | reflexivity]. }
  repeat (split; [reflexivity|]).
  split; [apply (GetSchema_miss ctx schemaID st1 Hmiss1 Hid1)|].
  split.
  - apply getVersion_miss; [|exact Hversion1].
    cbn. destruct (_ && _); [apply lookup_empty | reflexivity].
  - intros r st2 Hrun.
    destruct (GetSchema_miss ctx schemaID st1 Hmiss1 Hid1) as [_ Hclient].
    rewrite Hrun in Hclient. cbn [fst snd] in Hclient. specialize (Hclient r eq_refl).
    assert (Hc2 : forgetCaches (client st2) = forgetCaches (client st1) /\
                  subjectSchemaCache (client st2) = ∅).
    { destruct r; rewrite Hclient; [|split; reflexivity].
      destruct (cachingEnabled (client st1)); split; reflexivity. }
    destruct Hc2 as [Hc2 Hempty].
    apply getVersion_miss.
    + rewrite Hempty. destruct (_ && _); [apply lookup_empty | reflexivity].
    + eapply sends_forgetCaches; [exact Hc2 | exact Hversion1].
Qed.

(** ** Deleting *)

Lemma delete_two_step ctx uri permanent st :
  sends (client st) ctx "DELETE" uri ->
  sends (client st) ctx "DELETE" (uri +:+ "?permanent=true") ->
  deletes
    ((do! r ← httpRequest ctx "DELETE" uri None;
      let err := errorOf r in
      if bool_decide (err <> None) || negb permanent
      then ret err
      else
        let uri := uri +:+ "?permanent=true" in
        do! r ← httpRequest ctx "DELETE" uri None;
        ret (errorOf r)) st) st ctx uri permanent.
Proof.
  intros Hs1 Hs2.
  destruct (httpRequest_sends ctx "DELETE" uri None st Hs1) as (x1 & w1 & Hrun1 & Hx1).
  exists x1. split; [exact Hx1|].
  unfold bind. rewrite Hrun1. cbn zeta.
  destruct (conclude (got x1)) as [body|e]; cbn [errorOf is_Ok].
  - rewrite andb_true_r. destruct permanent; cbn [negb orb andb bool_decide].
    + rewrite bool_decide_eq_false_2 by (intros H; apply H; reflexivity). cbn [orb].
      set (st1 := {| client := client st; world := w1; wire := wire st ++ [x1] |}).
      destruct (httpRequest_sends ctx "DELETE" (uri +:+ "?permanent=true") None st1 Hs2)
        as (x2 & w2 & Hrun2 & Hx2).
      exists x2. split; [exact Hx2|].
      fold st1. rewrite Hrun2. cbn. rewrite <- app_assoc. split; reflexivity.
    + rewrite orb_true_r. split; reflexivity.
  - rewrite andb_false_r. rewrite bool_decide_eq_true_2 by discriminate.
    split; reflexivity.
Qed.

(** C8.  On a client that can send both requests, [DeleteSubject] and
    [DeleteSubjectByVersion] send one DELETE on the resource; they send
    a second one, on the same resource with [?permanent=true], exactly
    when [permanent] is set and the first came back without error, and
    then return what the second gave; in every other case the first is
    the only request and they return what it gave. *)
Theorem permanent_delete_is_second_request (ctx : Context) (subject : string) (version : Z)
    (permanent : bool) (st : State)
    (Hs1 : sends (client st) ctx "DELETE" ("/subjects/" +:+ subject))
    (Hs2 : sends (client st) ctx "DELETE" (("/subjects/" +:+ subject) +:+ "?permanent=true"))
    (Hv1 : sends (client st) ctx "DELETE" (subjectByVersion subject (Itoa version)))
    (Hv2 : sends (client st) ctx "DELETE"
             (subjectByVersion subject (Itoa version) +:+ "?permanent=true")) :
  deletes (DeleteSubject ctx subject permanent st) st ctx
    ("/subjects/" +:+ subject) permanent /\
  deletes (DeleteSubjectByVersion ctx subject version permanent st) st ctx
    (subjectByVersion subject (Itoa version)) permanent.
Proof.
  split.
  - apply (delete_two_step ctx ("/subjects/" +:+ subject) permanent st Hs1 Hs2).
  - apply (delete_two_step ctx (subjectByVersion subject (Itoa version)) permanent st Hv1 Hv2).
Qed.

(** ** Line breaks in schema texts *)

Lemma matchLen_compiledRegex s :
  matchLen compiledRegex s =
  match s with
  | String c rest =>
      if decide (c = LF) then Some 1%nat
      else match rest with
           | String c' _ => if decide (c = CR /\ c' = LF) then Some 2%nat else None
           | EmptyString => None
           end
  | EmptyString => None
  end.
Proof.
  unfold matchLen, compiledRegex. cbn [matchHere].
  destruct s as [|c rest]; [reflexivity|].
  destruct (decide (c = LF)) as [->|Hlf].
  - destruct (decide (CR = LF)) as [Hcr|_]; [discriminate Hcr|].
    destruct (decide (LF = LF)) as [_|H]; [|congruence].
    f_equal. cbn [String.length]. lia.
  - destruct (decide (CR = c)) as [<-|Hcr].
    + destruct rest as [|c' rest'].
      * destruct (decide (LF = CR)); [congruence | reflexivity].
      * destruct (decide (LF = c')) as [<-|Hc'].
        -- destruct (decide (CR = CR /\ LF = LF)) as [_|H]; [|tauto].
           f_equal. cbn [String.length]. lia.
        -- destruct (decide (LF = CR)); [congruence|].
           destruct (decide (CR = CR /\ c' = LF)) as [[_ H]|_]; [congruence | reflexivity].
    + destruct (decide (LF = c)); [congruence|].
      destruct rest as [|c' rest']; [reflexivity|].
      destruct (decide (c = CR /\ c' = LF)) as [[H _]|_]; [congruence | reflexivity].
Qed.

Lemma ReplaceAllString_line_breaks text :
  ReplaceAllString compiledRegex text " " = replaceLineBreaks text.
Proof.
  unfold ReplaceAllString.
  enough (H : replaceFrom compiledRegex " " 0 text = replaceLineBreaks text /\
              match text with
              | String _ rest => replaceFrom compiledRegex " " 0 rest = replaceLineBreaks rest
              | EmptyString => True
              end) by apply H.
  induction text as [|c rest [IH IH']]; [split; reflexivity|].
  split; [|exact IH].
  cbn [replaceFrom replaceLineBreaks]. rewrite matchLen_compiledRegex.
  destruct (decide (c = LF)).
  - cbn. rewrite IH. reflexivity.
  - destruct rest as [|c' rest']; [reflexivity|].
    destruct (decide (c = CR /\ c' = LF)).
    + cbn [replaceFrom]. rewrite IH'. reflexivity.
    + rewrite IH. reflexivity.
Qed.

Lemma replaceLineBreaks_no_LF text : LF ∉ bytesOf (replaceLineBreaks text).
Proof.
  enough (H : (LF ∉ bytesOf (replaceLineBreaks text)) /\
              match text with
              | String _ rest => LF ∉ bytesOf (replaceLineBreaks rest)
              | EmptyString => True
              end) by apply H.
  induction text as [|c rest [IH IH']]; [split; [apply not_elem_of_nil | exact I]|].
  split; [|exact IH].
  cbn [replaceLineBreaks].
  destruct (decide (c = LF)).
  - cbn. apply not_elem_of_cons. split; [discriminate | exact IH].
  - destruct rest as [|c' rest'].
    + cbn. apply not_elem_of_cons. split; [congruence | apply not_elem_of_nil].
    + destruct (decide (c = CR /\ c' = LF)).
      * cbn [bytesOf]. apply not_elem_of_cons. split; [discriminate | exact IH'].
      * cbn [bytesOf]. apply not_elem_of_cons. split; [congruence | exact IH].
Qed.

(** ** Registering and looking up *)

Lemma httpRequest_wire ctx method uri payload st :
  exists new,
    wire (snd (httpRequest ctx method uri payload st)) = wire st ++ new /\
    Forall (fun y => Method (sent y) = method) new.
Proof.
  rewrite httpRequest_unfold. unfold httpRequest_closed, NewRequestWithContext.
  assert (Hnil : exists new : list Exchange,
            wire st = wire st ++ new /\ Forall (fun y => Method (sent y) = method) new).
  { exists []. rewrite app_nil_r. split; [reflexivity | constructor]. }
  destruct (NewRequestError _ _ _); [exact Hnil|].
  destruct (resolveAuth _ _ _ _) as [[req|e] w] eqn:Hauth; [|exact Hnil].
  assert (Hm : Method req = method).
  { unfold resolveAuth in Hauth.
    destruct (creds (client st)) as [cr|]; [|injection Hauth as <- _; reflexivity].
    destruct (_ && _); [injection Hauth as <- _; reflexivity|].
    destruct (bearerToken cr) as [provider|]; [|injection Hauth as <- _; reflexivity].
    destruct (ObtainToken _ _ _) as [[token|e] w1]; [|discriminate].
    injection Hauth as <- _; reflexivity. }
  destruct (decide _); [|exact Hnil].
  destruct (Do _ _ _) as [r w'].
  destruct (decide _); cbn [snd wire]; eexists; (split; [reflexivity|]);
    repeat constructor; exact Hm.
Qed.

Lemma GetSchema_wire ctx schemaID st :
  exists new,
    wire (snd (GetSchema ctx schemaID st)) = wire st ++ new /\
    Forall (fun y => Method (sent y) = "GET") new.
Proof.
  rewrite GetSchema_unfold.
  destruct (if cachingEnabled (client st) then _ else _).
  { exists []. rewrite app_nil_r. split; [reflexivity | constructor]. }
  pose proof (httpRequest_wire ctx "GET" (schemaByID schemaID) None st) as H.
  destruct (httpRequest ctx "GET" (schemaByID schemaID) None st) as [[[resp|e]| |] st1];
    cbn [snd] in H; try exact H.
  destruct (Unmarshal_schemaResponse resp) as [[schemaResp|]|e]; try exact H.
  destruct (codecFor _ _); [|exact H].
  cbn zeta. destruct (cachingEnabled (client st1)); exact H.
Qed.

Lemma updateCaches_wire subject schema st :
  wire (snd (updateCaches subject schema st)) = wire st.
Proof. apply quiet_updateCaches. Qed.

Lemma CreateSchema_unfold ctx subject schema schemaType references st :
  CreateSchema ctx subject schema schemaType references st =
  match switchSchemaType schemaType schema with
  | Err e => (Returns (Err e), st)
  | Ok schema =>
      match httpRequest ctx "POST" (subjectVersions (QueryEscape subject))
              (Some (Marshal_schemaRequest
                       {| req_Schema := schema;
                          req_SchemaType := SchemaType_String schemaType;
                          req_References := references |})) st with
      | (Returns (Ok resp), st1) =>
          match Unmarshal_schemaResponse resp with
          | Ok (Some schemaResp) =>
              match GetSchema ctx (resp_ID schemaResp) st1 with
              | (Returns (Ok newSchema), st2) =>
                  (Returns (Ok newSchema), snd (updateCaches subject newSchema st2))
              | (Returns (Err e), st2) => (Returns (Err e), st2)
              | (Blocks, st2) => (Blocks, st2)
              | (Panics, st2) => (Panics, st2)
              end
          | Ok None => (Panics, st1)
          | Err e => (Returns (Err e), st1)
          end
      | (Returns (Err e), st1) => (Returns (Err e), st1)
      | (Blocks, st1) => (Blocks, st1)
      | (Panics, st1) => (Panics, st1)
      end
  end.
Proof.
  unfold CreateSchema, tryGo, bind at 1, ret at 1.
  destruct (switchSchemaType schemaType schema) as [text|e]; [|reflexivity].
  unfold bind at 1.
  destruct (httpRequest _ _ _ _ st) as [[[resp|e]| |] st1]; try reflexivity.
  unfold bind at 1, ret at 1.
  destruct (Unmarshal_schemaResponse resp) as [[schemaResp|]|e]; try reflexivity.
  unfold bind at 1.
  destruct (GetSchema ctx (resp_ID schemaResp) st1) as [[[newSchema|e]| |] st2];
    try reflexivity.
  unfold updateCaches, getCachingEnabled; unfold bind, ret, getClient, setClient; cbn [fst snd].
  destruct (cachingEnabled (client st2)); reflexivity.
Qed.

Lemma LookupSchema_unfold ctx subject schema schemaType references st :
  LookupSchema ctx subject schema schemaType references st =
  match switchSchemaType schemaType schema with
  | Err e => (Returns (Err e), st)
  | Ok schema =>
      match httpRequest ctx "POST" (subjectBySubject (QueryEscape subject))
              (Some (Marshal_schemaRequest
                       {| req_Schema := schema;
                          req_SchemaType := SchemaType_String schemaType;
                          req_References := references |})) st with
      | (Returns (Ok resp), st1) =>
          match Unmarshal_schemaResponse resp with
          | Ok (Some schemaResp) =>
              match codecFor (codecCreationEnabled (client st1)
                              && bool_decide (schemaType = Avro))
                      (resp_Schema schemaResp) with
              | Ok codec =>
                  let gotSchema :=
                    {| s_id := resp_ID schemaResp;
                       s_schema := resp_Schema schemaResp;
                       s_schemaType := resp_SchemaType schemaResp;
                       s_version := resp_Version schemaResp;
                       s_references := resp_References schemaResp;
                       s_codec := codec;
                       s_jsonSchema := None |} in
                  (Returns (Ok gotSchema), snd (updateCaches subject gotSchema st1))
              | Err e => (Returns (Err e), st1)
              end
          | Ok None => (Panics, st1)
          | Err e => (Returns (Err e), st1)
          end
      | (Returns (Err e), st1) => (Returns (Err e), st1)
      | (Blocks, st1) => (Blocks, st1)
      | (Panics, st1) => (Panics, st1)
      end
  end.
Proof.
  unfold LookupSchema, tryGo, bind at 1, ret at 1.
  destruct (switchSchemaType schemaType schema) as [text|e]; [|reflexivity].
  unfold bind at 1.
  destruct (httpRequest _ _ _ _ st) as [[[resp|e]| |] st1]; try reflexivity.
  unfold bind at 1, ret at 1.
  destruct (Unmarshal_schemaResponse resp) as [[schemaResp|]|e]; try reflexivity.
  unfold getCodecCreationEnabled, bind at 1 2, getClient at 1, ret at 1.
  cbn [fst snd]. unfold bind at 1, ret at 1.
  destruct (codecFor _ _); [|reflexivity].
  unfold updateCaches, getCachingEnabled; unfold bind, ret, getClient, setClient; cbn [fst snd].
  destruct (cachingEnabled (client st1)); reflexivity.
Qed.

Lemma switchSchemaType_supported schemaType text :
  schemaType = Avro \/ schemaType = Json \/ schemaType = Protobuf ->
  switchSchemaType schemaType text = Ok (textToSend schemaType text).
Proof.
  unfold switchSchemaType, textToSend.
  intros [-> | [-> | ->]]; cbn; try reflexivity;
    rewrite ReplaceAllString_line_breaks; reflexivity.
Qed.

Lemma switchSchemaType_unsupported schemaType text :
  schemaType <> Avro -> schemaType <> Json -> schemaType <> Protobuf ->
  switchSchemaType schemaType text = Err invalidSchemaType.
Proof.
  intros Ha Hj Hp. unfold switchSchemaType.
  rewrite (bool_decide_eq_false_2 _ Ha), (bool_decide_eq_false_2 _ Hj),
    (bool_decide_eq_false_2 _ Hp). reflexivity.
Qed.

(** C6.  On a client that can send, for a schema type of the three:
    the first request of [CreateSchema], and the only one of
    [LookupSchema], is the POST whose body is the marshalled request
    with the schema text to send, and whatever [CreateSchema] sends
    after it is a GET.  The text to send is, for Protobuf, the text as
    given; for Avro and Json, the text with every [\r\n] and every
    other [\n] replaced by one space, which is what the regular
    expression of the code makes of it and holds no [\n]. *)
Theorem schema_text_line_breaks_replaced (ctx : Context) (subject text : string)
    (schemaType : SchemaType) (references : list Reference) (st : State)
    (Htype : schemaType = Avro \/ schemaType = Json \/ schemaType = Protobuf)
    (Hcreate : sends (client st) ctx "POST" (subjectVersions (QueryEscape subject)))
    (Hlookup : sends (client st) ctx "POST" (subjectBySubject (QueryEscape subject))) :
  (exists x rest,
     wire (snd (CreateSchema ctx subject text schemaType references st)) = wire st ++ x :: rest /\
     carries x (client st) ctx "POST" (subjectVersions (QueryEscape subject))
       (schemaPayload schemaType text references) /\
     Forall (fun y => Method (sent y) = "GET") rest) /\
  (exists x,
     wire (snd (LookupSchema ctx subject text schemaType references st)) = wire st ++ [x] /\
     carries x (client st) ctx "POST" (subjectBySubject (QueryEscape subject))
       (schemaPayload schemaType text references)) /\
  (schemaType = Protobuf -> textToSend schemaType text = text) /\
  (schemaType <> Protobuf ->
     textToSend schemaType text = replaceLineBreaks text /\
     ReplaceAllString compiledRegex text " " = replaceLineBreaks text /\
     LF ∉ bytesOf (replaceLineBreaks text)).
Proof.
  split; [|split; [|split]].
  - rewrite CreateSchema_unfold, (switchSchemaType_supported _ _ Htype).
    destruct (httpRequest_sends ctx "POST" (subjectVersions (QueryEscape subject))
                (schemaPayload schemaType text references) st Hcreate) as (x & w & Hrun & Hx).
    unfold schemaPayload in Hrun. rewrite Hrun.
    exists x.
    set (st1 := {| client := client st; world := w; wire := wire st ++ [x] |}).
    assert (Hnone : wire st1 = wire st ++ [x] /\
                    Forall (fun y : Exchange => Method (sent y) = "GET") []).
    { split; [reflexivity | constructor]. }
    destruct (conclude (got x)) as [resp|e]; [|exists []; split; [apply Hnone | auto]].
    destruct (Unmarshal_schemaResponse resp) as [[schemaResp|]|e];
      [|exists []; split; [apply Hnone | auto]|exists []; split; [apply Hnone | auto]].
    destruct (GetSchema_wire ctx (resp_ID schemaResp) st1) as (rest & Hw & Hget).
    exists rest.
    destruct (GetSchema ctx (resp_ID schemaResp) st1) as [[[newSchema|e]| |] st2];
      cbn [snd] in *; rewrite ?updateCaches_wire, Hw; cbn [wire st1];
      rewrite <- app_assoc; auto.
  - rewrite LookupSchema_unfold, (switchSchemaType_supported _ _ Htype).
    destruct (httpRequest_sends ctx "POST" (subjectBySubject (QueryEscape subject))
                (schemaPayload schemaType text references) st Hlookup) as (x & w & Hrun & Hx).
    unfold schemaPayload in Hrun. rewrite Hrun.
    exists x. split; [|exact Hx].
    destruct (conclude (got x)) as [resp|e]; [|reflexivity].
    destruct (Unmarshal_schemaResponse resp) as [[schemaResp|]|e]; try reflexivity.
    destruct (codecFor _ _); [|reflexivity].
    cbn zeta. cbn [snd]. rewrite updateCaches_wire. reflexivity.
  - intros ->. reflexivity.
  - intros Hp. unfold textToSend. rewrite (bool_decide_eq_false_2 _ Hp).
    split; [reflexivity|]. split; [apply ReplaceAllString_line_breaks|].
    apply replaceLineBreaks_no_LF.
Qed.

Lemma IsSchemaCompatible_unfold ctx subject schema version schemaType references st :
  IsSchemaCompatible ctx subject schema version schemaType references st =
  match httpRequest ctx "POST"
          ("/compatibility/subjects/" +:+ subject +:+ "/versions/" +:+ version)
          (Some (Marshal_schemaRequest
                   {| req_Schema := schema;
                      req_SchemaType := SchemaType_String schemaType;
                      req_References := references |})) st with
  | (Returns (Ok resp), st1) => (Returns (Unmarshal_isCompatibleResponse resp), st1)
  | (Returns (Err e), st1) => (Returns (Err e), st1)
  | (Blocks, st1) => (Blocks, st1)
  | (Panics, st1) => (Panics, st1)
  end.
Proof.
  unfold IsSchemaCompatible, tryGo, bind.
  destruct (httpRequest _ _ _ _ st) as [[[resp|e]| |] st1]; reflexivity.
Qed.

(** C2.  For a schema type that is none of Avro, Json and Protobuf,
    [CreateSchema] and [LookupSchema] return the error
    "invalid schema type" and leave the state, wire included, as it
    was.  [IsSchemaCompatible] has no such check: on a client that can
    send it sends its POST, the unsupported type in the body, and
    returns what the registry's answer decodes to. *)
Theorem unsupported_type_checked_by_two_of_three (ctx : Context)
    (subject text version : string) (schemaType : SchemaType)
    (references : list Reference) (st : State)
    (Havro : schemaType <> Avro) (Hjson : schemaType <> Json) (Hproto : schemaType <> Protobuf)
    (Hsends : sends (client st) ctx "POST"
                ("/compatibility/subjects/" +:+ subject +:+ "/versions/" +:+ version)) :
  CreateSchema ctx subject text schemaType references st = (Returns (Err invalidSchemaType), st) /\
  LookupSchema ctx subject text schemaType references st = (Returns (Err invalidSchemaType), st) /\
  exists x,
    wire (snd (IsSchemaCompatible ctx subject text version schemaType references st))
      = wire st ++ [x] /\
    carries x (client st) ctx "POST"
      ("/compatibility/subjects/" +:+ subject +:+ "/versions/" +:+ version)
      (Some (Marshal_schemaRequest
               {| req_Schema := text; req_SchemaType := schemaType;
                  req_References := references |})) /\
    fst (IsSchemaCompatible ctx subject text version schemaType references st) =
      Returns (match conclude (got x) with
               | Ok resp => Unmarshal_isCompatibleResponse resp
               | Err e => Err e
               end).
Proof.
  split; [|split].
  - rewrite CreateSchema_unfold, switchSchemaType_unsupported by assumption. reflexivity.
  - rewrite LookupSchema_unfold, switchSchemaType_unsupported by assumption. reflexivity.
  - rewrite IsSchemaCompatible_unfold.
    assert (Hs : SchemaType_String schemaType = schemaType).
    { unfold SchemaType_String. destruct (decide (schemaType = Avro)); [contradiction | reflexivity]. }
    rewrite Hs.
    destruct (httpRequest_sends ctx "POST"
                ("/compatibility/subjects/" +:+ subject +:+ "/versions/" +:+ version)
                (Some (Marshal_schemaRequest
                         {| req_Schema := text; req_SchemaType := schemaType;
                            req_References := references |})) st Hsends)
      as (x & w & Hrun & Hx).
    rewrite Hrun. exists x.
    destruct (conclude (got x)); repeat split; try exact Hx; apply Hx.
Qed.

(** ** The gate and the caller's context *)

(** C9.  The wait for a unit of the gate does not look at the caller's
    context.  With no unit free (other calls in flight hold them all) a
    request that can be built and authorized blocks in [httpRequest],
    also when its context is done before the call is made: nothing is
    sent, no error comes back, and the client is as it was; so does the
    public [GetSubjects].  Only a release by another call lets it go on. *)
Theorem gate_wait_ignores_done_context (ctx : Context) (method uri : string)
    (payload : option string) (st : State)
    (Hdone : Done ctx (world st) = true)
    (Hbuilt : NewRequestError ctx method (schemaRegistryURL (client st) +:+ uri) = None)
    (Hsubjects : NewRequestError ctx "GET" (schemaRegistryURL (client st) +:+ subjects) = None)
    (Htoken : tokenAnswers (client st) ctx)
    (Hfull : size (sem (client st)) - cur (sem (client st)) < 1) :
  (fst (httpRequest ctx method uri payload st) = Blocks /\
   client (snd (httpRequest ctx method uri payload st)) = client st /\
   wire (snd (httpRequest ctx method uri payload st)) = wire st) /\
  (fst (GetSubjects ctx st) = Blocks /\
   client (snd (GetSubjects ctx st)) = client st /\
   wire (snd (GetSubjects ctx st)) = wire st).
Proof.
  assert (Hcore : forall method uri payload,
            NewRequestError ctx method (schemaRegistryURL (client st) +:+ uri) = None ->
            exists w, httpRequest ctx method uri payload st =
                      (Blocks, {| client := client st; world := w; wire := wire st |})).
  { intros m u p Hb. rewrite httpRequest_unfold.
    unfold httpRequest_closed, NewRequestWithContext. rewrite Hb.
    assert (Hauth : exists req w,
      resolveAuth (creds (client st)) ctx
        {| Ctx := ctx; Method := m; URL := schemaRegistryURL (client st) +:+ u;
           Hdr := ∅; Payload := p |} (world st) = (Ok req, w)).
    { unfold resolveAuth, tokenAnswers, holdsBasic in *.
      destruct (creds (client st)) as [cr|]; [|eauto].
      destruct (bool_decide _ && bool_decide _); [eauto|].
      destruct (bearerToken cr) as [provider|]; [|eauto].
      specialize (Htoken (world st)).
      destruct (ObtainToken provider ctx (world st)) as [[token|e] w]; [|discriminate].
      eauto. }
    destruct Hauth as (req & w & ->).
    destruct (decide _); [lia|]. exists w. reflexivity. }
  split.
  - destruct (Hcore method uri payload Hbuilt) as (w & ->). repeat split.
  - unfold GetSubjects, tryGo, bind.
    destruct (Hcore "GET" subjects None Hsubjects) as (w & ->). repeat split.
Qed.

End Facts.

(** * Further properties *)

Section MoreFacts.
Context `{RT : Runtime}.

(** ** What the calls that talk to the registry keep

    A relation between states that is kept by the dispatcher and by the
    three places where the code writes its caches is kept by each of the
    fourteen calls that talk to the registry. *)

Section Talk.
Variable R : State -> State -> Prop.
Hypothesis R_refl : forall st, R st st.
Hypothesis R_trans : forall st1 st2 st3, R st1 st2 -> R st2 st3 -> R st1 st3.
Hypothesis R_httpRequest : forall ctx method uri payload,
  In method ["GET"; "POST"; "PUT"; "DELETE"] ->
  preserves R (httpRequest ctx method uri payload).
Hypothesis R_storeById : forall schemaID schema, preserves R (storeById schemaID schema).
Hypothesis R_storeByVersion : forall subject version schema,
  preserves R (storeByVersion subject version schema).
Hypothesis R_updateCaches : forall subject schema, preserves R (updateCaches subject schema).

Lemma talk_flag (flag : SchemaRegistryClient -> bool) :
  preserves R (do! c ← getClient; ret (flag c)).
Proof. intros st. apply R_refl. Qed.

Lemma talk_storeById {A} schemaID schema (k : Go A) :
  preserves R k ->
  preserves R
    (do! enabled ← getCachingEnabled;
     (if enabled
      then setClient (fun c => with_idSchemaCache (<[schemaID := schema]> (idSchemaCache c)) c)
      else ret tt);;
     k).
Proof.
  intros Hk st.
  pose proof (preserves_bind R R_trans (storeById schemaID schema) (fun _ => k)
                (R_storeById schemaID schema) (fun _ => Hk) st) as H.
  unfold storeById, getCachingEnabled, bind, getClient, ret, setClient in *.
  cbn [fst snd] in *. destruct (cachingEnabled (client st)); exact H.
Qed.

Lemma talk_storeByVersion {A} subject version schema (k : Go A) :
  preserves R k ->
  preserves R
    (do! enabled ← getCachingEnabled;
     (if enabled
      then
        do! latest ← getCacheLatest;
        (if cacheable version latest
         then setClient (fun c => with_subjectSchemaCache
                (<[cacheKey subject version := schema]> (subjectSchemaCache c)) c)
         else ret tt);;
        setClient (fun c => with_idSchemaCache (<[s_id schema := schema]> (idSchemaCache c)) c)
      else ret tt);;
     k).
Proof.
  intros Hk st.
  pose proof (preserves_bind R R_trans (storeByVersion subject version schema) (fun _ => k)
                (R_storeByVersion subject version schema) (fun _ => Hk) st) as H.
  unfold storeByVersion, getCachingEnabled, getCacheLatest, bind, getClient, ret, setClient in *.
  cbn [fst snd] in *. destruct (cachingEnabled (client st)); [|exact H].
  cbn [client] in *. destruct (cacheable version (cacheLatest (client st))); exact H.
Qed.

Ltac talk :=
  repeat first
    [ apply (preserves_ret R R_refl)
    | apply (preserves_panic R R_refl)
    | apply (preserves_getClient R R_refl)
    | apply R_httpRequest; cbn; tauto
    | apply R_updateCaches
    | apply talk_storeById
    | apply talk_storeByVersion
    | apply talk_flag
    | apply (preserves_tryGo R R_refl R_trans); [|intros ?]
    | apply (preserves_bind R R_trans); [|intros ?]
    | match goal with
      | |- preserves _ (match ?x with _ => _ end) => destruct x
      end ].

Lemma talk_GetSchema ctx schemaID : preserves R (GetSchema ctx schemaID).
Proof. unfold GetSchema, getCodecCreationEnabled. talk. Qed.

Lemma talk_getVersion ctx subject version : preserves R (getVersion ctx subject version).
Proof. unfold getVersion, getCodecCreationEnabled. talk. Qed.

Lemma talk_perform op : talks op = true -> preserves R (perform op).
Proof.
  destruct op; cbn [talks configures resets negb andb perform]; try discriminate; intros _;
    unfold GetGlobalCompatibilityLevel, GetCompatibilityLevel, GetSubjects,
      GetSubjectsIncludingDeleted, GetLatestSchema, GetSchemaVersions, GetSchemaByVersion,
      CreateSchema, LookupSchema, ChangeSubjectCompatibilityLevel, DeleteSubject,
      DeleteSubjectByVersion, IsSchemaCompatible, getCodecCreationEnabled;
    repeat first [ apply talk_GetSchema | apply talk_getVersion | progress talk ].
Qed.

End Talk.


(** ** What the dispatcher leaves of the client *)

Lemma httpRequest_client ctx method uri payload st :
  let c := client st in
  let c' := client (snd (httpRequest ctx method uri payload st)) in
  sameSettings c c' /\
  idSchemaCache c' = idSchemaCache c /\
  subjectSchemaCache c' = subjectSchemaCache c /\
  (0 <= cur (sem c) -> sem c' = sem c).
Proof.
  cbv zeta. rewrite httpRequest_unfold. unfold httpRequest_closed, sameSettings.
  destruct (NewRequestWithContext _ _ _ _) as [req|e]; [|cbn; auto 12].
  destruct (resolveAuth _ _ _ _) as [[req'|e] w]; [|cbn; auto 12].
  destruct (decide (1 <= _)); [|cbn; auto 12].
  destruct (Do _ _ _) as [r w'].
  destruct (decide (0 <= _)); cbn; [auto 12|].
  repeat split; intros; lia.
Qed.

(** The configuring calls and [ResetCache], run. *)
Ltac run_setter :=
  unfold SetCredentials, SetBearerToken, credsLock_Lock, credsLock_Unlock, SetTimeout,
    CachingEnabled, CacheLatest, CodecCreationEnabled, ResetCache,
    bind, ret, getClient, setClient, block;
  cbn [fst snd client world wire];
  repeat match goal with
         | |- context [match readers ?l with _ => _ end] => destruct (readers l)
         | |- context [if ?b then _ else _] => destruct b
         | |- context [match ?t with Some _ => _ | None => _ end] => destruct t
         end;
  cbn [fst snd client world wire].

(** *** Settings *)

Lemma keepsSettings_refl st : keepsSettings st st.
Proof. repeat split. Qed.

Lemma keepsSettings_trans st1 st2 st3 :
  keepsSettings st1 st2 -> keepsSettings st2 st3 -> keepsSettings st1 st3.
Proof.
  unfold keepsSettings, sameSettings.
  intros (?&?&?&?&?&?) (?&?&?&?&?&?). repeat split; congruence.
Qed.

Lemma keepsSettings_httpRequest ctx method uri payload :
  preserves keepsSettings (httpRequest ctx method uri payload).
Proof. intros st. apply (httpRequest_client ctx method uri payload st). Qed.

Lemma keepsSettings_httpRequest' ctx method uri payload :
  In method ["GET"; "POST"; "PUT"; "DELETE"] ->
  preserves keepsSettings (httpRequest ctx method uri payload).
Proof. intros _. apply keepsSettings_httpRequest. Qed.

Lemma keepsSettings_storeById schemaID schema :
  preserves keepsSettings (storeById schemaID schema).
Proof.
  intros st. unfold storeById, getCachingEnabled, bind, getClient, ret, setClient.
  cbn. destruct (cachingEnabled (client st)); repeat split.
Qed.

Lemma keepsSettings_storeByVersion subject version schema :
  preserves keepsSettings (storeByVersion subject version schema).
Proof.
  intros st.
  unfold storeByVersion, getCachingEnabled, getCacheLatest, bind, getClient, ret, setClient.
  cbn. destruct (cachingEnabled (client st)); [|repeat split].
  cbn. destruct (cacheable version (cacheLatest (client st))); repeat split.
Qed.

Lemma keepsSettings_updateCaches subject schema :
  preserves keepsSettings (updateCaches subject schema).
Proof.
  intros st. unfold updateCaches, getCachingEnabled, bind, getClient, ret, setClient.
  cbn. destruct (cachingEnabled (client st)); repeat split.
Qed.

Lemma keepsSettings_perform op :
  configures op = false -> preserves keepsSettings (perform op).
Proof.
  intros Hop. destruct (resets op) eqn:Hreset.
  - destruct op; try discriminate. intros st. repeat split.
  - apply talk_perform;
      auto using keepsSettings_refl, keepsSettings_httpRequest', keepsSettings_storeById,
        keepsSettings_storeByVersion, keepsSettings_updateCaches.
    + exact keepsSettings_trans.
    + unfold talks. rewrite Hop, Hreset. reflexivity.
Qed.

(** X1.  No call but the six that set a field changes a setting of the
    client: through any run of the other calls, [ResetCache] among
    them, the registry's URL, the credentials, the timeout and the three
    flags stay what they were, however each call ends. *)
Theorem only_setters_change_settings (ops : list Call) (st : State)
    (Hops : forallb (fun op => negb (configures op)) ops = true) :
  sameSettings (client st) (client (snd (calls ops st))).
Proof.
  revert st. induction ops as [|op ops IH]; intros st.
  - repeat split.
  - cbn [forallb] in Hops. apply andb_prop in Hops as [Hop Hrest].
    apply negb_true_iff in Hop.
    cbn [calls]. unfold bind.
    pose proof (keepsSettings_perform op Hop st) as H1.
    destruct (perform op st) as [[e| |] st1]; cbn [snd] in *; try exact H1.
    exact (keepsSettings_trans st st1 _ H1 (IH Hrest st1)).
Qed.


(** *** Cached entries *)

Lemma keepsEntries_refl st : keepsEntries st st.
Proof. split; auto. Qed.

Lemma keepsEntries_trans st1 st2 st3 :
  keepsEntries st1 st2 -> keepsEntries st2 st3 -> keepsEntries st1 st3.
Proof. intros [H1 H2] [H3 H4]; split; auto. Qed.

Lemma keepsEntries_httpRequest ctx method uri payload :
  preserves keepsEntries (httpRequest ctx method uri payload).
Proof.
  intros st. destruct (httpRequest_client ctx method uri payload st) as (_ & Hid & Hsub & _).
  split; intros k; [rewrite Hid | rewrite Hsub]; auto.
Qed.

Lemma is_Some_insert `{Countable K} {V} (m : gmap K V) (k k' : K) (v : V) :
  is_Some (m !! k') -> is_Some (<[k := v]> m !! k').
Proof.
  intros Hk. destruct (decide (k = k')) as [->|Hne].
  - rewrite lookup_insert_eq. eauto.
  - rewrite lookup_insert_ne by exact Hne. exact Hk.
Qed.

Lemma keepsEntries_httpRequest' ctx method uri payload :
  In method ["GET"; "POST"; "PUT"; "DELETE"] ->
  preserves keepsEntries (httpRequest ctx method uri payload).
Proof. intros _. apply keepsEntries_httpRequest. Qed.

Lemma keepsEntries_storeById schemaID schema :
  preserves keepsEntries (storeById schemaID schema).
Proof.
  intros st. unfold storeById, getCachingEnabled, bind, getClient, ret, setClient.
  cbn. destruct (cachingEnabled (client st)); cbn; split; intros k Hk;
    first [exact Hk | apply is_Some_insert, Hk].
Qed.

Lemma keepsEntries_storeByVersion subject version schema :
  preserves keepsEntries (storeByVersion subject version schema).
Proof.
  intros st.
  unfold storeByVersion, getCachingEnabled, getCacheLatest, bind, getClient, ret, setClient.
  cbn. destruct (cachingEnabled (client st)); [|split; auto].
  cbn. destruct (cacheable version (cacheLatest (client st))); cbn; split; intros k Hk;
    first [exact Hk | apply is_Some_insert, Hk].
Qed.

Lemma keepsEntries_updateCaches subject schema :
  preserves keepsEntries (updateCaches subject schema).
Proof.
  intros st. unfold updateCaches, getCachingEnabled, bind, getClient, ret, setClient.
  cbn. destruct (cachingEnabled (client st)); cbn; split; intros k Hk;
    first [exact Hk | apply is_Some_insert, Hk].
Qed.

Lemma keepsEntries_perform op : resets op = false -> preserves keepsEntries (perform op).
Proof.
  intros Hreset. destruct (configures op) eqn:Hop.
  - destruct op; try discriminate; intros st; cbn [perform];
      run_setter; split; auto.
  - apply talk_perform;
      auto using keepsEntries_refl, keepsEntries_httpRequest', keepsEntries_storeById,
        keepsEntries_storeByVersion, keepsEntries_updateCaches.
    + exact keepsEntries_trans.
    + unfold talks. rewrite Hop, Hreset. reflexivity.
Qed.

(** X2.  The caches only grow: through any run of calls without
    [ResetCache], every id and every subject-version key that has a
    schema cached still has one, however each call ends.  There is no
    eviction and no bound. *)
Theorem nothing_is_evicted (ops : list Call) (st : State)
    (Hops : forallb (fun op => negb (resets op)) ops = true) :
  (forall id, is_Some (idSchemaCache (client st) !! id) ->
              is_Some (idSchemaCache (client (snd (calls ops st))) !! id)) /\
  (forall key, is_Some (subjectSchemaCache (client st) !! key) ->
               is_Some (subjectSchemaCache (client (snd (calls ops st))) !! key)).
Proof.
  change (keepsEntries st (snd (calls ops st))).
  revert st. induction ops as [|op ops IH]; intros st.
  - apply keepsEntries_refl.
  - cbn [forallb] in Hops. apply andb_prop in Hops as [Hop Hrest].
    apply negb_true_iff in Hop.
    cbn [calls]. unfold bind.
    pose proof (keepsEntries_perform op Hop st) as H1.
    destruct (perform op st) as [[e| |] st1]; cbn [snd] in *; try exact H1.
    exact (keepsEntries_trans st st1 _ H1 (IH Hrest st1)).
Qed.

(** *** Caching switched off *)

Lemma bypassesCaches_refl st : bypassesCaches st st.
Proof. intros H; auto. Qed.

Lemma bypassesCaches_trans st1 st2 st3 :
  bypassesCaches st1 st2 -> bypassesCaches st2 st3 -> bypassesCaches st1 st3.
Proof.
  intros H1 H2 Hoff. destruct (H1 Hoff) as (Hoff2 & Hid & Hsub).
  destruct (H2 Hoff2) as (Hoff3 & Hid' & Hsub'). repeat split; congruence.
Qed.

Lemma bypassesCaches_httpRequest ctx method uri payload :
  preserves bypassesCaches (httpRequest ctx method uri payload).
Proof.
  intros st Hoff.
  destruct (httpRequest_client ctx method uri payload st) as (Hset & Hid & Hsub & _).
  destruct Hset as (_ & _ & _ & Hflag & _). repeat split; congruence.
Qed.

Lemma bypassesCaches_httpRequest' ctx method uri payload :
  In method ["GET"; "POST"; "PUT"; "DELETE"] ->
  preserves bypassesCaches (httpRequest ctx method uri payload).
Proof. intros _. apply bypassesCaches_httpRequest. Qed.

Lemma bypassesCaches_storeById schemaID schema :
  preserves bypassesCaches (storeById schemaID schema).
Proof.
  intros st Hoff. unfold storeById, getCachingEnabled, bind, getClient, ret, setClient.
  cbn. rewrite Hoff. auto.
Qed.

Lemma bypassesCaches_storeByVersion subject version schema :
  preserves bypassesCaches (storeByVersion subject version schema).
Proof.
  intros st Hoff.
  unfold storeByVersion, getCachingEnabled, getCacheLatest, bind, getClient, ret, setClient.
  cbn. rewrite Hoff. auto.
Qed.

Lemma bypassesCaches_updateCaches subject schema :
  preserves bypassesCaches (updateCaches subject schema).
Proof.
  intros st Hoff. unfold updateCaches, getCachingEnabled, bind, getClient, ret, setClient.
  cbn. rewrite Hoff. auto.
Qed.

Lemma bypassesCaches_calls ops :
  forallb talks ops = true -> preserves bypassesCaches (calls ops).
Proof.
  induction ops as [|op ops IH]; cbn [forallb calls]; intros H.
  - intros st. apply bypassesCaches_refl.
  - apply andb_prop in H as [Hop Hrest].
    apply (preserves_bind _ bypassesCaches_trans); [|intros _; apply IH, Hrest].
    apply talk_perform;
      auto using bypassesCaches_refl, bypassesCaches_httpRequest', bypassesCaches_storeById,
        bypassesCaches_storeByVersion, bypassesCaches_updateCaches.
    exact bypassesCaches_trans.
Qed.

(** X3.  Switching caching off keeps what is cached and only stops its
    use: through any run of calls that talk to the registry made while
    caching is off, both caches stay exactly what they were, and once
    caching is switched on again [GetSchema] returns, for every id that
    was cached, the schema cached before, sending nothing. *)
Theorem caching_off_keeps_the_caches (ops : list Call) (st : State)
    (Hops : forallb talks ops = true) :
  let off := snd (calls ops (snd (CachingEnabled false st))) in
  let on := snd (CachingEnabled true off) in
  idSchemaCache (client off) = idSchemaCache (client st) /\
  subjectSchemaCache (client off) = subjectSchemaCache (client st) /\
  forall ctx id schema,
    idSchemaCache (client st) !! id = Some schema ->
    GetSchema ctx id on = (Returns (Ok schema), on).
Proof.
  intros off on.
  destruct (bypassesCaches_calls ops Hops (snd (CachingEnabled false st)) eq_refl)
    as (_ & Hid & Hsub).
  fold off in Hid, Hsub. cbn in Hid, Hsub.
  split; [exact Hid|]. split; [exact Hsub|].
  intros ctx id schema Hhit. apply GetSchema_hit; [reflexivity|].
  subst on. cbn. rewrite Hid. exact Hhit.
Qed.

(** *** The gate *)

Lemma keepsGate_refl st : keepsGate st st.
Proof. intros _; reflexivity. Qed.

Lemma keepsGate_trans st1 st2 st3 :
  keepsGate st1 st2 -> keepsGate st2 st3 -> keepsGate st1 st3.
Proof.
  unfold keepsGate. intros H1 H2 Hpos. specialize (H1 Hpos).
  rewrite H2 by (rewrite H1; exact Hpos). exact H1.
Qed.

Lemma keepsGate_httpRequest ctx method uri payload :
  preserves keepsGate (httpRequest ctx method uri payload).
Proof.
  intros st. destruct (httpRequest_client ctx method uri payload st) as (_ & _ & _ & H).
  exact H.
Qed.

Lemma keepsGate_httpRequest' ctx method uri payload :
  In method ["GET"; "POST"; "PUT"; "DELETE"] ->
  preserves keepsGate (httpRequest ctx method uri payload).
Proof. intros _. apply keepsGate_httpRequest. Qed.

Lemma keepsGate_storeById schemaID schema : preserves keepsGate (storeById schemaID schema).
Proof.
  intros st _. unfold storeById, getCachingEnabled, bind, getClient, ret, setClient.
  cbn. destruct (cachingEnabled (client st)); reflexivity.
Qed.

Lemma keepsGate_storeByVersion subject version schema :
  preserves keepsGate (storeByVersion subject version schema).
Proof.
  intros st _.
  unfold storeByVersion, getCachingEnabled, getCacheLatest, bind, getClient, ret, setClient.
  cbn. destruct (cachingEnabled (client st)); [|reflexivity].
  cbn. destruct (cacheable version (cacheLatest (client st))); reflexivity.
Qed.

Lemma keepsGate_updateCaches subject schema :
  preserves keepsGate (updateCaches subject schema).
Proof.
  intros st _. unfold updateCaches, getCachingEnabled, bind, getClient, ret, setClient.
  cbn. destruct (cachingEnabled (client st)); reflexivity.
Qed.

Lemma keepsGate_perform op : preserves keepsGate (perform op).
Proof.
  destruct (talks op) eqn:Htalk.
  - apply talk_perform;
      auto using keepsGate_refl, keepsGate_httpRequest', keepsGate_storeById,
        keepsGate_storeByVersion, keepsGate_updateCaches.
    exact keepsGate_trans.
  - destruct op; try discriminate; intros st _; cbn [perform]; run_setter; reflexivity.
Qed.

(** X4.  No call keeps a unit of the gate: from a state whose gate holds
    no negative count, after any run of calls, however each of them
    ends, the gate holds what it held. *)
Theorem no_call_keeps_a_gate_unit (ops : list Call) (st : State)
    (Hgate : 0 <= cur (sem (client st))) :
  sem (client (snd (calls ops st))) = sem (client st).
Proof.
  revert st Hgate. induction ops as [|op ops IH]; intros st Hgate; [reflexivity|].
  cbn [calls]. unfold bind.
  pose proof (keepsGate_perform op st Hgate) as H1.
  destruct (perform op st) as [[e| |] st1]; cbn [snd] in *; try exact H1.
  rewrite IH by (rewrite H1; exact Hgate). exact H1.
Qed.


(** *** Requests *)

Lemma prefix_append (a b : string) : String.prefix a (a +:+ b) = true.
Proof.
  induction a as [|c a IH]; simpl.
  - destruct b; reflexivity.
  - destruct (ascii_dec c c) as [_|Hne]; [exact IH | contradiction].
Qed.

Lemma resolveAuth_keeps cr ctx req w req' w' :
  resolveAuth cr ctx req w = (Ok req', w') ->
  Ctx req' = Ctx req /\ Method req' = Method req /\ URL req' = URL req /\
  Payload req' = Payload req.
Proof.
  unfold resolveAuth. destruct cr as [cr|]; [|intros [= <- _]; auto].
  destruct (_ && _); [intros [= <- _]; auto|].
  destruct (bearerToken cr) as [provider|]; [|intros [= <- _]; auto].
  destruct (ObtainToken _ _ _) as [[token|e] w1]; [|discriminate].
  intros [= <- _]; auto.
Qed.

Lemma speaksToRegistry_refl st : speaksToRegistry st st.
Proof. split; [reflexivity|]. exists []. rewrite app_nil_r. split; [reflexivity | constructor]. Qed.

Lemma speaksToRegistry_trans st1 st2 st3 :
  speaksToRegistry st1 st2 -> speaksToRegistry st2 st3 -> speaksToRegistry st1 st3.
Proof.
  intros [Hu1 (new1 & Hw1 & Hf1)] [Hu2 (new2 & Hw2 & Hf2)].
  split; [congruence|].
  exists (new1 ++ new2). split.
  - rewrite Hw2, Hw1, app_assoc. reflexivity.
  - rewrite Hu1 in Hf2. apply Forall_app; split; assumption.
Qed.

Lemma speaksToRegistry_quiet f st :
  (forall c, schemaRegistryURL (f c) = schemaRegistryURL c) ->
  speaksToRegistry st {| client := f (client st); world := world st; wire := wire st |}.
Proof.
  intros Hf. split; [apply Hf|]. exists []. cbn. rewrite app_nil_r.
  split; [reflexivity | constructor].
Qed.

Lemma speaksToRegistry_httpRequest ctx method uri payload :
  In method ["GET"; "POST"; "PUT"; "DELETE"] ->
  preserves speaksToRegistry (httpRequest ctx method uri payload).
Proof.
  intros Hmethod st. rewrite httpRequest_unfold. unfold httpRequest_closed.
  unfold NewRequestWithContext.
  destruct (NewRequestError _ _ _); [apply speaksToRegistry_refl|].
  destruct (resolveAuth _ _ _ _) as [[req'|e] w] eqn:Hauth.
  2:{ apply (speaksToRegistry_quiet
               (with_credsLock {| readers := S (readers (credsLock (client st))) |}) st).
      reflexivity. }
  apply resolveAuth_keeps in Hauth as (_ & Hm & Hu & _). cbn in Hm, Hu.
  destruct (decide _).
  2:{ split; [reflexivity|]. exists []. cbn. rewrite app_nil_r.
      split; [reflexivity | constructor]. }
  destruct (Do _ _ _) as [r w'].
  assert (Hx : wellFormed (schemaRegistryURL (client st))
                 {| sent := withHeader (Header_Set "Content-Type" contentType) req'; got := r |}).
  { unfold wellFormed. cbn. rewrite Hu, Hm. split; [apply prefix_append|].
    split; [|apply lookup_insert_eq].
    apply list_elem_of_In. exact Hmethod. }
  destruct (decide _); (split; [reflexivity|]);
    exists [{| sent := withHeader (Header_Set "Content-Type" contentType) req'; got := r |}];
    (split; [reflexivity|]); constructor; [exact Hx | constructor | exact Hx | constructor].
Qed.

Lemma speaksToRegistry_storeById schemaID schema :
  preserves speaksToRegistry (storeById schemaID schema).
Proof.
  intros st. unfold storeById, getCachingEnabled, bind, getClient, ret, setClient.
  cbn. destruct (cachingEnabled (client st)); [|apply speaksToRegistry_refl].
  apply (speaksToRegistry_quiet
           (fun c => with_idSchemaCache (<[schemaID := schema]> (idSchemaCache c)) c) st).
  reflexivity.
Qed.

Lemma speaksToRegistry_storeByVersion subject version schema :
  preserves speaksToRegistry (storeByVersion subject version schema).
Proof.
  intros st.
  unfold storeByVersion, getCachingEnabled, getCacheLatest, bind, getClient, ret, setClient.
  cbn. destruct (cachingEnabled (client st)); [|apply speaksToRegistry_refl].
  cbn. destruct (cacheable version (cacheLatest (client st))); cbn.
  - apply (speaksToRegistry_quiet
             (fun c => with_idSchemaCache (<[s_id schema := schema]> (idSchemaCache
                (with_subjectSchemaCache
                   (<[cacheKey subject version := schema]> (subjectSchemaCache c)) c)))
                (with_subjectSchemaCache
                   (<[cacheKey subject version := schema]> (subjectSchemaCache c)) c)) st).
    reflexivity.
  - apply (speaksToRegistry_quiet
             (fun c => with_idSchemaCache (<[s_id schema := schema]> (idSchemaCache c)) c) st).
    reflexivity.
Qed.

Lemma speaksToRegistry_updateCaches subject schema :
  preserves speaksToRegistry (updateCaches subject schema).
Proof.
  intros st. unfold updateCaches, getCachingEnabled, bind, getClient, ret, setClient.
  cbn. destruct (cachingEnabled (client st)); [|apply speaksToRegistry_refl].
  apply (speaksToRegistry_quiet
           (fun c => with_idSchemaCache (<[s_id schema := schema]> (idSchemaCache
              (with_subjectSchemaCache
                 (<[cacheKey subject (Itoa (s_version schema)) := schema]>
                    (subjectSchemaCache c)) c)))
              (with_subjectSchemaCache
                 (<[cacheKey subject (Itoa (s_version schema)) := schema]>
                    (subjectSchemaCache c)) c)) st).
  reflexivity.
Qed.

Lemma speaksToRegistry_perform op : preserves speaksToRegistry (perform op).
Proof.
  destruct (talks op) eqn:Htalk.
  - apply talk_perform;
      auto using speaksToRegistry_refl, speaksToRegistry_httpRequest,
        speaksToRegistry_storeById, speaksToRegistry_storeByVersion,
        speaksToRegistry_updateCaches.
    exact speaksToRegistry_trans.
  - destruct op; try discriminate; intros st; cbn [perform]; run_setter;
      first [ apply speaksToRegistry_refl
            | match goal with
              | |- speaksToRegistry ?s {| client := ?c; world := _; wire := _ |} =>
                  split; [reflexivity|]; exists []; cbn; rewrite app_nil_r;
                  split; [reflexivity | constructor]
              end ].
Qed.

(** X5.  Whatever is called, every request that leaves the client goes
    to a URL that begins with the registry's URL as given at
    construction, uses GET, POST, PUT or DELETE, and carries the
    registry's media type as its one [Content-Type]; and no call
    changes that URL. *)
Theorem every_request_goes_to_the_registry (ops : list Call) (st : State) :
  schemaRegistryURL (client (snd (calls ops st))) = schemaRegistryURL (client st) /\
  exists new,
    wire (snd (calls ops st)) = wire st ++ new /\
    Forall (wellFormed (schemaRegistryURL (client st))) new.
Proof.
  change (speaksToRegistry st (snd (calls ops st))).
  revert st. induction ops as [|op ops IH]; intros st.
  - apply speaksToRegistry_refl.
  - cbn [calls]. unfold bind.
    pose proof (speaksToRegistry_perform op st) as H1.
    destruct (perform op st) as [[e| |] st1]; cbn [snd] in *; try exact H1.
    exact (speaksToRegistry_trans st st1 _ H1 (IH st1)).
Qed.

End MoreFacts.


(** * What is cached and what is served *)

Section Served.
Context `{RT : Runtime}.

(** ** What is cached, and what is served from it *)

Lemma Itoa_not_latest v : Itoa v <> "latest".
Proof.
  unfold Itoa. destruct v as [|p|p]; cbn; try discriminate;
    destruct (Pos.to_uint p); cbn; discriminate.
Qed.

Lemma cacheable_Itoa v latest : cacheable (Itoa v) latest = true.
Proof.
  unfold cacheable. rewrite bool_decide_eq_false_2 by apply Itoa_not_latest. reflexivity.
Qed.

(** An answer of the dispatcher that is a body has cost one request and
    has left the client as it was. *)
Lemma httpRequest_answer ctx method uri payload st body st1 :
  httpRequest ctx method uri payload st = (Returns (Ok body), st1) ->
  client st1 = client st /\
  exists x, wire st1 = wire st ++ [x] /\
            carries x (client st) ctx method uri payload /\
            conclude (got x) = Ok body.
Proof.
  rewrite httpRequest_unfold. unfold httpRequest_closed, NewRequestWithContext.
  destruct (NewRequestError _ _ _); [discriminate|].
  destruct (resolveAuth _ _ _ _) as [[req|e] w] eqn:Hauth; [|discriminate].
  assert (Hreq : Ctx req = ctx /\ Method req = method /\
                 URL req = schemaRegistryURL (client st) +:+ uri /\ Payload req = payload).
  { unfold resolveAuth in Hauth.
    destruct (creds (client st)) as [cr|]; [|injection Hauth as <- _; auto].
    destruct (_ && _); [injection Hauth as <- _; auto|].
    destruct (bearerToken cr) as [provider|]; [|injection Hauth as <- _; auto].
    destruct (ObtainToken _ _ _) as [[token|e] w1]; [|discriminate].
    injection Hauth as <- _; auto. }
  destruct (decide _); [|discriminate].
  destruct (Do _ _ _) as [r w'].
  destruct (decide _); [|discriminate].
  intros [= Hr <-]. split; [reflexivity|].
  eexists. split; [reflexivity|]. split; [exact Hreq | exact Hr].
Qed.

Lemma GetSchema_flag ctx schemaID st :
  cachingEnabled (client (snd (GetSchema ctx schemaID st))) = cachingEnabled (client st).
Proof.
  pose proof (keepsSettings_perform (CallGetSchema ctx schemaID) eq_refl st) as H.
  cbn [perform] in H. unfold bind in H.
  destruct (GetSchema ctx schemaID st) as [[r| |] st1]; cbn [snd] in *;
    destruct H as (_ & _ & _ & H & _); exact H.
Qed.

(** What [updateCaches] leaves when caching is on. *)
Lemma updateCaches_on subject schema st :
  cachingEnabled (client st) = true ->
  let st' := snd (updateCaches subject schema st) in
  cachingEnabled (client st') = true /\
  idSchemaCache (client st') !! s_id schema = Some schema /\
  subjectSchemaCache (client st') !! cacheKey subject (Itoa (s_version schema)) = Some schema.
Proof.
  intros Hon. unfold updateCaches, getCachingEnabled, bind, getClient, ret, setClient.
  cbn [fst snd]. rewrite Hon. cbn. rewrite Hon.
  split; [reflexivity|]. split; apply lookup_insert_eq.
Qed.

Lemma served_after_updateCaches subject schema st :
  cachingEnabled (client st) = true ->
  let st' := snd (updateCaches subject schema st) in
  forall ctx,
    GetSchema ctx (s_id schema) st' = (Returns (Ok schema), st') /\
    GetSchemaByVersion ctx subject (s_version schema) st' = (Returns (Ok schema), st').
Proof.
  intros Hon st' ctx.
  destruct (updateCaches_on subject schema st Hon) as (Hon' & Hid & Hkey). fold st' in Hon', Hid, Hkey.
  split.
  - apply GetSchema_hit; assumption.
  - apply getVersion_hit; [assumption | apply cacheable_Itoa | assumption].
Qed.

(** X6.  A schema fetched by subject and version is also cached by its
    id: when caching is on and [getVersion] (under [GetLatestSchema] and
    [GetSchemaByVersion]) does not answer from its cache and returns a
    schema, a [GetSchema] with that schema's id returns the same schema
    and sends nothing, also for the latest version when latest versions
    are not cached. *)
Theorem fetching_a_version_fills_the_id_cache ctx subject version st schema st'
    (Hon : cachingEnabled (client st) = true)
    (Hmiss : (if cacheable version (cacheLatest (client st))
              then subjectSchemaCache (client st) !! cacheKey subject version
              else None) = None)
    (Hrun : getVersion ctx subject version st = (Returns (Ok schema), st')) :
  wire st' <> wire st /\
  forall ctx', GetSchema ctx' (s_id schema) st' = (Returns (Ok schema), st').
Proof.
  rewrite getVersion_unfold, Hon in Hrun. cbn [andb] in Hrun. rewrite Hmiss in Hrun.
  destruct (httpRequest _ _ _ _ st) as [[[resp|e]| |] st1] eqn:Hreq; try discriminate.
  apply httpRequest_answer in Hreq as (Hc & x & Hw & _).
  assert (Hflag : cachingEnabled (client st1) = true) by (rewrite Hc; exact Hon).
  destruct (Unmarshal_schemaResponse resp) as [[schemaResp|]|e]; try discriminate.
  destruct (codecFor _ _) as [codec|e]; try discriminate.
  cbv zeta in Hrun. rewrite Hflag in Hrun.
  injection Hrun as <- <-. split.
  - cbn [wire]. rewrite Hw. intros H. apply (f_equal length) in H.
    rewrite length_app in H. cbn in H. lia.
  - intros ctx'. apply GetSchema_hit.
    + cbn. destruct (cacheable version (cacheLatest (client st1))); cbn; exact Hflag.
    + cbn. apply lookup_insert_eq.
Qed.

(** X7.  What [CreateSchema] returns is cached under both keys: when
    caching is on and [CreateSchema] returns a schema, a [GetSchema]
    with that schema's id and a [GetSchemaByVersion] with the subject
    and that schema's version both return the same schema and send
    nothing. *)
Theorem registering_fills_both_caches ctx subject schema schemaType references st
    newSchema st'
    (Hon : cachingEnabled (client st) = true)
    (Hrun : CreateSchema ctx subject schema schemaType references st
            = (Returns (Ok newSchema), st')) :
  forall ctx',
    GetSchema ctx' (s_id newSchema) st' = (Returns (Ok newSchema), st') /\
    GetSchemaByVersion ctx' subject (s_version newSchema) st' = (Returns (Ok newSchema), st').
Proof.
  rewrite CreateSchema_unfold in Hrun.
  destruct (switchSchemaType schemaType schema) as [text|e]; [|discriminate].
  destruct (httpRequest _ _ _ _ st) as [[[resp|e]| |] st1] eqn:Hreq; try discriminate.
  apply httpRequest_answer in Hreq as (Hc & _).
  destruct (Unmarshal_schemaResponse resp) as [[schemaResp|]|e]; try discriminate.
  pose proof (GetSchema_flag ctx (resp_ID schemaResp) st1) as Hflag.
  destruct (GetSchema ctx (resp_ID schemaResp) st1) as [[[got|e]| |] st2]; try discriminate.
  cbn [snd] in Hflag. rewrite Hc, Hon in Hflag.
  injection Hrun as <- <-.
  apply served_after_updateCaches, Hflag.
Qed.

(** X8.  What [LookupSchema] returns is cached under both keys: when
    caching is on and [LookupSchema] returns a schema, a [GetSchema]
    with that schema's id and a [GetSchemaByVersion] with the subject
    and that schema's version both return the same schema and send
    nothing. *)
Theorem looking_up_fills_both_caches ctx subject schema schemaType references st
    gotSchema st'
    (Hon : cachingEnabled (client st) = true)
    (Hrun : LookupSchema ctx subject schema schemaType references st
            = (Returns (Ok gotSchema), st')) :
  forall ctx',
    GetSchema ctx' (s_id gotSchema) st' = (Returns (Ok gotSchema), st') /\
    GetSchemaByVersion ctx' subject (s_version gotSchema) st' = (Returns (Ok gotSchema), st').
Proof.
  rewrite LookupSchema_unfold in Hrun.
  destruct (switchSchemaType schemaType schema) as [text|e]; [|discriminate].
  destruct (httpRequest _ _ _ _ st) as [[[resp|e]| |] st1] eqn:Hreq; try discriminate.
  apply httpRequest_answer in Hreq as (Hc & _).
  destruct (Unmarshal_schemaResponse resp) as [[schemaResp|]|e]; try discriminate.
  destruct (codecFor _ _) as [codec|e]; [|discriminate].
  cbv zeta in Hrun. injection Hrun as <- <-.
  apply served_after_updateCaches. rewrite Hc. exact Hon.
Qed.

(** ** The calls that write no cache *)

Lemma keepsCaches_refl st : keepsCaches st st.
Proof. repeat split. Qed.

Lemma keepsCaches_trans st1 st2 st3 :
  keepsCaches st1 st2 -> keepsCaches st2 st3 -> keepsCaches st1 st3.
Proof.
  intros (Hs1 & Hi1 & Hk1) (Hs2 & Hi2 & Hk2). split; [|split].
  - exact (keepsSettings_trans st1 st2 st3 Hs1 Hs2).
  - rewrite Hi2. exact Hi1.
  - rewrite Hk2. exact Hk1.
Qed.

Lemma keepsCaches_httpRequest ctx method uri payload :
  preserves keepsCaches (httpRequest ctx method uri payload).
Proof.
  intros st. destruct (httpRequest_client ctx method uri payload st) as (Hs & Hi & Hk & _).
  split; [exact Hs|]. split; [exact Hi | exact Hk].
Qed.

Ltac plainly :=
  repeat first
    [ apply (preserves_ret keepsCaches keepsCaches_refl)
    | apply (preserves_panic keepsCaches keepsCaches_refl)
    | apply keepsCaches_httpRequest
    | apply (preserves_tryGo keepsCaches keepsCaches_refl keepsCaches_trans); [|intros ?]
    | apply (preserves_bind keepsCaches keepsCaches_trans); [|intros ?]
    | match goal with
      | |- preserves _ (match ?x with _ => _ end) => destruct x
      | |- preserves _ (if ?x then _ else _) => destruct x
      end ].

Lemma keepsCaches_perform op : plain op = true -> preserves keepsCaches (perform op).
Proof.
  destruct op; cbn [plain perform]; try discriminate; intros _;
    unfold GetGlobalCompatibilityLevel, GetCompatibilityLevel, GetSubjects,
      GetSubjectsIncludingDeleted, GetSchemaVersions, ChangeSubjectCompatibilityLevel,
      DeleteSubject, DeleteSubjectByVersion, IsSchemaCompatible;
    plainly.
Qed.

Lemma keepsCaches_calls ops :
  forallb plain ops = true -> preserves keepsCaches (calls ops).
Proof.
  induction ops as [|op ops IH]; cbn [forallb calls]; intros H.
  - apply (preserves_ret keepsCaches keepsCaches_refl).
  - apply andb_prop in H as [Hop Hops].
    apply (preserves_bind keepsCaches keepsCaches_trans);
      [apply keepsCaches_perform, Hop | intros _; apply IH, Hops].
Qed.

(** X9.  Deleting, and every other call without a line that writes a
    cache, leaves both caches exactly as they are, so what is cached
    keeps being served: after any run of such calls, [DeleteSubject] and
    [DeleteSubjectByVersion] among them and however each ends, with
    caching on [GetSchema] and [GetSchemaByVersion] return for every
    cached id and every cached subject and version the schema cached
    before, sending nothing. *)
Theorem deleted_schemas_are_still_served (ops : list Call) (st : State)
    (Hops : forallb plain ops = true)
    (Hon : cachingEnabled (client st) = true) :
  let st' := snd (calls ops st) in
  idSchemaCache (client st') = idSchemaCache (client st) /\
  subjectSchemaCache (client st') = subjectSchemaCache (client st) /\
  (forall ctx id schema,
     idSchemaCache (client st) !! id = Some schema ->
     GetSchema ctx id st' = (Returns (Ok schema), st')) /\
  (forall ctx subject version schema,
     subjectSchemaCache (client st) !! cacheKey subject (Itoa version) = Some schema ->
     GetSchemaByVersion ctx subject version st' = (Returns (Ok schema), st')).
Proof.
  intros st'. destruct (keepsCaches_calls ops Hops st) as (Hs & Hi & Hk).
  fold st' in Hs, Hi, Hk.
  assert (Hon' : cachingEnabled (client st') = true).
  { destruct Hs as (_ & _ & _ & H & _). rewrite H. exact Hon. }
  split; [exact Hi|]. split; [exact Hk|]. split.
  - intros ctx id schema Hhit. apply GetSchema_hit; [exact Hon'|]. rewrite Hi. exact Hhit.
  - intros ctx subject version schema Hhit.
    apply getVersion_hit; [exact Hon' | apply cacheable_Itoa |]. rewrite Hk. exact Hhit.
Qed.

End Served.


(** * Calls that fail *)

Section Failures.
Context `{RT : Runtime}.

(** ** Calls that fail *)

Lemma errorOf_failed {A} (m : Go (result A)) st e :
  fst ((do! r ← m; ret (errorOf r)) st) = Returns (Some e) ->
  fst (m st) = Returns (Err e) /\ snd ((do! r ← m; ret (errorOf r)) st) = snd (m st).
Proof.
  unfold bind, ret. destruct (m st) as [[[a|e']| |] st1]; cbn; intros [=]; subst; auto.
Qed.

Lemma GetSchema_failed ctx schemaID st e :
  fst (GetSchema ctx schemaID st) = Returns (Err e) ->
  keepsCaches st (snd (GetSchema ctx schemaID st)).
Proof.
  rewrite GetSchema_unfold.
  destruct (if cachingEnabled (client st) then _ else _); [discriminate|].
  pose proof (keepsCaches_httpRequest ctx "GET" (schemaByID schemaID) None st) as H.
  destruct (httpRequest _ _ _ _ st) as [[[resp|e']| |] st1]; cbn [fst snd] in *;
    try discriminate; [|intros _; exact H].
  destruct (Unmarshal_schemaResponse resp) as [[schemaResp|]|e']; cbn [fst snd];
    try discriminate; [|intros _; exact H].
  destruct (codecFor _ _); cbn [fst snd]; [discriminate | intros _; exact H].
Qed.

Lemma getVersion_failed ctx subject version st e :
  fst (getVersion ctx subject version st) = Returns (Err e) ->
  keepsCaches st (snd (getVersion ctx subject version st)).
Proof.
  rewrite getVersion_unfold.
  destruct (if cachingEnabled (client st) && _ then _ else _); [discriminate|].
  pose proof (keepsCaches_httpRequest ctx "GET"
                (subjectByVersion (QueryEscape subject) version) None st) as H.
  destruct (httpRequest _ _ _ _ st) as [[[resp|e']| |] st1]; cbn [fst snd] in *;
    try discriminate; [|intros _; exact H].
  destruct (Unmarshal_schemaResponse resp) as [[schemaResp|]|e']; cbn [fst snd];
    try discriminate; [|intros _; exact H].
  destruct (codecFor _ _); cbn [fst snd]; [discriminate | intros _; exact H].
Qed.

Lemma CreateSchema_failed ctx subject schema schemaType references st e :
  fst (CreateSchema ctx subject schema schemaType references st) = Returns (Err e) ->
  keepsCaches st (snd (CreateSchema ctx subject schema schemaType references st)).
Proof.
  rewrite CreateSchema_unfold.
  destruct (switchSchemaType schemaType schema) as [text|e'];
    [|intros _; apply keepsCaches_refl].
  match goal with
  | |- context [httpRequest ?c ?m ?u ?p st] =>
      pose proof (keepsCaches_httpRequest c m u p st) as H
  end.
  destruct (httpRequest _ _ _ _ st) as [[[resp|e']| |] st1]; cbn [fst snd] in *;
    try discriminate; [|intros _; exact H].
  destruct (Unmarshal_schemaResponse resp) as [[schemaResp|]|e']; cbn [fst snd];
    try discriminate; [|intros _; exact H].
  pose proof (GetSchema_failed ctx (resp_ID schemaResp) st1) as Hget.
  destruct (GetSchema ctx (resp_ID schemaResp) st1) as [[[newSchema|e']| |] st2];
    cbn [fst snd] in *; try discriminate.
  intros _. exact (keepsCaches_trans st st1 st2 H (Hget e' eq_refl)).
Qed.

Lemma LookupSchema_failed ctx subject schema schemaType references st e :
  fst (LookupSchema ctx subject schema schemaType references st) = Returns (Err e) ->
  keepsCaches st (snd (LookupSchema ctx subject schema schemaType references st)).
Proof.
  rewrite LookupSchema_unfold.
  destruct (switchSchemaType schemaType schema) as [text|e'];
    [|intros _; apply keepsCaches_refl].
  match goal with
  | |- context [httpRequest ?c ?m ?u ?p st] =>
      pose proof (keepsCaches_httpRequest c m u p st) as H
  end.
  destruct (httpRequest _ _ _ _ st) as [[[resp|e']| |] st1]; cbn [fst snd] in *;
    try discriminate; [|intros _; exact H].
  destruct (Unmarshal_schemaResponse resp) as [[schemaResp|]|e']; cbn [fst snd];
    try discriminate; [|intros _; exact H].
  destruct (codecFor _ _); cbn [fst snd]; [discriminate | intros _; exact H].
Qed.

(** X10.  A call that returns an error has cached nothing: whenever a
    call of the interface returns an error, whichever it is (the type
    switch, the transport, the registry's status, the decoding, the
    codec), both caches are exactly what they were before the call. *)
Theorem failed_calls_cache_nothing (op : Call) (st : State) (e : error)
    (Hfail : fst (perform op st) = Returns (Some e)) :
  idSchemaCache (client (snd (perform op st))) = idSchemaCache (client st) /\
  subjectSchemaCache (client (snd (perform op st))) = subjectSchemaCache (client st).
Proof.
  assert (H : keepsCaches st (snd (perform op st))); [|destruct H as (_ & Hi & Hk); auto].
  destruct (plain op) eqn:Hplain; [apply keepsCaches_perform, Hplain|].
  destruct op; cbn [plain] in Hplain; try discriminate Hplain; cbn [perform] in Hfail |- *;
    try (apply errorOf_failed in Hfail as [Hfail ->]);
    try (exfalso; revert Hfail; unfold bind, ret;
         match goal with
         | |- context [?m st] => destruct (m st) as [[[]| |] ?]
         end; cbn [fst]; discriminate).
  - exact (GetSchema_failed _ _ _ e Hfail).
  - exact (getVersion_failed _ _ _ _ e Hfail).
  - exact (getVersion_failed _ _ _ _ e Hfail).
  - exact (CreateSchema_failed _ _ _ _ _ _ e Hfail).
  - exact (LookupSchema_failed _ _ _ _ _ _ e Hfail).
Qed.

End Failures.


(** * The request a call opens with *)

Section Opening.
Context `{RT : Runtime}.

Lemma wire_refl (st : State) : exists new, wire st = wire st ++ new.
Proof. exists []. symmetry. apply app_nil_r. Qed.

Lemma idMiss c schemaID :
  cachingEnabled c && bool_decide (is_Some (idSchemaCache c !! schemaID)) = false ->
  (if cachingEnabled c then idSchemaCache c !! schemaID else None) = None.
Proof.
  destruct (cachingEnabled c); [|reflexivity]. cbn [andb]. intros H.
  apply bool_decide_eq_false in H.
  destruct (idSchemaCache c !! schemaID) as [s|] eqn:E; [|reflexivity].
  exfalso. apply H. exists s. reflexivity.
Qed.

Lemma versionMiss c subject version :
  cachingEnabled c && cacheable version (cacheLatest c)
    && bool_decide (is_Some (subjectSchemaCache c !! cacheKey subject version)) = false ->
  (if cachingEnabled c && cacheable version (cacheLatest c)
   then subjectSchemaCache c !! cacheKey subject version else None) = None.
Proof.
  destruct (cachingEnabled c && cacheable version (cacheLatest c)); [|reflexivity].
  cbn [andb]. intros H. apply bool_decide_eq_false in H.
  destruct (subjectSchemaCache c !! cacheKey subject version) as [s|] eqn:E; [|reflexivity].
  exfalso. apply H. exists s. reflexivity.
Qed.

Ltac opened_here :=
  unfold ret; cbn [fst snd wire decodesToNil];
  split; [apply wire_refl | first [reflexivity | discriminate | tauto]].

Lemma GetSchema_opens ctx schemaID st :
  cachingEnabled (client st) && bool_decide (is_Some (idSchemaCache (client st) !! schemaID))
    = false ->
  opened (fun body => Unmarshal_schemaResponse body = Ok None)
    ((do! r ← GetSchema ctx schemaID; ret (errorOf r)) st)
    (httpRequest ctx "GET" (schemaByID schemaID) None st).
Proof.
  intros Hmiss. apply idMiss in Hmiss.
  unfold opened, bind. rewrite GetSchema_unfold, Hmiss. unfold ret.
  destruct (httpRequest _ _ _ _ st) as [[[body|e]| |] st1]; cbn [fst snd];
    try opened_here.
  destruct (Unmarshal_schemaResponse body) as [[schemaResp|]|e]; try opened_here.
  destruct (codecFor _ _); cbv zeta; [|opened_here].
  split; [|discriminate].
  destruct (cachingEnabled (client st1)); unfold ret; cbn [snd wire]; apply wire_refl.
Qed.

Lemma getVersion_opens ctx subject version st req :
  opensVersion (client st) ctx subject version = Some req ->
  req = (ctx, "GET", subjectByVersion (QueryEscape subject) version, None) /\
  opened (fun body => Unmarshal_schemaResponse body = Ok None)
    ((do! r ← getVersion ctx subject version; ret (errorOf r)) st)
    (httpRequest ctx "GET" (subjectByVersion (QueryEscape subject) version) None st).
Proof.
  unfold opensVersion.
  destruct (_ && bool_decide _) eqn:Hmiss; [discriminate|]. intros [= <-].
  split; [reflexivity|]. apply versionMiss in Hmiss.
  unfold opened, bind. rewrite getVersion_unfold, Hmiss. unfold ret.
  destruct (httpRequest _ _ _ _ st) as [[[body|e]| |] st1]; cbn [fst snd];
    try opened_here.
  destruct (Unmarshal_schemaResponse body) as [[schemaResp|]|e]; try opened_here.
  destruct (codecFor _ _); cbv zeta; [|opened_here].
  split; [|discriminate].
  destruct (cachingEnabled (client st1)); unfold ret; cbn [snd wire]; apply wire_refl.
Qed.

Lemma CreateSchema_opens ctx subject schema schemaType references st text :
  switchSchemaType schemaType schema = Ok text ->
  opened (fun body => Unmarshal_schemaResponse body = Ok None)
    ((do! r ← CreateSchema ctx subject schema schemaType references; ret (errorOf r)) st)
    (httpRequest ctx "POST" (subjectVersions (QueryEscape subject))
       (Some (Marshal_schemaRequest
                {| req_Schema := text; req_SchemaType := SchemaType_String schemaType;
                   req_References := references |})) st).
Proof.
  intros Htext. unfold opened, bind. rewrite CreateSchema_unfold, Htext. unfold ret.
  destruct (httpRequest _ _ _ _ st) as [[[body|e]| |] st1]; cbn [fst snd];
    try opened_here.
  destruct (Unmarshal_schemaResponse body) as [[schemaResp|]|e]; try opened_here.
  split; [|discriminate].
  destruct (GetSchema_wire ctx (resp_ID schemaResp) st1) as (new & Hnew & _).
  destruct (GetSchema ctx (resp_ID schemaResp) st1) as [[[newSchema|e]| |] st2];
    cbn [fst snd] in *; try (exists new; exact Hnew).
  exists new. rewrite updateCaches_wire. exact Hnew.
Qed.

Lemma LookupSchema_opens ctx subject schema schemaType references st text :
  switchSchemaType schemaType schema = Ok text ->
  opened (fun body => Unmarshal_schemaResponse body = Ok None)
    ((do! r ← LookupSchema ctx subject schema schemaType references; ret (errorOf r)) st)
    (httpRequest ctx "POST" (subjectBySubject (QueryEscape subject))
       (Some (Marshal_schemaRequest
                {| req_Schema := text; req_SchemaType := SchemaType_String schemaType;
                   req_References := references |})) st).
Proof.
  intros Htext. unfold opened, bind. rewrite LookupSchema_unfold, Htext. unfold ret.
  destruct (httpRequest _ _ _ _ st) as [[[body|e]| |] st1]; cbn [fst snd];
    try opened_here.
  destruct (Unmarshal_schemaResponse body) as [[schemaResp|]|e]; try opened_here.
  destruct (codecFor _ _); cbv zeta; [|opened_here].
  split; [|discriminate]. cbn [snd]. rewrite updateCaches_wire. apply wire_refl.
Qed.

Lemma delete_opens ctx uri permanent st :
  opened (fun _ => False)
    ((do! r ← httpRequest ctx "DELETE" uri None;
      let err := errorOf r in
      if bool_decide (err <> None) || negb permanent
      then ret err
      else
        let uri := uri +:+ "?permanent=true" in
        do! r ← httpRequest ctx "DELETE" uri None;
        ret (errorOf r)) st)
    (httpRequest ctx "DELETE" uri None st).
Proof.
  unfold opened, bind.
  destruct (httpRequest ctx "DELETE" uri None st) as [[[body|e]| |] st1]; cbn [fst snd];
    try opened_here.
  split; [|tauto]. cbn zeta. cbn [errorOf].
  rewrite bool_decide_eq_false_2 by (intros H; apply H; reflexivity). cbn [orb].
  destruct permanent; cbn [negb]; [|apply wire_refl].
  unfold bind, ret.
  destruct (httpRequest_wire ctx "DELETE" (uri +:+ "?permanent=true") None st1)
    as (new & Hnew & _).
  destruct (httpRequest ctx "DELETE" (uri +:+ "?permanent=true") None st1)
    as [[r| |] st2]; cbn [snd] in *; exists new; exact Hnew.
Qed.

Lemma perform_opens op st ctx method uri payload :
  opens op (client st) = Some (ctx, method, uri, payload) ->
  opened (decodesToNil op) (perform op st) (httpRequest ctx method uri payload st).
Proof.
  destruct op; cbn [opens perform]; try discriminate; unfold opened; cbn [decodesToNil].
  - intros [= <- <- <- <-]. unfold opened, GetGlobalCompatibilityLevel, tryGo, bind, ret.
    destruct (httpRequest _ _ _ _ st) as [[[body|e]| |] st1]; cbn [fst snd];
      try opened_here.
    destruct (Unmarshal_configResponse body) as [[level|]|e]; opened_here.
  - intros [= <- <- <- <-]. unfold opened, GetCompatibilityLevel, tryGo, bind, ret.
    destruct (httpRequest _ _ _ _ st) as [[[body|e]| |] st1]; cbn [fst snd];
      try opened_here.
    destruct (Unmarshal_configResponse body) as [[level|]|e]; opened_here.
  - intros [= <- <- <- <-]. unfold opened, GetSubjects, tryGo, bind, ret.
    destruct (httpRequest _ _ _ _ st) as [[[body|e]| |] st1]; cbn [fst snd]; opened_here.
  - intros [= <- <- <- <-]. unfold opened, GetSubjectsIncludingDeleted, tryGo, bind, ret.
    destruct (httpRequest _ _ _ _ st) as [[[body|e]| |] st1]; cbn [fst snd]; opened_here.
  - destruct (_ && _) eqn:Hmiss; [discriminate|]. intros [= <- <- <- <-].
    apply GetSchema_opens, Hmiss.
  - intros H. apply getVersion_opens in H as [[= <- <- <- <-] H]. exact H.
  - intros [= <- <- <- <-]. unfold opened, GetSchemaVersions, tryGo, bind, ret.
    destruct (httpRequest _ _ _ _ st) as [[[body|e]| |] st1]; cbn [fst snd]; opened_here.
  - intros H. apply getVersion_opens in H as [[= <- <- <- <-] H]. exact H.
  - destruct (switchSchemaType schemaType schema) as [text|e] eqn:Htext; [|discriminate].
    intros [= <- <- <- <-]. apply CreateSchema_opens, Htext.
  - destruct (switchSchemaType schemaType schema) as [text|e] eqn:Htext; [|discriminate].
    intros [= <- <- <- <-]. apply LookupSchema_opens, Htext.
  - intros [= <- <- <- <-].
    unfold opened, ChangeSubjectCompatibilityLevel, tryGo, bind, ret.
    destruct (httpRequest _ _ _ _ st) as [[[body|e]| |] st1]; cbn [fst snd];
      try opened_here.
    destruct (Unmarshal_configChangeResponse body) as [[level|]|e]; opened_here.
  - intros [= <- <- <- <-]. apply delete_opens.
  - intros [= <- <- <- <-]. apply delete_opens.
  - intros [= <- <- <- <-]. unfold opened. unfold bind. rewrite IsSchemaCompatible_unfold. unfold ret.
    destruct (httpRequest _ _ _ _ st) as [[[body|e]| |] st1]; cbn [fst snd]; opened_here.
Qed.

Lemma perform_silent op st :
  opens op (client st) = None -> wire (snd (perform op st)) = wire st.
Proof.
  destruct op; cbn [opens perform]; try discriminate.
  - destruct (cachingEnabled (client st)) eqn:Hon; [|discriminate]. cbn [andb].
    destruct (bool_decide _) eqn:Hhit; [|discriminate]. intros _.
    apply bool_decide_eq_true in Hhit as [schema Hhit].
    unfold bind. rewrite (GetSchema_hit ctx schemaID schema st Hon Hhit). reflexivity.
  - unfold opensVersion, GetLatestSchema.
    destruct (cachingEnabled (client st)) eqn:Hon; [|discriminate]. cbn [andb].
    destruct (cacheable _ _) eqn:Hc; [|discriminate]. cbn [andb].
    destruct (bool_decide _) eqn:Hhit; [|discriminate]. intros _.
    apply bool_decide_eq_true in Hhit as [schema Hhit].
    unfold bind. rewrite (getVersion_hit ctx subject _ schema st Hon Hc Hhit). reflexivity.
  - unfold opensVersion, GetSchemaByVersion.
    destruct (cachingEnabled (client st)) eqn:Hon; [|discriminate]. cbn [andb].
    destruct (cacheable _ _) eqn:Hc; [|discriminate]. cbn [andb].
    destruct (bool_decide _) eqn:Hhit; [|discriminate]. intros _.
    apply bool_decide_eq_true in Hhit as [schema Hhit].
    unfold bind. rewrite (getVersion_hit ctx subject _ schema st Hon Hc Hhit). reflexivity.
  - destruct (switchSchemaType schemaType schema) as [text|e] eqn:Htext; [discriminate|].
    intros _. unfold bind. rewrite CreateSchema_unfold, Htext. reflexivity.
  - destruct (switchSchemaType schemaType schema) as [text|e] eqn:Htext; [discriminate|].
    intros _. unfold bind. rewrite LookupSchema_unfold, Htext. reflexivity.
  - intros _. unfold bind. rewrite SetCredentials_run.
    destruct (readers _); [|reflexivity]. destruct (_ && _); reflexivity.
  - intros _. unfold bind. rewrite SetBearerToken_run.
    destruct (readers _); [|reflexivity]. destruct token; reflexivity.
  - reflexivity.
  - reflexivity.
  - reflexivity.
  - reflexivity.
  - reflexivity.
Qed.

(** X11.  A token provider that fails costs the client its credentials
    lock: when the call opens with a request and the provider of the
    bearer token in use returns an error, the call returns that error
    and nothing is sent, but the read lock taken by the dispatcher is
    not released, and from then on [SetCredentials] and
    [SetBearerToken] block. *)
Theorem failed_token_blocks_the_setters op st ctx method uri payload cr provider e w
    (Hopens : opens op (client st) = Some (ctx, method, uri, payload))
    (Hnew : NewRequestError ctx method (schemaRegistryURL (client st) +:+ uri) = None)
    (Hcreds : creds (client st) = Some cr)
    (Hbasic : holdsBasic cr = false)
    (Hbearer : bearerToken cr = Some provider)
    (Htoken : ObtainToken provider ctx (world st) = (Err e, w)) :
  let st' := snd (perform op st) in
  fst (perform op st) = Returns (Some e) /\
  wire st' = wire st /\
  readers (credsLock (client st')) = S (readers (credsLock (client st))) /\
  (forall user pass, fst (SetCredentials user pass st') = Blocks) /\
  (forall token, fst (SetBearerToken token st') = Blocks).
Proof.
  intros st'.
  destruct (token_error_keeps_read_lock ctx method uri payload st cr provider e w
              Hnew Hcreds Hbasic Hbearer Htoken) as (Hfst & Hread & Hwire & Hset & Hsetb).
  destruct (perform_opens op st ctx method uri payload Hopens) as [_ Hrun].
  rewrite Hfst in Hrun. subst st'. rewrite Hrun. cbn [fst snd].
  repeat split; assumption.
Qed.

(** X12.  A body that decodes to a [nil] pointer crashes the call: when
    the first request of [GetSchema], [GetLatestSchema],
    [GetSchemaByVersion], [CreateSchema], [LookupSchema],
    [GetGlobalCompatibilityLevel], [GetCompatibilityLevel] or
    [ChangeSubjectCompatibilityLevel] is answered with a body that its
    decoder turns into a [nil] pointer without an error (the JSON
    [null]), the call panics instead of returning an error. *)
Theorem null_body_panics op st ctx method uri payload body st1
    (Hopens : opens op (client st) = Some (ctx, method, uri, payload))
    (Hfirst : httpRequest ctx method uri payload st = (Returns (Ok body), st1))
    (Hnil : decodesToNil op body) :
  perform op st = (Panics, st1).
Proof.
  destruct (perform_opens op st ctx method uri payload Hopens) as [_ Hrun].
  rewrite Hfirst in Hrun. exact (Hrun Hnil).
Qed.

(** X13.  Each call opens with the request of the table [opens], and a
    call the table gives none sends nothing: a setter, [ResetCache], a
    [GetSchema] or a fetch by version whose answer is cached, a
    [CreateSchema] or [LookupSchema] with an unsupported type.  On a
    client that can send, the first exchange a call adds to the wire
    carries the call's context, the table's method, the registry's URL
    followed by the table's path, and the table's payload; the subject
    is escaped in every path but those of [DeleteSubject],
    [DeleteSubjectByVersion] and [IsSchemaCompatible]. *)
Theorem calls_open_with_their_request (op : Call) (st : State) :
  match opens op (client st) with
  | None => wire (snd (perform op st)) = wire st
  | Some (ctx, method, uri, payload) =>
      sends (client st) ctx method uri ->
      exists x rest,
        wire (snd (perform op st)) = wire st ++ x :: rest /\
        carries x (client st) ctx method uri payload
  end.
Proof.
  destruct (opens op (client st)) as [[[[ctx method] uri] payload]|] eqn:Hopens;
    [|apply perform_silent, Hopens].
  intros Hsends.
  destruct (perform_opens op st ctx method uri payload Hopens) as [[rest Hrest] _].
  destruct (httpRequest_sends ctx method uri payload st Hsends) as (x & w & Hrun & Hx).
  rewrite Hrun in Hrest. cbn [snd wire] in Hrest.
  exists x, rest. split; [|exact Hx]. rewrite Hrest, <- app_assoc. reflexivity.
Qed.

End Opening.


(** * The keys of the cache by subject and version *)

Section Keys.
Context `{RT : Runtime}.

Lemma append_nil (b : string) : "" +:+ b = b.
Proof. reflexivity. Qed.

Lemma append_cons (x : ascii) (a b : string) : String x a +:+ b = String x (a +:+ b).
Proof. reflexivity. Qed.

Lemma append_assoc' (a b c : string) : (a +:+ b) +:+ c = a +:+ (b +:+ c).
Proof.
  induction a as [|x a IH]; [reflexivity|].
  rewrite !append_cons. f_equal. exact IH.
Qed.

Lemma dash_in_the_middle (a b : string) : dashFree (a +:+ String "-" b) = false.
Proof.
  induction a as [|x a IH]; [reflexivity|].
  rewrite append_cons. cbn [dashFree]. rewrite IH. apply andb_false_r.
Qed.

(** The last dash of a key splits it. *)
Lemma cacheKey_split subject1 subject2 version1 version2 :
  dashFree version1 = true -> dashFree version2 = true ->
  cacheKey subject1 version1 = cacheKey subject2 version2 ->
  subject1 = subject2 /\ version1 = version2.
Proof.
  unfold cacheKey. intros H1 H2. revert subject2.
  induction subject1 as [|x s1 IH]; intros [|y s2];
    rewrite ?append_cons, ?append_nil; intros Hkey.
  - injection Hkey as Hkey. split; [reflexivity | exact Hkey].
  - injection Hkey as _ Hkey. subst. rewrite dash_in_the_middle in H1. discriminate.
  - injection Hkey as _ Hkey. subst. rewrite dash_in_the_middle in H2. discriminate.
  - injection Hkey as Hc Hkey. subst. destruct (IH s2) as [-> ->].
    + rewrite ?append_cons, ?append_nil. exact Hkey.
    + split; reflexivity.
Qed.

Lemma dashFree_digits d : dashFree (NilEmpty.string_of_uint d) = true.
Proof. induction d; cbn; auto. Qed.

Lemma dashFree_Itoa n : 0 <= n -> dashFree (Itoa n) = true.
Proof.
  unfold Itoa. destruct n as [|p|p]; [reflexivity | intros _ | lia].
  cbn. unfold NilZero.string_of_uint.
  destruct (Pos.to_uint p) eqn:Hp; try (rewrite <- Hp; apply dashFree_digits). reflexivity.
Qed.

Lemma Itoa_inj n m : Itoa n = Itoa m -> n = m.
Proof.
  unfold Itoa. intros H. apply DecimalZ.to_int_inj.
  assert (Hok : forall z, NilZero.int_of_string (NilZero.string_of_int (Z.to_int z))
                          = Some (Z.to_int z)).
  { intros z. apply NilZero.isi; destruct z as [|p|p]; cbn; try discriminate;
      intros [= Hp]; exact (DecimalPos.Unsigned.to_uint_nonnil p Hp). }
  pose proof (Hok n) as Hn. rewrite H, Hok in Hn. injection Hn as Hn. symmetry. exact Hn.
Qed.

Lemma dashFree_servedVersion version : servedVersion version -> dashFree version = true.
Proof. intros [-> | (n & Hn & ->)]; [reflexivity | apply dashFree_Itoa, Hn]. Qed.

(** X14.  No two entries share a key: for versions as the calls that
    take them pass them on, the word [latest] or the decimal text of a
    number that is not negative, equal cache keys mean the same subject
    and the same version, whatever dashes the subjects contain. *)
Theorem cacheKey_unambiguous subject1 subject2 version1 version2
    (H1 : servedVersion version1) (H2 : servedVersion version2)
    (Hkey : cacheKey subject1 version1 = cacheKey subject2 version2) :
  subject1 = subject2 /\ version1 = version2 /\
  (forall n m, version1 = Itoa n -> version2 = Itoa m -> n = m).
Proof.
  destruct (cacheKey_split subject1 subject2 version1 version2
              (dashFree_servedVersion _ H1) (dashFree_servedVersion _ H2) Hkey) as [Hs Hv].
  split; [exact Hs|]. split; [exact Hv|].
  intros n m -> ->. apply Itoa_inj, Hv.
Qed.

Lemma cacheKey_negative subject p :
  cacheKey subject (Itoa (Z.neg p)) = cacheKey (subject +:+ "-") (Itoa (Z.pos p)).
Proof.
  unfold cacheKey, Itoa. cbn [Z.to_int NilZero.string_of_int].
  rewrite append_assoc'. rewrite !append_cons, !append_nil. reflexivity.
Qed.

(** X15.  A negative version shares its key with another subject: the
    key of version [-p] of a subject is the key of version [p] of the
    subject with a dash appended, so with caching on
    [GetSchemaByVersion] for version [-p] returns, without asking the
    registry, whatever is cached for version [p] of that other subject. *)
Theorem negative_version_shares_a_key ctx subject p schema st
    (Hon : cachingEnabled (client st) = true)
    (Hcached : subjectSchemaCache (client st) !! cacheKey (subject +:+ "-") (Itoa (Z.pos p))
               = Some schema) :
  GetSchemaByVersion ctx subject (Z.neg p) st = (Returns (Ok schema), st).
Proof.
  unfold GetSchemaByVersion.
  apply getVersion_hit; [exact Hon | apply cacheable_Itoa |].
  rewrite cacheKey_negative. exact Hcached.
Qed.

End Keys.


(** * What the caches hold *)

Section Sound.
Context `{RT : Runtime}.

Lemma codecFor_sound enabled text codec :
  codecFor enabled text = Ok codec ->
  forall c, codec = Some c -> NewCodec text = Ok c.
Proof.
  unfold codecFor. destruct enabled; [|intros [= <-]; discriminate].
  destruct (NewCodec text) as [c'|e]; [|discriminate].
  intros [= <-] c [= <-]. reflexivity.
Qed.

Lemma sound_same c c' :
  idSchemaCache c' = idSchemaCache c -> subjectSchemaCache c' = subjectSchemaCache c ->
  cachesSound c -> cachesSound c'.
Proof. unfold cachesSound. intros -> ->. tauto. Qed.

Lemma sound_insert_id c schemaID schema :
  cachesSound c -> s_id schema = schemaID -> codecSound schema ->
  cachesSound (with_idSchemaCache (<[schemaID := schema]> (idSchemaCache c)) c).
Proof.
  intros [Hid Hkey] Hs Hc. split; cbn; [|exact Hkey].
  intros k s. destruct (decide (k = schemaID)) as [->|Hne].
  - rewrite lookup_insert_eq. intros [= <-]. split; assumption.
  - rewrite lookup_insert_ne by congruence. apply Hid.
Qed.

Lemma sound_insert_key c key schema :
  cachesSound c -> codecSound schema ->
  cachesSound (with_subjectSchemaCache (<[key := schema]> (subjectSchemaCache c)) c).
Proof.
  intros [Hid Hkey] Hc. split; cbn; [exact Hid|].
  intros k s. destruct (decide (k = key)) as [->|Hne].
  - rewrite lookup_insert_eq. intros [= <-]. exact Hc.
  - rewrite lookup_insert_ne by congruence. apply Hkey.
Qed.

Lemma sound_httpRequest ctx method uri payload st :
  cachesSound (client st) ->
  cachesSound (client (snd (httpRequest ctx method uri payload st))).
Proof.
  destruct (keepsCaches_httpRequest ctx method uri payload st) as (_ & Hi & Hk).
  apply sound_same; assumption.
Qed.

Lemma GetSchema_sound ctx schemaID st :
  cachesSound (client st) ->
  cachesSound (client (snd (GetSchema ctx schemaID st))) /\
  forall schema, fst (GetSchema ctx schemaID st) = Returns (Ok schema) ->
    s_id schema = schemaID /\ codecSound schema.
Proof.
  intros Hsound. rewrite GetSchema_unfold.
  destruct (if cachingEnabled (client st) then _ else _) as [cached|] eqn:Hhit.
  { split; [exact Hsound|]. intros schema [= <-].
    destruct (cachingEnabled (client st)); [|discriminate].
    apply (proj1 Hsound), Hhit. }
  pose proof (sound_httpRequest ctx "GET" (schemaByID schemaID) None st Hsound) as H1.
  destruct (httpRequest _ _ _ _ st) as [[[body|e]| |] st1]; cbn [fst snd] in *;
    try (split; [exact H1 | discriminate]).
  destruct (Unmarshal_schemaResponse body) as [[schemaResp|]|e];
    try (split; [exact H1 | discriminate]).
  destruct (codecFor _ _) as [codec|e] eqn:Hcodec; [|split; [exact H1 | discriminate]].
  cbv zeta. cbn [fst snd].
  assert (Hc : codecSound
                 {| s_id := schemaID; s_schema := resp_Schema schemaResp;
                    s_schemaType := resp_SchemaType schemaResp;
                    s_version := resp_Version schemaResp;
                    s_references := resp_References schemaResp;
                    s_codec := codec; s_jsonSchema := None |}).
  { intros c Hsome. exact (codecFor_sound _ _ _ Hcodec c Hsome). }
  split.
  - destruct (cachingEnabled (client st1)); [|exact H1].
    apply sound_insert_id; [exact H1 | reflexivity | exact Hc].
  - intros schema [= <-]. split; [reflexivity | exact Hc].
Qed.

Lemma getVersion_sound ctx subject version st :
  cachesSound (client st) ->
  cachesSound (client (snd (getVersion ctx subject version st))) /\
  forall schema, fst (getVersion ctx subject version st) = Returns (Ok schema) ->
    codecSound schema.
Proof.
  intros Hsound. rewrite getVersion_unfold.
  destruct (if cachingEnabled (client st) && _ then _ else _) as [cached|] eqn:Hhit.
  { split; [exact Hsound|]. intros schema [= <-].
    destruct (cachingEnabled (client st) && _); [|discriminate].
    apply (proj2 Hsound _ _ Hhit). }
  pose proof (sound_httpRequest ctx "GET" (subjectByVersion (QueryEscape subject) version)
                None st Hsound) as H1.
  destruct (httpRequest _ _ _ _ st) as [[[body|e]| |] st1]; cbn [fst snd] in *;
    try (split; [exact H1 | discriminate]).
  destruct (Unmarshal_schemaResponse body) as [[schemaResp|]|e];
    try (split; [exact H1 | discriminate]).
  destruct (codecFor _ _) as [codec|e] eqn:Hcodec; [|split; [exact H1 | discriminate]].
  cbv zeta. cbn [fst snd].
  assert (Hc : codecSound
                 {| s_id := resp_ID schemaResp; s_schema := resp_Schema schemaResp;
                    s_schemaType := resp_SchemaType schemaResp;
                    s_version := resp_Version schemaResp;
                    s_references := resp_References schemaResp;
                    s_codec := codec; s_jsonSchema := None |}).
  { intros c Hsome. exact (codecFor_sound _ _ _ Hcodec c Hsome). }
  split.
  - destruct (cachingEnabled (client st1)); [|exact H1]. cbn [client].
    apply sound_insert_id; [|reflexivity | exact Hc].
    destruct (cacheable version (cacheLatest (client st1))); [|exact H1].
    apply sound_insert_key; [exact H1 | exact Hc].
  - intros schema [= <-]. exact Hc.
Qed.

Lemma updateCaches_sound subject schema st :
  cachesSound (client st) -> codecSound schema ->
  cachesSound (client (snd (updateCaches subject schema st))).
Proof.
  intros Hsound Hc. unfold updateCaches, getCachingEnabled, bind, getClient, ret, setClient.
  cbn [fst snd]. destruct (cachingEnabled (client st)); [|exact Hsound]. cbn [snd client].
  apply sound_insert_id; [|reflexivity | exact Hc].
  apply sound_insert_key; [exact Hsound | exact Hc].
Qed.

Lemma CreateSchema_sound ctx subject schema schemaType references st :
  cachesSound (client st) ->
  cachesSound (client (snd (CreateSchema ctx subject schema schemaType references st))).
Proof.
  intros Hsound. rewrite CreateSchema_unfold.
  destruct (switchSchemaType schemaType schema) as [text|e]; [|exact Hsound].
  match goal with
  | |- context [httpRequest ?c ?m ?u ?p st] =>
      pose proof (sound_httpRequest c m u p st Hsound) as H1
  end.
  destruct (httpRequest _ _ _ _ st) as [[[body|e]| |] st1]; cbn [fst snd] in *;
    try exact H1.
  destruct (Unmarshal_schemaResponse body) as [[schemaResp|]|e]; try exact H1.
  destruct (GetSchema_sound ctx (resp_ID schemaResp) st1 H1) as [H2 Hret].
  destruct (GetSchema ctx (resp_ID schemaResp) st1) as [[[newSchema|e]| |] st2];
    cbn [fst snd] in *; try exact H2.
  apply updateCaches_sound; [exact H2 | apply (Hret newSchema eq_refl)].
Qed.

Lemma LookupSchema_sound ctx subject schema schemaType references st :
  cachesSound (client st) ->
  cachesSound (client (snd (LookupSchema ctx subject schema schemaType references st))).
Proof.
  intros Hsound. rewrite LookupSchema_unfold.
  destruct (switchSchemaType schemaType schema) as [text|e]; [|exact Hsound].
  match goal with
  | |- context [httpRequest ?c ?m ?u ?p st] =>
      pose proof (sound_httpRequest c m u p st Hsound) as H1
  end.
  destruct (httpRequest _ _ _ _ st) as [[[body|e]| |] st1]; cbn [fst snd] in *;
    try exact H1.
  destruct (Unmarshal_schemaResponse body) as [[schemaResp|]|e]; try exact H1.
  destruct (codecFor _ _) as [codec|e] eqn:Hcodec; [|exact H1].
  cbv zeta. cbn [snd].
  apply updateCaches_sound; [exact H1|].
  intros c Hsome. exact (codecFor_sound _ _ _ Hcodec c Hsome).
Qed.

Lemma errorOf_state {A} (m : Go (result A)) st :
  client (snd ((do! r ← m; ret (errorOf r)) st)) = client (snd (m st)).
Proof. unfold bind, ret. destruct (m st) as [[r| |] st1]; reflexivity. Qed.

Lemma perform_sound op st :
  cachesSound (client st) -> cachesSound (client (snd (perform op st))).
Proof.
  intros Hsound. destruct (plain op) eqn:Hplain.
  { destruct (keepsCaches_perform op Hplain st) as (_ & Hi & Hk).
    exact (sound_same _ _ Hi Hk Hsound). }
  destruct op; cbn [plain] in Hplain; try discriminate Hplain; cbn [perform];
    rewrite ?errorOf_state.
  - apply GetSchema_sound, Hsound.
  - apply getVersion_sound, Hsound.
  - apply getVersion_sound, Hsound.
  - apply CreateSchema_sound, Hsound.
  - apply LookupSchema_sound, Hsound.
  - unfold bind. rewrite SetCredentials_run.
    destruct (readers _); [|exact Hsound]. destruct (_ && _); exact Hsound.
  - unfold bind. rewrite SetBearerToken_run.
    destruct (readers _); [|exact Hsound]. destruct token; exact Hsound.
  - exact Hsound.
  - exact Hsound.
  - exact Hsound.
  - split; cbn; intros k s; rewrite lookup_empty; discriminate.
  - exact Hsound.
Qed.

Lemma calls_sound ops st :
  cachesSound (client st) -> cachesSound (client (snd (calls ops st))).
Proof.
  revert st. induction ops as [|op ops IH]; intros st Hsound; [exact Hsound|].
  cbn [calls]. unfold bind.
  pose proof (perform_sound op st Hsound) as H1.
  destruct (perform op st) as [[e| |] st1]; cbn [snd] in *; try exact H1.
  apply IH, H1.
Qed.

(** X16.  What the client caches and returns is consistent: from a state
    whose caches are (the empty ones of a new client, say), after any
    run of calls, every schema cached under an id has that id, and a
    codec held by a cached schema is the Avro codec of that schema's
    text.  So [GetSchema] never returns a schema with another id than
    the one asked for, and [Codec] on what it returns gives a codec
    exactly when the schema's text compiles, and then that codec. *)
Theorem cached_schemas_are_sound (ops : list Call) (st : State)
    (Hsound : cachesSound (client st)) :
  let st' := snd (calls ops st) in
  cachesSound (client st') /\
  forall ctx schemaID schema,
    fst (GetSchema ctx schemaID st') = Returns (Ok schema) ->
    Schema_ID schema = schemaID /\
    forall codec, fst (Schema_Codec schema) = Some codec <->
                  NewCodec (Schema_Schema schema) = Ok codec.
Proof.
  intros st'. pose proof (calls_sound ops st Hsound) as H. fold st' in H.
  split; [exact H|]. intros ctx schemaID schema Hret.
  destruct (GetSchema_sound ctx schemaID st' H) as [_ Hs].
  destruct (Hs schema Hret) as [Hid Hc]. split; [exact Hid|].
  intros codec. unfold Schema_Codec, Schema_Schema.
  destruct (s_codec schema) as [c|] eqn:Hcodec; cbn [fst].
  - rewrite (Hc c Hcodec). split; intros [= <-]; reflexivity.
  - destruct (NewCodec (s_schema schema)) as [c|e]; cbn [fst];
      split; intros [= <-]; reflexivity.
Qed.

End Sound.


(** * Codecs and the gate *)

Section Edges.
Context `{RT : Runtime}.

Lemma codecFor_on text codec :
  codecFor true text = Ok codec -> exists c, codec = Some c /\ NewCodec text = Ok c.
Proof.
  unfold codecFor. destruct (NewCodec text) as [c|e]; [|discriminate].
  intros [= <-]. exists c. split; reflexivity.
Qed.

Lemma GetSchema_codec ctx schemaID st schema st' :
  (if cachingEnabled (client st) then idSchemaCache (client st) !! schemaID else None) = None ->
  GetSchema ctx schemaID st = (Returns (Ok schema), st') ->
  if codecCreationEnabled (client st)
  then exists codec, s_codec schema = Some codec /\ NewCodec (s_schema schema) = Ok codec
  else s_codec schema = None.
Proof.
  intros Hmiss Hrun. rewrite GetSchema_unfold, Hmiss in Hrun.
  destruct (httpRequest _ _ _ _ st) as [[[body|e]| |] st1] eqn:Hreq; try discriminate.
  apply httpRequest_answer in Hreq as (Hc & _).
  destruct (Unmarshal_schemaResponse body) as [[schemaResp|]|e]; try discriminate.
  rewrite Hc in Hrun.
  destruct (codecFor _ _) as [codec|e] eqn:Hcodec; [|discriminate].
  cbv zeta in Hrun. injection Hrun as <- _. cbn [s_codec s_schema].
  destruct (codecCreationEnabled (client st)).
  - apply codecFor_on in Hcodec as (c & -> & Hc'). exists c. split; [reflexivity | exact Hc'].
  - injection Hcodec as <-. reflexivity.
Qed.

Lemma getVersion_codec ctx subject version st schema st' :
  (if cachingEnabled (client st) && cacheable version (cacheLatest (client st))
   then subjectSchemaCache (client st) !! cacheKey subject version else None) = None ->
  getVersion ctx subject version st = (Returns (Ok schema), st') ->
  if codecCreationEnabled (client st)
  then exists codec, s_codec schema = Some codec /\ NewCodec (s_schema schema) = Ok codec
  else s_codec schema = None.
Proof.
  intros Hmiss Hrun. rewrite getVersion_unfold, Hmiss in Hrun.
  destruct (httpRequest _ _ _ _ st) as [[[body|e]| |] st1] eqn:Hreq; try discriminate.
  apply httpRequest_answer in Hreq as (Hc & _).
  destruct (Unmarshal_schemaResponse body) as [[schemaResp|]|e]; try discriminate.
  rewrite Hc in Hrun.
  destruct (codecFor _ _) as [codec|e] eqn:Hcodec; [|discriminate].
  cbv zeta in Hrun. injection Hrun as <- _. cbn [s_codec s_schema].
  destruct (codecCreationEnabled (client st)).
  - apply codecFor_on in Hcodec as (c & -> & Hc'). exists c. split; [reflexivity | exact Hc'].
  - injection Hcodec as <-. reflexivity.
Qed.

(** X17.  Codec creation does not look at the schema's type when a
    schema is fetched: with codec creation on, a [GetSchema] or a fetch
    by version ([GetLatestSchema], [GetSchemaByVersion]) that is not
    answered from the cache returns a schema only if the schema's text
    compiles as an Avro schema, and the schema then holds that codec,
    whatever type the registry reports for it; with codec creation off
    the schema holds no codec. *)
Theorem fetches_compile_whatever_the_type ctx st schema st'
    (Hcold : idSchemaCache (client st) = ∅ /\ subjectSchemaCache (client st) = ∅) :
  let compiled :=
    if codecCreationEnabled (client st)
    then exists codec, s_codec schema = Some codec /\ NewCodec (s_schema schema) = Ok codec
    else s_codec schema = None in
  (forall schemaID, GetSchema ctx schemaID st = (Returns (Ok schema), st') -> compiled) /\
  (forall subject, GetLatestSchema ctx subject st = (Returns (Ok schema), st') -> compiled) /\
  (forall subject version,
     GetSchemaByVersion ctx subject version st = (Returns (Ok schema), st') -> compiled).
Proof.
  destruct Hcold as [Hid Hkey]. cbv zeta.
  assert (Hm1 : forall schemaID,
            (if cachingEnabled (client st) then idSchemaCache (client st) !! schemaID
             else None) = None).
  { intros schemaID. rewrite Hid, lookup_empty. destruct (cachingEnabled _); reflexivity. }
  assert (Hm2 : forall subject version,
            (if cachingEnabled (client st) && cacheable version (cacheLatest (client st))
             then subjectSchemaCache (client st) !! cacheKey subject version
             else None) = None).
  { intros subject version. rewrite Hkey, lookup_empty. destruct (_ && _); reflexivity. }
  split; [|split].
  - intros schemaID. apply GetSchema_codec, Hm1.
  - intros subject. apply getVersion_codec, Hm2.
  - intros subject version. apply getVersion_codec, Hm2.
Qed.

(** X18.  [LookupSchema] compiles a codec for Avro only: the schema it
    returns holds a codec, the Avro codec of its text, when codec
    creation is on and the type passed is Avro, and no codec
    otherwise, so that a JSON or Protobuf lookup never fails in the
    Avro compiler. *)
Theorem lookup_compiles_avro_only ctx subject schema schemaType references st gotSchema st'
    (Hrun : LookupSchema ctx subject schema schemaType references st
            = (Returns (Ok gotSchema), st')) :
  if codecCreationEnabled (client st) && bool_decide (schemaType = Avro)
  then exists codec, s_codec gotSchema = Some codec /\
                     NewCodec (s_schema gotSchema) = Ok codec
  else s_codec gotSchema = None.
Proof.
  rewrite LookupSchema_unfold in Hrun.
  destruct (switchSchemaType schemaType schema) as [text|e]; [|discriminate].
  destruct (httpRequest _ _ _ _ st) as [[[body|e]| |] st1] eqn:Hreq; try discriminate.
  apply httpRequest_answer in Hreq as (Hc & _).
  destruct (Unmarshal_schemaResponse body) as [[schemaResp|]|e]; try discriminate.
  rewrite Hc in Hrun.
  destruct (codecFor _ _) as [codec|e] eqn:Hcodec; [|discriminate].
  cbv zeta in Hrun. injection Hrun as <- _. cbn [s_codec s_schema].
  destruct (codecCreationEnabled (client st) && bool_decide (schemaType = Avro)).
  - apply codecFor_on in Hcodec as (c & -> & Hc'). exists c. split; [reflexivity | exact Hc'].
  - injection Hcodec as <-. reflexivity.
Qed.

(** ** A gate with no unit to give *)

Lemma staysShut_refl st : staysShut st st.
Proof. intros _. split; reflexivity. Qed.

Lemma staysShut_trans st1 st2 st3 :
  staysShut st1 st2 -> staysShut st2 st3 -> staysShut st1 st3.
Proof.
  intros H1 H2 Hshut. destruct (H1 Hshut) as [Hs1 Hw1].
  destruct H2 as [Hs2 Hw2]; [rewrite Hs1; exact Hshut|].
  split; [rewrite Hs2; exact Hs1 | rewrite Hw2; exact Hw1].
Qed.

Lemma staysShut_quiet {A} (m : Go A) : quiet m -> preserves staysShut m.
Proof. intros H st _. destruct (H st) as [Hw Hs]. split; assumption. Qed.

Lemma staysShut_httpRequest ctx method uri payload :
  In method ["GET"; "POST"; "PUT"; "DELETE"] ->
  preserves staysShut (httpRequest ctx method uri payload).
Proof.
  intros _ st Hshut. rewrite httpRequest_unfold. unfold httpRequest_closed.
  destruct (NewRequestWithContext _ _ _ _) as [req|e]; [|split; reflexivity].
  destruct (resolveAuth _ _ _ _) as [[req'|e] w]; [|split; reflexivity].
  destruct (decide (1 <= _)); [lia | split; reflexivity].
Qed.

Lemma staysShut_storeById schemaID schema : preserves staysShut (storeById schemaID schema).
Proof.
  apply staysShut_quiet. intros st.
  unfold storeById, getCachingEnabled, bind, getClient, ret, setClient.
  cbn. destruct (cachingEnabled (client st)); split; reflexivity.
Qed.

Lemma staysShut_storeByVersion subject version schema :
  preserves staysShut (storeByVersion subject version schema).
Proof.
  apply staysShut_quiet. intros st.
  unfold storeByVersion, getCachingEnabled, getCacheLatest, bind, getClient, ret, setClient.
  cbn. destruct (cachingEnabled (client st)); [|split; reflexivity].
  cbn. destruct (cacheable version (cacheLatest (client st))); split; reflexivity.
Qed.

Lemma staysShut_updateCaches subject schema :
  preserves staysShut (updateCaches subject schema).
Proof. apply staysShut_quiet, quiet_updateCaches. Qed.

Lemma staysShut_perform op : preserves staysShut (perform op).
Proof.
  destruct (talks op) eqn:Htalk.
  - apply talk_perform;
      auto using staysShut_refl, staysShut_httpRequest, staysShut_storeById,
        staysShut_storeByVersion, staysShut_updateCaches.
    exact staysShut_trans.
  - destruct op; try discriminate; intros st _; cbn [perform]; unfold bind;
      rewrite ?SetCredentials_run, ?SetBearerToken_run;
      try (destruct (readers _));
      try match goal with |- context [if ?b then _ else _] => destruct b end;
      try match goal with |- context [match ?t with Some _ => _ | None => _ end] =>
            destruct t end;
      split; reflexivity.
Qed.

(** X19.  A gate with no unit to give lets nothing through, ever: from a
    state whose gate has no free unit, a client made with a weight of
    zero for instance, no run of calls sends a request, and the gate is
    the same after it. *)
Theorem a_shut_gate_never_opens (ops : list Call) (st : State)
    (Hshut : size (sem (client st)) - cur (sem (client st)) < 1) :
  wire (snd (calls ops st)) = wire st /\
  sem (client (snd (calls ops st))) = sem (client st).
Proof.
  revert st Hshut. induction ops as [|op ops IH]; intros st Hshut; [split; reflexivity|].
  cbn [calls]. unfold bind.
  destruct (staysShut_perform op st Hshut) as [Hs Hw].
  destruct (perform op st) as [[e| |] st1]; cbn [snd] in *; try (split; assumption).
  destruct (IH st1) as [Hw' Hs']; [rewrite Hs; exact Hshut|].
  split; [rewrite Hw'; exact Hw | rewrite Hs'; exact Hs].
Qed.

End Edges.


(** * The lazy accessors of a schema *)

Section Lazy.
Context `{RT : Runtime}.
Variable CompileString : string -> string -> result JsonSchema.


End Lazy.

(** * The properties at work on the scripted registry *)

#[local] Existing Instance Demo.runtime.

Lemma fresh_sends ctx method uri : sends Demo.fresh ctx method uri.
Proof. repeat split; cbn; lia. Qed.

Lemma GetSchema_fetches_once_then_serves_from_cache_witness :
  sends (client Demo.served) Demo.background "GET" (schemaByID 7) /\
  fst (GetSchema Demo.background 7 Demo.served) = Returns (Ok Demo.longListSchema) /\
  fetchedOnce Demo.served (snd (GetSchema Demo.background 7 Demo.served))
    Demo.background (schemaByID 7) /\
  (forall ctx' n,
     repeatGo n (GetSchema ctx' 7) (snd (GetSchema Demo.background 7 Demo.served)) =
     (Returns (replicate n (Ok Demo.longListSchema)),
      snd (GetSchema Demo.background 7 Demo.served))) /\
  (exists new,
     wire (snd (repeatGo 2 (GetSchema Demo.background 7) Demo.uncached))
       = wire Demo.uncached ++ new /\
     length new = 2%nat).
Proof.
  assert (Hs : sends (client Demo.served) Demo.background "GET" (schemaByID 7))
    by apply fresh_sends.
  assert (Hq : sends (client Demo.uncached) Demo.background "GET" (schemaByID 7))
    by (repeat split; cbn; lia).
  assert (Hret : fst (GetSchema Demo.background 7 Demo.served)
                 = Returns (Ok Demo.longListSchema)) by (vm_compute; reflexivity).
  destruct (GetSchema_fetches_once_then_serves_from_cache Demo.background 7 Demo.served Hs)
    as [Hon _].
  destruct (Hon eq_refl eq_refl) as [Honce Hagain].
  destruct (GetSchema_fetches_once_then_serves_from_cache Demo.background 7 Demo.uncached Hq)
    as [_ Hoff].
  destruct (Hoff eq_refl) as [_ Hevery].
  split; [exact Hs|]. split; [exact Hret|]. split; [exact Honce|].
  split; [exact (Hagain _ Hret)|].
  destruct (repeatGo 2 (GetSchema Demo.background 7) Demo.uncached) as [o st'] eqn:Hrun.
  assert (Ho : exists results, o = Returns results).
  { apply (f_equal fst) in Hrun. vm_compute in Hrun. subst o. eexists; reflexivity. }
  destruct Ho as [results ->].
  destruct (Hevery 2%nat results st' Hrun) as (new & Hw & Hlen & _).
  exists new. split; assumption.
Defined.

Lemma GetLatestSchema_cached_only_when_asked_witness :
  sends (client Demo.servedTwice) Demo.background "GET"
    (subjectByVersion (QueryEscape "LongList") "latest") /\
  cachingEnabled (client Demo.servedTwice) = true /\
  (exists new,
     wire (snd (repeatGo 2 (GetLatestSchema Demo.background "LongList") Demo.servedTwice))
       = wire Demo.servedTwice ++ new /\
     length new = 2%nat) /\
  fetchedOnce Demo.latestCached
    (snd (GetLatestSchema Demo.background "LongList" Demo.latestCached))
    Demo.background (subjectByVersion (QueryEscape "LongList") "latest") /\
  (forall ctx' n,
     repeatGo n (GetLatestSchema ctx' "LongList")
       (snd (GetLatestSchema Demo.background "LongList" Demo.latestCached)) =
     (Returns (replicate n (Ok Demo.longListSchema)),
      snd (GetLatestSchema Demo.background "LongList" Demo.latestCached))).
Proof.
  assert (Hs : sends (client Demo.servedTwice) Demo.background "GET"
                 (subjectByVersion (QueryEscape "LongList") "latest")) by apply fresh_sends.
  assert (Hl : sends (client Demo.latestCached) Demo.background "GET"
                 (subjectByVersion (QueryEscape "LongList") "latest"))
    by (repeat split; cbn; lia).
  destruct (GetLatestSchema_cached_only_when_asked Demo.background "LongList"
              Demo.servedTwice Hs eq_refl) as (_ & Hoff & _).
  destruct (Hoff eq_refl) as [_ Hevery].
  destruct (GetLatestSchema_cached_only_when_asked Demo.background "LongList"
              Demo.latestCached Hl eq_refl) as (_ & _ & Hon).
  destruct (Hon eq_refl eq_refl) as [Honce Hagain].
  split; [exact Hs|]. split; [reflexivity|]. split.
  - destruct (repeatGo 2 (GetLatestSchema Demo.background "LongList") Demo.servedTwice)
      as [o st'] eqn:Hrun.
    assert (Ho : exists results, o = Returns results).
    { apply (f_equal fst) in Hrun. vm_compute in Hrun. subst o. eexists; reflexivity. }
    destruct Ho as [results ->].
    destruct (Hevery 2%nat results st' Hrun) as (new & Hw & Hlen & _).
    exists new. split; assumption.
  - split; [exact Honce|].
    apply Hagain. vm_compute. reflexivity.
Defined.

Lemma ResetCache_empties_both_caches_witness :
  let st := snd (calls Demo.warmUp Demo.servedFour) in
  let st1 := snd (ResetCache st) in
  sends (client st) Demo.background "GET" (schemaByID 7) /\
  sends (client st) Demo.background "GET"
    (subjectByVersion (QueryEscape "LongList") (Itoa 1)) /\
  idSchemaCache (client st) !! 7 = Some Demo.longListSchema /\
  subjectSchemaCache (client st) !! cacheKey "LongList" "1" = Some Demo.longListSchema /\
  idSchemaCache (client st1) = ∅ /\
  subjectSchemaCache (client st1) = ∅ /\
  fetchedOnce st1 (snd (GetSchema Demo.background 7 st1)) Demo.background (schemaByID 7) /\
  fetchedOnce st1 (snd (GetSchemaByVersion Demo.background "LongList" 1 st1)) Demo.background
    (subjectByVersion (QueryEscape "LongList") (Itoa 1)).
Proof.
  intros st st1.
  assert (Hid : sends (client st) Demo.background "GET" (schemaByID 7))
    by (repeat split; vm_compute; congruence).
  assert (Hv : sends (client st) Demo.background "GET"
                 (subjectByVersion (QueryEscape "LongList") (Itoa 1)))
    by (repeat split; vm_compute; congruence).
  pose proof (ResetCache_empties_both_caches Demo.servedFour Demo.warmUp Demo.background 7
                "LongList" 1 Hid Hv) as (_ & He1 & He2 & _ & _ & _ & Hf1 & Hf2 & _).
  split; [exact Hid|]. split; [exact Hv|].
  split; [vm_compute; reflexivity|]. split; [vm_compute; reflexivity|].
  split; [exact He1|]. split; [exact He2|]. split; [exact Hf1 | exact Hf2].
Defined.

Lemma most_recent_credentials_win_witness :
  "user" <> "" /\ "secret" <> "" /\
  forallb (fun op => negb (touchesCredentials op)) [CallGetSubjects Demo.background] = true /\
  (exists x,
     wire (snd ((SetCredentials "user" "secret";;
                 SetBearerToken (Some (Ok "token"));;
                 calls [CallGetSubjects Demo.background]) Demo.served)) = [x] /\
     bearerOnly x /\ noBasic x) /\
  (exists x,
     wire (snd ((SetBearerToken (Some (Ok "token"));;
                 SetCredentials "user" "secret";;
                 calls [CallGetSubjects Demo.background]) Demo.served)) = [x] /\
     basicOnly "user" "secret" x /\ noBearer x).
Proof.
  assert (Hu : "user" <> "") by discriminate.
  assert (Hp : "secret" <> "") by discriminate.
  assert (Hops : forallb (fun op => negb (touchesCredentials op))
                   [CallGetSubjects Demo.background] = true) by reflexivity.
  destruct (most_recent_credentials_win Demo.served "user" "secret" (Ok "token")
              [CallGetSubjects Demo.background] Hu Hp Hops) as (Hbearer & Hbasic & _).
  split; [exact Hu|]. split; [exact Hp|]. split; [exact Hops|]. split.
  - match goal with |- exists x, ?w = [x] /\ _ =>
      destruct w as [|x [|y rest]] eqn:Hw; try (vm_compute in Hw; discriminate Hw) end.
    exists x. split; [reflexivity|].
    specialize (Hbearer [x] Hw). apply Forall_inv in Hbearer. exact Hbearer.
  - match goal with |- exists x, ?w = [x] /\ _ =>
      destruct w as [|x [|y rest]] eqn:Hw; try (vm_compute in Hw; discriminate Hw) end.
    exists x. split; [reflexivity|].
    specialize (Hbasic [x] Hw). apply Forall_inv in Hbasic. exact Hbasic.
Defined.

Lemma schema_text_line_breaks_replaced_witness :
  (Avro = Avro \/ Avro = Json \/ Avro = Protobuf) /\
  sends (client Demo.servedTwice) Demo.background "POST" (subjectVersions (QueryEscape "LongList")) /\
  sends (client Demo.servedTwice) Demo.background "POST" (subjectBySubject (QueryEscape "LongList")) /\
  textToSend Avro Demo.twoLines = "{ } " /\
  textToSend Protobuf Demo.twoLines = Demo.twoLines /\
  (exists x rest,
     wire (snd (CreateSchema Demo.background "LongList" Demo.twoLines Avro [] Demo.servedTwice))
       = x :: rest /\
     Method (sent x) = "POST" /\ Payload (sent x) = Some "{ } ") /\
  (exists x,
     wire (snd (LookupSchema Demo.background "LongList" Demo.twoLines Protobuf []
                  Demo.servedTwice)) = [x] /\
     Method (sent x) = "POST" /\ Payload (sent x) = Some Demo.twoLines).
Proof.
  assert (Ht : Avro = Avro \/ Avro = Json \/ Avro = Protobuf) by (left; reflexivity).
  assert (Hp : Protobuf = Avro \/ Protobuf = Json \/ Protobuf = Protobuf)
    by (right; right; reflexivity).
  assert (Hc : sends (client Demo.servedTwice) Demo.background "POST"
                 (subjectVersions (QueryEscape "LongList"))) by apply fresh_sends.
  assert (Hl : sends (client Demo.servedTwice) Demo.background "POST"
                 (subjectBySubject (QueryEscape "LongList"))) by apply fresh_sends.
  destruct (schema_text_line_breaks_replaced Demo.background "LongList" Demo.twoLines Avro []
              Demo.servedTwice Ht Hc Hl) as ((x & rest & Hw & Hx & _) & _ & _ & Hnorm).
  destruct (schema_text_line_breaks_replaced Demo.background "LongList" Demo.twoLines Protobuf []
              Demo.servedTwice Hp Hc Hl) as (_ & (y & Hwy & Hy) & Hsame & _).
  split; [exact Ht|]. split; [exact Hc|]. split; [exact Hl|].
  split; [reflexivity|]. split; [exact (Hsame eq_refl)|]. split.
  - exists x, rest. split; [exact Hw|]. destruct Hx as (_ & Hm & _ & Hpay).
    split; [exact Hm | exact Hpay].
  - exists y. split; [exact Hwy|]. destruct Hy as (_ & Hm & _ & Hpay).
    split; [exact Hm | exact Hpay].
Defined.

Lemma registry_errors_reach_the_caller_witness :
  0 <= cur (sem (client Demo.rejected)) /\
  fst (perform (CallGetSubjects Demo.background) Demo.rejected) =
    Returns (Some (RegistryError {| Code := 42201; Message := "Invalid schema";
                                    str := Demo.invalidSchemaBody |})).
Proof.
  assert (Hgate : 0 <= cur (sem (client Demo.rejected))) by (cbn; lia).
  destruct (registry_errors_reach_the_caller (CallGetSubjects Demo.background) Demo.rejected
              Hgate) as (Hfail & _ & _).
  split; [exact Hgate|].
  destruct (wire (snd (perform (CallGetSubjects Demo.background) Demo.rejected)))
    as [|x rest] eqn:Hw; [vm_compute in Hw; discriminate Hw|].
  assert (Hgot : got x = Demo.unprocessable Demo.invalidSchemaBody).
  { vm_compute in Hw. injection Hw as <- _. reflexivity. }
  destruct (Hfail (x :: rest) 0%nat x _ eq_refl eq_refl Hgot) as [Hres _].
  { right. cbn. lia. }
  exact Hres.
Defined.

Lemma permanent_delete_is_second_request_witness :
  sends (client Demo.agreeable) Demo.background "DELETE" ("/subjects/" +:+ "LongList") /\
  sends (client Demo.agreeable) Demo.background "DELETE"
    (("/subjects/" +:+ "LongList") +:+ "?permanent=true") /\
  sends (client Demo.agreeable) Demo.background "DELETE"
    (subjectByVersion "LongList" (Itoa 1)) /\
  sends (client Demo.agreeable) Demo.background "DELETE"
    (subjectByVersion "LongList" (Itoa 1) +:+ "?permanent=true") /\
  deletes (DeleteSubject Demo.background "LongList" true Demo.agreeable) Demo.agreeable
    Demo.background ("/subjects/" +:+ "LongList") true /\
  deletes (DeleteSubjectByVersion Demo.background "LongList" 1 true Demo.agreeable)
    Demo.agreeable Demo.background (subjectByVersion "LongList" (Itoa 1)) true /\
  deletes (DeleteSubject Demo.background "LongList" false Demo.agreeable) Demo.agreeable
    Demo.background ("/subjects/" +:+ "LongList") false /\
  length (wire (snd (DeleteSubject Demo.background "LongList" true Demo.agreeable))) = 2%nat /\
  length (wire (snd (DeleteSubject Demo.background "LongList" false Demo.agreeable))) = 1%nat /\
  length (wire (snd (DeleteSubject Demo.background "LongList" true Demo.rejected))) = 1%nat.
Proof.
  pose proof (permanent_delete_is_second_request Demo.background "LongList" 1 true
                Demo.agreeable (fresh_sends _ _ _) (fresh_sends _ _ _) (fresh_sends _ _ _)
                (fresh_sends _ _ _)) as [Hs Hv].
  pose proof (permanent_delete_is_second_request Demo.background "LongList" 1 false
                Demo.agreeable (fresh_sends _ _ _) (fresh_sends _ _ _) (fresh_sends _ _ _)
                (fresh_sends _ _ _)) as [Hn _].
  repeat (split; [apply fresh_sends|]).
  split; [exact Hs|]. split; [exact Hv|]. split; [exact Hn|].
  repeat split; vm_compute; reflexivity.
Defined.

Lemma setters_ignore_empty_arguments_witness :
  ("" = "" \/ "secret" = "") /\
  snd (SetCredentials "" "secret" Demo.served) = Demo.served /\
  snd (SetBearerToken None Demo.served) = Demo.served /\
  fst (SetCredentials "" "secret" Demo.served) = Returns tt /\
  agreeOffCredentials (client Demo.served)
    (client (snd (SetCredentials "user" "secret" Demo.served))).
Proof.
  assert (He : "" = "" \/ "secret" = "") by (left; reflexivity).
  destruct (setters_ignore_empty_arguments Demo.served "" "secret" He)
    as (H1 & H2 & H3 & H4 & _).
  split; [exact He|]. split; [exact H1|]. split; [exact H2|].
  split; [exact (proj1 (H3 eq_refl))|].
  exact (proj1 (H4 "user" "secret")).
Defined.

Lemma unsupported_type_checked_by_two_of_three_witness :
  "XML" <> Avro /\ "XML" <> Json /\ "XML" <> Protobuf /\
  sends (client Demo.agreeable) Demo.background "POST"
    ("/compatibility/subjects/" +:+ "LongList" +:+ "/versions/" +:+ "latest") /\
  CreateSchema Demo.background "LongList" "<schema/>" "XML" [] Demo.agreeable
    = (Returns (Err invalidSchemaType), Demo.agreeable) /\
  (exists x,
     wire (snd (IsSchemaCompatible Demo.background "LongList" "<schema/>" "latest" "XML" []
                  Demo.agreeable)) = [x] /\
     Method (sent x) = "POST" /\
     fst (IsSchemaCompatible Demo.background "LongList" "<schema/>" "latest" "XML" []
            Demo.agreeable) = Returns (Ok false)).
Proof.
  assert (Ha : "XML" <> Avro) by discriminate.
  assert (Hj : "XML" <> Json) by discriminate.
  assert (Hp : "XML" <> Protobuf) by discriminate.
  assert (Hs : sends (client Demo.agreeable) Demo.background "POST"
                 ("/compatibility/subjects/" +:+ "LongList" +:+ "/versions/" +:+ "latest"))
    by apply fresh_sends.
  destruct (unsupported_type_checked_by_two_of_three Demo.background "LongList" "<schema/>"
              "latest" "XML" [] Demo.agreeable Ha Hj Hp Hs) as (Hc & _ & x & Hw & Hx & Hr).
  split; [exact Ha|]. split; [exact Hj|]. split; [exact Hp|]. split; [exact Hs|].
  split; [exact Hc|].
  exists x. split; [exact Hw|]. split; [apply Hx|].
  vm_compute. reflexivity.
Defined.

Lemma gate_wait_ignores_done_context_witness :
  Done Demo.cancelled (world Demo.waiting) = true /\
  NewRequestError Demo.cancelled "GET" (schemaRegistryURL (client Demo.waiting) +:+ subjects)
    = None /\
  tokenAnswers (client Demo.waiting) Demo.cancelled /\
  size (sem (client Demo.waiting)) - cur (sem (client Demo.waiting)) < 1 /\
  fst (GetSubjects Demo.cancelled Demo.waiting) = Blocks /\
  wire (snd (GetSubjects Demo.cancelled Demo.waiting)) = [] /\
  fst (GetSubjects Demo.cancelled Demo.gateless) = Blocks.
Proof.
  assert (Hfull : size (sem (client Demo.waiting)) - cur (sem (client Demo.waiting)) < 1)
    by (cbn; lia).
  assert (Hnone : size (sem (client Demo.gateless)) - cur (sem (client Demo.gateless)) < 1)
    by (cbn; lia).
  destruct (gate_wait_ignores_done_context Demo.cancelled "GET" subjects None Demo.waiting
              eq_refl eq_refl eq_refl I Hfull) as (_ & Hb & _ & Hw).
  destruct (gate_wait_ignores_done_context Demo.cancelled "GET" subjects None Demo.gateless
              eq_refl eq_refl eq_refl I Hnone) as (_ & Hg & _).
  split; [reflexivity|]. split; [reflexivity|]. split; [exact I|]. split; [exact Hfull|].
  split; [exact Hb|]. split; [exact Hw | exact Hg].
Defined.

(** The read lock a refused token leaves behind: the next setter blocks. *)
Lemma refused_token_blocks_setters :
  fst (GetSubjects Demo.background Demo.refused) = Returns (Err (Foreign "no token")) /\
  fst ((GetSubjects Demo.background;; SetCredentials "user" "secret") Demo.refused) = Blocks.
Proof. split; vm_compute; reflexivity. Qed.

(** * The further properties at work on the scripted registry *)

Lemma only_setters_change_settings_witness :
  forallb (fun op => negb (configures op)) Scene.readAndReset = true /\
  sameSettings (client Scene.warmed) (client (snd (calls Scene.readAndReset Scene.warmed))) /\
  idSchemaCache (client (snd (calls Scene.readAndReset Scene.warmed))) = ∅.
Proof.
  assert (Hops : forallb (fun op => negb (configures op)) Scene.readAndReset = true)
    by reflexivity.
  split; [exact Hops|]. split.
  - exact (only_setters_change_settings Scene.readAndReset Scene.warmed Hops).
  - vm_compute. reflexivity.
Defined.

Lemma nothing_is_evicted_witness :
  forallb (fun op => negb (resets op)) Scene.switchAndDelete = true /\
  is_Some (idSchemaCache (client Scene.warmed) !! 7) /\
  is_Some (subjectSchemaCache (client Scene.warmed) !! cacheKey "LongList" "1") /\
  is_Some (idSchemaCache (client (snd (calls Scene.switchAndDelete Scene.warmed))) !! 7) /\
  is_Some (subjectSchemaCache (client (snd (calls Scene.switchAndDelete Scene.warmed)))
             !! cacheKey "LongList" "1").
Proof.
  assert (Hops : forallb (fun op => negb (resets op)) Scene.switchAndDelete = true)
    by reflexivity.
  assert (Hid : is_Some (idSchemaCache (client Scene.warmed) !! 7))
    by (exists Demo.longListSchema; vm_compute; reflexivity).
  assert (Hkey : is_Some (subjectSchemaCache (client Scene.warmed) !! cacheKey "LongList" "1"))
    by (exists Demo.longListSchema; vm_compute; reflexivity).
  destruct (nothing_is_evicted Scene.switchAndDelete Scene.warmed Hops) as [H1 H2].
  split; [exact Hops|]. split; [exact Hid|]. split; [exact Hkey|].
  split; [exact (H1 7 Hid) | exact (H2 _ Hkey)].
Defined.

Lemma caching_off_keeps_the_caches_witness :
  forallb talks Scene.fetchAgain = true /\
  idSchemaCache (client Scene.warmed) !! 7 = Some Demo.longListSchema /\
  length (wire (snd (calls Scene.fetchAgain (snd (CachingEnabled false Scene.warmed)))))
    = 4%nat /\
  idSchemaCache (client (snd (calls Scene.fetchAgain (snd (CachingEnabled false Scene.warmed)))))
    = idSchemaCache (client Scene.warmed) /\
  fst (GetSchema Demo.background 7
         (snd (CachingEnabled true
                 (snd (calls Scene.fetchAgain (snd (CachingEnabled false Scene.warmed)))))))
    = Returns (Ok Demo.longListSchema).
Proof.
  assert (Hops : forallb talks Scene.fetchAgain = true) by reflexivity.
  assert (Hid : idSchemaCache (client Scene.warmed) !! 7 = Some Demo.longListSchema)
    by (vm_compute; reflexivity).
  destruct (caching_off_keeps_the_caches Scene.fetchAgain Scene.warmed Hops)
    as (Hsame & _ & Hserve).
  split; [exact Hops|]. split; [exact Hid|]. split; [vm_compute; reflexivity|].
  split; [exact Hsame|].
  rewrite (Hserve Demo.background 7 Demo.longListSchema Hid). reflexivity.
Defined.

Lemma no_call_keeps_a_gate_unit_witness :
  0 <= cur (sem (client Demo.servedFour)) /\
  length (wire (snd (calls Demo.warmUp Demo.servedFour))) = 2%nat /\
  sem (client (snd (calls Demo.warmUp Demo.servedFour))) = sem (client Demo.servedFour).
Proof.
  assert (Hgate : 0 <= cur (sem (client Demo.servedFour))) by (cbn; lia).
  split; [exact Hgate|]. split; [vm_compute; reflexivity|].
  exact (no_call_keeps_a_gate_unit Demo.warmUp Demo.servedFour Hgate).
Defined.

Lemma fetching_a_version_fills_the_id_cache_witness :
  cachingEnabled (client Demo.served) = true /\
  cacheLatest (client Demo.served) = false /\
  getVersion Demo.background "LongList" "latest" Demo.served
    = (Returns (Ok Demo.longListSchema), Scene.latestFetched) /\
  subjectSchemaCache (client Scene.latestFetched) = ∅ /\
  wire Scene.latestFetched <> wire Demo.served /\
  GetSchema Demo.background 7 Scene.latestFetched
    = (Returns (Ok Demo.longListSchema), Scene.latestFetched).
Proof.
  assert (Hon : cachingEnabled (client Demo.served) = true) by reflexivity.
  assert (Hrun : getVersion Demo.background "LongList" "latest" Demo.served
                 = (Returns (Ok Demo.longListSchema), Scene.latestFetched))
    by (vm_compute; reflexivity).
  destruct (fetching_a_version_fills_the_id_cache Demo.background "LongList" "latest"
              Demo.served Demo.longListSchema Scene.latestFetched Hon eq_refl Hrun)
    as [Hwire Hserved].
  split; [exact Hon|]. split; [reflexivity|]. split; [exact Hrun|].
  split; [vm_compute; reflexivity|]. split; [exact Hwire|].
  exact (Hserved Demo.background).
Defined.

Lemma registering_fills_both_caches_witness :
  cachingEnabled (client Demo.servedTwice) = true /\
  CreateSchema Demo.background "LongList" "long" Avro [] Demo.servedTwice
    = (Returns (Ok Demo.longListSchema), Scene.registered) /\
  GetSchema Demo.background 7 Scene.registered
    = (Returns (Ok Demo.longListSchema), Scene.registered) /\
  GetSchemaByVersion Demo.background "LongList" 1 Scene.registered
    = (Returns (Ok Demo.longListSchema), Scene.registered).
Proof.
  assert (Hon : cachingEnabled (client Demo.servedTwice) = true) by reflexivity.
  assert (Hrun : CreateSchema Demo.background "LongList" "long" Avro [] Demo.servedTwice
                 = (Returns (Ok Demo.longListSchema), Scene.registered))
    by (vm_compute; reflexivity).
  split; [exact Hon|]. split; [exact Hrun|].
  exact (registering_fills_both_caches Demo.background "LongList" "long" Avro []
           Demo.servedTwice Demo.longListSchema Scene.registered Hon Hrun Demo.background).
Defined.

Lemma looking_up_fills_both_caches_witness :
  cachingEnabled (client Demo.served) = true /\
  LookupSchema Demo.background "LongList" "long" Avro [] Demo.served
    = (Returns (Ok Demo.longListSchema), Scene.lookedUp) /\
  GetSchema Demo.background 7 Scene.lookedUp
    = (Returns (Ok Demo.longListSchema), Scene.lookedUp) /\
  GetSchemaByVersion Demo.background "LongList" 1 Scene.lookedUp
    = (Returns (Ok Demo.longListSchema), Scene.lookedUp).
Proof.
  assert (Hon : cachingEnabled (client Demo.served) = true) by reflexivity.
  assert (Hrun : LookupSchema Demo.background "LongList" "long" Avro [] Demo.served
                 = (Returns (Ok Demo.longListSchema), Scene.lookedUp))
    by (vm_compute; reflexivity).
  split; [exact Hon|]. split; [exact Hrun|].
  exact (looking_up_fills_both_caches Demo.background "LongList" "long" Avro []
           Demo.served Demo.longListSchema Scene.lookedUp Hon Hrun Demo.background).
Defined.

Lemma deleted_schemas_are_still_served_witness :
  forallb plain Scene.deleteAll = true /\
  cachingEnabled (client Scene.warmed) = true /\
  subjectSchemaCache (client Scene.warmed) !! cacheKey "LongList" (Itoa 1)
    = Some Demo.longListSchema /\
  length (wire (snd (calls Scene.deleteAll Scene.warmed))) = 6%nat /\
  GetSchemaByVersion Demo.background "LongList" 1 (snd (calls Scene.deleteAll Scene.warmed))
    = (Returns (Ok Demo.longListSchema), snd (calls Scene.deleteAll Scene.warmed)).
Proof.
  assert (Hops : forallb plain Scene.deleteAll = true) by reflexivity.
  assert (Hon : cachingEnabled (client Scene.warmed) = true) by (vm_compute; reflexivity).
  assert (Hhit : subjectSchemaCache (client Scene.warmed) !! cacheKey "LongList" (Itoa 1)
                 = Some Demo.longListSchema) by (vm_compute; reflexivity).
  destruct (deleted_schemas_are_still_served Scene.deleteAll Scene.warmed Hops Hon)
    as (_ & _ & _ & Hserved).
  split; [exact Hops|]. split; [exact Hon|]. split; [exact Hhit|].
  split; [vm_compute; reflexivity|].
  exact (Hserved Demo.background "LongList" 1 Demo.longListSchema Hhit).
Defined.

Lemma failed_calls_cache_nothing_witness :
  exists e,
    fst (perform (CallCreateSchema Demo.background "LongList" "long" Avro [])
           Scene.halfRegistered) = Returns (Some e) /\
    length (wire (snd (perform (CallCreateSchema Demo.background "LongList" "long" Avro [])
                         Scene.halfRegistered))) = 2%nat /\
    idSchemaCache (client (snd (perform (CallCreateSchema Demo.background "LongList" "long"
                                           Avro []) Scene.halfRegistered))) = ∅.
Proof.
  eexists. split; [vm_compute; reflexivity|]. split; [vm_compute; reflexivity|].
  refine (proj1 (failed_calls_cache_nothing
                   (CallCreateSchema Demo.background "LongList" "long" Avro [])
                   Scene.halfRegistered _ _)).
  vm_compute. reflexivity.
Defined.

Lemma failed_token_blocks_the_setters_witness :
  opens (CallDeleteSubject Demo.background "LongList" true) (client Demo.refused)
    = Some (Demo.background, "DELETE", "/subjects/LongList", None) /\
  fst (perform (CallDeleteSubject Demo.background "LongList" true) Demo.refused)
    = Returns (Some (Foreign "no token")) /\
  wire (snd (perform (CallDeleteSubject Demo.background "LongList" true) Demo.refused)) = [] /\
  fst (SetCredentials "user" "secret"
         (snd (perform (CallDeleteSubject Demo.background "LongList" true) Demo.refused)))
    = Blocks.
Proof.
  destruct (failed_token_blocks_the_setters
              (CallDeleteSubject Demo.background "LongList" true) Demo.refused
              Demo.background "DELETE" "/subjects/LongList" None
              {| username := ""; password := "";
                 bearerToken := Some (Err (Foreign "no token") : @Provider Demo.runtime) |}
              (Err (Foreign "no token") : @Provider Demo.runtime)
              (Foreign "no token") (world Demo.refused)
              eq_refl eq_refl eq_refl eq_refl eq_refl eq_refl)
    as (Hfst & Hwire & _ & Hset & _).
  split; [reflexivity|]. split; [exact Hfst|]. split; [exact Hwire|].
  exact (Hset "user" "secret").
Defined.

Lemma null_body_panics_witness :
  opens (CallGetSchema Demo.background 7) (client Scene.nullAnswer)
    = Some (Demo.background, "GET", schemaByID 7, None) /\
  fst (httpRequest Demo.background "GET" (schemaByID 7) None Scene.nullAnswer)
    = Returns (Ok "null") /\
  Unmarshal_schemaResponse "null" = Ok None /\
  fst (perform (CallGetSchema Demo.background 7) Scene.nullAnswer) = Panics.
Proof.
  assert (Hfirst : httpRequest Demo.background "GET" (schemaByID 7) None Scene.nullAnswer
                   = (Returns (Ok "null"),
                      snd (httpRequest Demo.background "GET" (schemaByID 7) None
                             Scene.nullAnswer)))
    by (vm_compute; reflexivity).
  assert (Hnil : Unmarshal_schemaResponse "null" = Ok None) by reflexivity.
  split; [reflexivity|]. split; [rewrite Hfirst; reflexivity|]. split; [exact Hnil|].
  rewrite (null_body_panics (CallGetSchema Demo.background 7) Scene.nullAnswer
             Demo.background "GET" (schemaByID 7) None "null" _ eq_refl Hfirst Hnil).
  reflexivity.
Defined.

Lemma calls_open_with_their_request_witness :
  exists x rest,
    wire (snd (perform (CallDeleteSubject Demo.background "a b" true) Demo.agreeable))
      = x :: rest /\
    Method (sent x) = "DELETE" /\
    URL (sent x) = "http://registry/subjects/a b".
Proof.
  destruct (calls_open_with_their_request
              (CallDeleteSubject Demo.background "a b" true) Demo.agreeable
              (fresh_sends Demo.background "DELETE" "/subjects/a b"))
    as (x & rest & Hwire & _ & Hmethod & Hurl & _).
  exists x, rest. split; [exact Hwire|]. split; [exact Hmethod | exact Hurl].
Defined.

Lemma cacheKey_unambiguous_witness :
  servedVersion (Itoa 12) /\
  cacheKey "a-b" (Itoa 12) = "a-b-12" /\
  ("a" +:+ "-b" = "a-b" /\ Itoa 12 = Itoa 12 /\
   forall n m, Itoa 12 = Itoa n -> Itoa 12 = Itoa m -> n = m).
Proof.
  assert (Hv : servedVersion (Itoa 12)) by (right; exists 12; split; [lia | reflexivity]).
  split; [exact Hv|]. split; [reflexivity|].
  exact (cacheKey_unambiguous ("a" +:+ "-b") "a-b" (Itoa 12) (Itoa 12) Hv Hv eq_refl).
Defined.

Lemma negative_version_shares_a_key_witness :
  cachingEnabled (client Scene.dashed) = true /\
  subjectSchemaCache (client Scene.dashed) !! cacheKey ("LongList" +:+ "-") (Itoa 1)
    = Some Demo.longListSchema /\
  world Scene.dashed = [] /\
  GetSchemaByVersion Demo.background "LongList" (-1) Scene.dashed
    = (Returns (Ok Demo.longListSchema), Scene.dashed).
Proof.
  assert (Hon : cachingEnabled (client Scene.dashed) = true) by (vm_compute; reflexivity).
  assert (Hcached : subjectSchemaCache (client Scene.dashed)
                      !! cacheKey ("LongList" +:+ "-") (Itoa 1) = Some Demo.longListSchema)
    by (vm_compute; reflexivity).
  split; [exact Hon|]. split; [exact Hcached|]. split; [vm_compute; reflexivity|].
  exact (negative_version_shares_a_key Demo.background "LongList" 1%positive
           Demo.longListSchema Scene.dashed Hon Hcached).
Defined.

Lemma cached_schemas_are_sound_witness :
  cachesSound (client Demo.servedFour) /\
  cachesSound (client (snd (calls Scene.withCodecs Demo.servedFour))) /\
  exists schema,
    fst (GetSchema Demo.background 7 (snd (calls Scene.withCodecs Demo.servedFour)))
      = Returns (Ok schema) /\
    Schema_ID schema = 7 /\
    (fst (Schema_Codec schema) = Some "long" <-> NewCodec (Schema_Schema schema) = Ok "long").
Proof.
  assert (Hsound : cachesSound (client Demo.servedFour)).
  { split; cbn; intros k s; rewrite lookup_empty; discriminate. }
  destruct (cached_schemas_are_sound Scene.withCodecs Demo.servedFour Hsound)
    as [Hafter Hget].
  split; [exact Hsound|]. split; [exact Hafter|].
  eexists. split; [vm_compute; reflexivity|].
  refine ((fun H => conj (proj1 H) (proj2 H "long")) (Hget Demo.background 7 _ _)).
  vm_compute. reflexivity.
Defined.

Lemma fetches_compile_whatever_the_type_witness :
  codecCreationEnabled (client Scene.compiling) = true /\
  fst (GetSchema Demo.background 7 Scene.compiling) = Returns (Ok Scene.compiledSchema) /\
  exists codec,
    s_codec Scene.compiledSchema = Some codec /\
    NewCodec (s_schema Scene.compiledSchema) = Ok codec.
Proof.
  assert (Hrun : GetSchema Demo.background 7 Scene.compiling
                 = (Returns (Ok Scene.compiledSchema),
                    snd (GetSchema Demo.background 7 Scene.compiling)))
    by (vm_compute; reflexivity).
  split; [reflexivity|]. split; [rewrite Hrun; reflexivity|].
  exact (proj1 (fetches_compile_whatever_the_type Demo.background Scene.compiling
                  Scene.compiledSchema (snd (GetSchema Demo.background 7 Scene.compiling))
                  (conj eq_refl eq_refl)) 7 Hrun).
Defined.

Lemma lookup_compiles_avro_only_witness :
  codecCreationEnabled (client Scene.compiling) = true /\
  fst (LookupSchema Demo.background "LongList" "long" Json [] Scene.compiling)
    = Returns (Ok Demo.longListSchema) /\
  s_codec Demo.longListSchema = None /\
  fst (LookupSchema Demo.background "LongList" "long" Avro [] Scene.compiling)
    = Returns (Ok Scene.compiledSchema).
Proof.
  assert (Hrun : LookupSchema Demo.background "LongList" "long" Json [] Scene.compiling
                 = (Returns (Ok Demo.longListSchema),
                    snd (LookupSchema Demo.background "LongList" "long" Json []
                           Scene.compiling)))
    by (vm_compute; reflexivity).
  split; [reflexivity|]. split; [rewrite Hrun; reflexivity|].
  split; [|vm_compute; reflexivity].
  exact (lookup_compiles_avro_only Demo.background "LongList" "long" Json []
           Scene.compiling Demo.longListSchema _ Hrun).
Defined.

Lemma a_shut_gate_never_opens_witness :
  size (sem (client Demo.gateless)) = 0 /\
  wire (snd (calls (Demo.warmUp ++ [CallGetSubjects Demo.background]) Demo.gateless)) = [] /\
  fst (calls (Demo.warmUp ++ [CallGetSubjects Demo.background]) Demo.gateless) = Blocks.
Proof.
  assert (Hshut : size (sem (client Demo.gateless)) - cur (sem (client Demo.gateless)) < 1)
    by (cbn; lia).
  split; [reflexivity|]. split; [|vm_compute; reflexivity].
  exact (proj1 (a_shut_gate_never_opens (Demo.warmUp ++ [CallGetSubjects Demo.background])
                  Demo.gateless Hshut)).
Defined.
